(** * promptsub: the template parser and the substitution engine

    The development follows the Python sources of the [promptsub] package:

    - [promptsub/special_chatacters.py]          (module [sc])
    - [promptsub/errors.py]                      (module [Errors])
    - [promptsub/types.py]                       (module [types])
    - [promptsub/prompt_components/base.py]      (module [PromptComponent])
    - [promptsub/prompt_components/variable.py]  (module [Var])
    - [promptsub/prompt_components/template.py]  (module [Template])
    - [promptsub/prompt_api.py]                  (module [Prompt])

    Python [str] values are modelled by [string]; one [ascii] stands for one
    Python character, a code point below 256.  Exceptions are modelled by the
    [Raise] constructor of a result type; a method that mutates [self] returns
    the updated object; the dict that the facade writes into lives in a heap,
    and so do, for the requirement traversal, the objects that it reads and
    makes (module [Store]).
    Python's recursion limit is not modelled.  The limit on the number of
    digits of an [int] that [str()] converts is modelled at its default,
    4300 digits ([Prompt.int_max_str_digits]).  The values of the caller's
    dict are exact [str], [int], [bool] and [float] objects or objects of
    another type; subclasses that override [__str__] or [__format__] are not
    modelled. *)

From Stdlib Require Import Ascii String ZArith DecimalString DecimalZ.
From stdpp Require Import base option list gmap strings.

Open Scope string_scope.
Open Scope list_scope.
Open Scope nat_scope.

(** ** errors.py *)

Module Errors.

(** [SyntaxErrorDetails]: points to the character that caused a
    [PromptSyntaxError]; [lineno] and [offset] start at 1. *)
Record SyntaxErrorDetails := mkDetails {
  text : string;
  offset : nat;
  filename : option string;
  lineno : nat }.

(** [SyntaxErrorDetails(text=..., offset=...)] with the default
    [filename=None] and [lineno=1]. *)
Definition details (text : string) (offset : nat) : SyntaxErrorDetails :=
  mkDetails text offset None 1.

(** The exceptions the modelled code can raise.  [PromptSyntaxError]
    carries the optional details given to its constructor:
    without details the underlying [SyntaxError] has neither offset nor
    text.  [IndexError], [TypeError], [AttributeError] and [ValueError] are
    Python's own ([list.pop] on an empty list, subscripting or joining
    [None], a method that the object does not have, [str()] of an [int]
    with more digits than the interpreter converts).  [FuelExhausted] is not a
    Python exception: it is what the fuel-bounded parser of the model answers
    when its recursion budget is used up. *)
Inductive exn :=
| InternalError (message : string)
| VariableError
| ParametersTypeError (message : string)
| PromptSyntaxError (message : string) (details : option SyntaxErrorDetails)
| IndexError
| TypeError
| AttributeError
| ValueError
| FuelExhausted.

(** The outcome of a call: a returned value or a raised exception. *)
Inductive result (A : Type) :=
| Ok (a : A)
| Raise (e : exn).
Arguments Ok {A} a.
Arguments Raise {A} e.

Definition is_Ok {A} (r : result A) : Prop := ∃ a, r = Ok a.

Definition raises_syntax_error {A} (r : result A) : Prop :=
  ∃ message details, r = Raise (PromptSyntaxError message details).

End Errors.
Export Errors.

#[export] Instance result_ret : MRet result := @Ok.
#[export] Instance result_bind : MBind result := λ A B f r,
  match r with
  | Ok a => f a
  | Raise e => Raise e
  end.

(** ** Python string helpers *)

(** ["".join(characters)] for a list of one-character strings. *)
Definition join (characters : list ascii) : string :=
  string_of_list_ascii characters.

(** The characters of a string, as iterated by [for char in text]. *)
Definition chars (s : string) : list ascii := list_ascii_of_string s.

(** [text[:n]] and [text[n:]] for a non-negative [n]; Python clamps an
    index beyond the end. *)
Definition slice_to (n : nat) (s : string) : string := join (take n (chars s)).
Definition slice_from (n : nat) (s : string) : string := join (drop n (chars s)).

(** [char in s] for a one-character [char]. *)
Definition char_in (c : ascii) (s : string) : bool :=
  existsb (Ascii.eqb c) (chars s).

(** ** special_chatacters.py *)

Module sc.
Module TEMPLATE.
Definition OPENING : ascii := "["%char.
Definition CLOSING : ascii := "]"%char.
Definition SEPARATOR : ascii := "|"%char.
End TEMPLATE.
Module VARIABLE.
Definition OPENING : ascii := "{"%char.
Definition CLOSING : ascii := "}"%char.
End VARIABLE.
Module VARIABLE_OPTIONS.
Definition MUTE : ascii := "~"%char.
Definition EQ : ascii := "="%char.
End VARIABLE_OPTIONS.

(** The tuples [TEMPLATE], [VARIABLE] and [VARIABLE_OPTIONS], used with
    [in]. *)
Definition TEMPLATE_chars : list ascii :=
  [TEMPLATE.OPENING; TEMPLATE.CLOSING; TEMPLATE.SEPARATOR].
Definition VARIABLE_chars : list ascii :=
  [VARIABLE.OPENING; VARIABLE.CLOSING].
Definition VARIABLE_OPTIONS_chars : list ascii :=
  [VARIABLE_OPTIONS.MUTE; VARIABLE_OPTIONS.EQ].

(** [ascii_letters + digits + "_"] *)
Definition VARIABLE_NAME_SAFE : string :=
  "abcdefghijklmnopqrstuvwxyzABCDEFGHIJKLMNOPQRSTUVWXYZ0123456789_".
End sc.

Definition char_in_tuple (c : ascii) (t : list ascii) : bool :=
  existsb (Ascii.eqb c) t.

(** ** prompt_components/base.py *)

Module PromptComponent.

(** [PromptComponent.append]: the two state checks, then
    [self._input_characters.append(char)].  The function answers the new
    contents of the list that [_input_characters] refers to. *)
Definition append (start_index _end_index : option nat)
    (_input_characters : list ascii) (char : ascii) : result (list ascii) :=
  match start_index with
  | None => Raise (InternalError "Start index must be set before appending")
  | Some _ =>
    match _end_index with
    | Some _ => Raise (InternalError "No appending after the end index is set")
    | None => Ok (_input_characters ++ [char])
    end
  end.

End PromptComponent.

(** ** prompt_components/variable.py *)

(** The class [Variable]; the module is named [Var] because [Variable] is a
    reserved word. *)
Module Var.

(** [_input_characters] of a Variable is a reference to one of the
    object's two character lists (the source compares it with [is]), or,
    once these have been replaced by fresh lists, to a list of its own. *)
Inductive buffer :=
| KeyCharacters
| RequiredValueCharacters
| Detached (characters : list ascii).

Record t := mk {
  start_index : option nat;
  _end_index : option nat;
  _input_characters : buffer;
  _muted : bool;
  _key : option string;
  _required_value : option string;
  _key_characters : list ascii;
  _required_value_characters : list ascii }.

(** [Variable(start_index=i)], with [__attrs_post_init__] pointing
    [_input_characters] at [_key_characters]. *)
Definition new (start_index : option nat) : t :=
  mk start_index None KeyCharacters false None None [] [].

Definition end_index (self : t) : option nat := _end_index self.
Definition key (self : t) : option string := _key self.

(** The list [self._input_characters] currently denotes. *)
Definition input_characters (self : t) : list ascii :=
  match _input_characters self with
  | KeyCharacters => _key_characters self
  | RequiredValueCharacters => _required_value_characters self
  | Detached l => l
  end.

(** [super().append(char)]: the append reaches whichever list
    [_input_characters] refers to. *)
Definition super_append (self : t) (char : ascii) : result t :=
  l ← PromptComponent.append (start_index self) (_end_index self)
        (input_characters self) char;
  Ok match _input_characters self with
     | KeyCharacters =>
         mk (start_index self) (_end_index self) KeyCharacters (_muted self)
            (_key self) (_required_value self) l
            (_required_value_characters self)
     | RequiredValueCharacters =>
         mk (start_index self) (_end_index self) RequiredValueCharacters
            (_muted self) (_key self) (_required_value self)
            (_key_characters self) l
     | Detached _ =>
         mk (start_index self) (_end_index self) (Detached l) (_muted self)
            (_key self) (_required_value self) (_key_characters self)
            (_required_value_characters self)
     end.

(** [_raise_detailed_syntax_error]: the details' text is the join of the
    pieces and the offset is the number of pieces, the empty ones
    included. *)
Definition _raise_detailed_syntax_error {A} (self : t)
    (err_message : string) (character : option ascii) : result A :=
  let err_detail_characters : list string :=
    [String sc.VARIABLE.OPENING ""] ++
    [if _muted self then String sc.VARIABLE_OPTIONS.MUTE "" else ""] ++
    map (λ c, String c "") (_key_characters self) ++
    [match character with Some c => String c "" | None => "" end] in
  let err_details :=
    details (String.concat "" err_detail_characters)
            (length err_detail_characters) in
  Raise (PromptSyntaxError err_message (Some err_details)).

Definition _mute (self : t) : result t :=
  if (length (input_characters self) =? 0)%nat && negb (_muted self) then
    Ok (mk (start_index self) (_end_index self) (_input_characters self)
           true (_key self) (_required_value self) (_key_characters self)
           (_required_value_characters self))
  else
    _raise_detailed_syntax_error self
      "A mute symbol is only allowed in the beginning"
      (Some sc.VARIABLE_OPTIONS.MUTE).

Definition _process_option (self : t) (char : ascii) : result t :=
  if Ascii.eqb char sc.VARIABLE_OPTIONS.MUTE then _mute self
  else if Ascii.eqb char sc.VARIABLE_OPTIONS.EQ then
    (* Subsequent chars will be appended to another array *)
    Ok (mk (start_index self) (_end_index self) RequiredValueCharacters
           (_muted self) (_key self) (_required_value self)
           (_key_characters self) (_required_value_characters self))
  else Ok self.

Definition targets_required_value (self : t) : bool :=
  match _input_characters self with
  | RequiredValueCharacters => true
  | _ => false
  end.

Definition append (self : t) (char : ascii) : result t :=
  if targets_required_value self then super_append self char
  else if char_in_tuple char sc.VARIABLE_OPTIONS_chars then
    _process_option self char
  else if negb (char_in char sc.VARIABLE_NAME_SAFE) then
    _raise_detailed_syntax_error self
      ("Char " +:+ String char "" +:+ " not allowed in variable key")
      (Some char)
  else super_append self char.

Definition _set_required_value (self : t) : result t :=
  match _required_value_characters self with
  | [] =>
      if targets_required_value self then
        _raise_detailed_syntax_error self
          "Required value can not be empty" None
      else Ok self
  | old =>
      Ok (mk (start_index self) (_end_index self)
             (match _input_characters self with
              | RequiredValueCharacters => Detached old
              | b => b
              end)
             (_muted self) (_key self) (Some (join old))
             (_key_characters self) [])
  end.

Definition _set_key (self : t) : result t :=
  match _key_characters self with
  | [] => Raise (PromptSyntaxError "Variable key can not be empty" None)
  | old =>
      Ok (mk (start_index self) (_end_index self)
             (match _input_characters self with
              | KeyCharacters => Detached old
              | b => b
              end)
             (_muted self) (Some (join old)) (_required_value self)
             [] (_required_value_characters self))
  end.

(** Order of calls matters. *)
Definition _before_close (self : t) : result t :=
  self ← _set_required_value self;
  _set_key self.

(** [PromptComponent.close], inherited. *)
Definition close (self : t) (end_index : nat) : result t :=
  self ← _before_close self;
  Ok (mk (start_index self) (Some end_index) (Detached []) (_muted self)
         (_key self) (_required_value self) (_key_characters self)
         (_required_value_characters self)).

(** [params.get(self._key, "")] on a [dict[str, str]]. *)
Definition params_get (params : gmap string string)
    (key : option string) : string :=
  match key with
  | Some k => default "" (params !! k)
  | None => ""
  end.

(** Truthiness of [self._required_value and result != self._required_value]:
    [None] and the empty string are falsy. *)
Definition required_value_mismatch (required : option string)
    (result : string) : bool :=
  match required with
  | None => false
  | Some r => negb (String.eqb r "") && negb (String.eqb result r)
  end.

Definition substitute (self : t) (params : gmap string string)
    : result string :=
  match end_index self with
  | None => Raise (InternalError "End index must be set before substitution")
  | Some _ =>
      let result := params_get params (_key self) in
      if String.eqb result "" then Raise VariableError
      else if required_value_mismatch (_required_value self) result
      then Raise VariableError
      else if _muted self then Ok "" else Ok result
  end.

(** The scanner's use of a Variable: created at an opening brace, fed the
    characters up to the closing brace, then closed. *)
Definition append_all (self : t) (characters : list ascii) : result t :=
  foldl (λ r c, self ← r; append self c) (Ok self) characters.

Definition build (start : nat) (characters : list ascii) (end_index : nat)
    : result t :=
  self ← append_all (new (Some start)) characters;
  close self end_index.

(** A closed variable: the result of a completed [build]. *)
Definition closed (v : t) : Prop :=
  ∃ start characters end_index, build start characters end_index = Ok v.

End Var.

(** ** types.py *)

Module types.
(** [RequiredAndOptionalVariables]: a pair of sets of variable keys.  The
    elements are what [Variable.key] returns, a string or [None]. *)
Record RequiredAndOptionalVariables := mkRequiredAndOptional {
  required : gset (option string);
  optional : gset (option string) }.
End types.
Export types (RequiredAndOptionalVariables, mkRequiredAndOptional).

(** ** Loops *)

Section loops.
Context {A S : Type} (body : A → S → result S).

(** [for x in reversed(l): s = body(x, s)], where the body may raise. *)
Fixpoint for_reversed (l : list A) (s : S) : result S :=
  match l with
  | [] => Ok s
  | x :: l' => s' ← for_reversed l' s; body x s'
  end.

End loops.

(** [[f(x) for x in l]], where [f] may raise: the first exception stops
    the comprehension. *)
Section comprehension.
Context {A B : Type} (f : A → result B).

Fixpoint list_comprehension (l : list A) : result (list B) :=
  match l with
  | [] => Ok []
  | x :: l' => y ← f x; ys ← list_comprehension l'; Ok (y :: ys)
  end.
End comprehension.

(** [l.pop()]: removes and returns the last item; [IndexError] on an empty
    list. *)
Definition pop {A} (l : list A) : result (A * list A) :=
  match reverse l with
  | [] => Raise IndexError
  | x :: r => Ok (x, reverse r)
  end.

(** ** prompt_components/template.py *)

Module Template.

(** The class [Template] and the components it holds.  [_components]
    lists nested Templates and Variables in order of appearance;
    [_templates] and [_variables] list the same objects by kind. *)
Inductive component_of (T : Type) :=
| IsTemplate (c : T)
| IsVariable (v : Var.t).
Arguments IsTemplate {T} c.
Arguments IsVariable {T} v.

#[warnings="-register-all"]
Inductive t := mk {
  start_index : option nat;
  _end_index : option nat;
  _input_characters : list ascii;
  input_text : option string;
  _components : list (component_of t);
  _templates : list t;
  _variables : list Var.t;
  _alternative : option t }.

Definition component : Type := component_of t.

Definition end_index (self : t) : option nat := _end_index self.

Definition component_start_index (c : component) : option nat :=
  match c with
  | IsTemplate c => start_index c
  | IsVariable v => Var.start_index v
  end.

Definition component_end_index (c : component) : option nat :=
  match c with
  | IsTemplate c => end_index c
  | IsVariable v => Var.end_index v
  end.

(** [text[:index]] and [text[index:]] as the source writes them: [text] may
    be [None] (subscripting it is a [TypeError]) and so may the index (the
    slice is then the whole text). *)
Definition py_slice_to (text : option string) (index : option nat)
    : result string :=
  match text with
  | None => Raise TypeError
  | Some s => Ok match index with Some n => slice_to n s | None => s end
  end.

Definition py_slice_from (text : option string) (index : option nat)
    : result string :=
  match text with
  | None => Raise TypeError
  | Some s => Ok match index with Some n => slice_from n s | None => s end
  end.

(** ["".join((a, b, c))]; a [None] item is a [TypeError]. *)
Definition py_join3 (a : string) (b : option string) (c : string)
    : result string :=
  match b with
  | None => Raise TypeError
  | Some b => Ok (a +:+ b +:+ c)
  end.

Section substitution.
Context (params : gmap string string).

(** The state of the loop of [_substitute_all_components]: the text
    rebuilt so far and the substitutions not popped yet. *)
Definition loop_state : Type := option string * list string.

(** One iteration of the loop, given the method [substitute] for
    nested Templates. *)
Definition splice (substitute : t → result (option string))
    (component : component) (st : loop_state) : result loop_state :=
  let '(text, variable_substitutions) := st in
  '(component_text, variable_substitutions) ←
    match component with
    | IsTemplate c =>
        component_text ← substitute c;
        Ok (component_text, variable_substitutions)
    | IsVariable _ =>
        '(component_text, rest) ← pop variable_substitutions;
        Ok (Some component_text, rest)
    end;
  before ← py_slice_to text (component_start_index component);
  after ← py_slice_from text (component_end_index component);
  text ← py_join3 before component_text after;
  Ok (Some text, variable_substitutions).

Definition substitute_all_components_with
    (substitute : t → result (option string)) (self : t)
    (variable_substitutions : list string) : result (option string) :=
  st ← for_reversed (splice substitute) (_components self)
         (input_text self, variable_substitutions);
  Ok st.1.

(** The list comprehension over [self._variables]. *)
Definition variable_substitutions (self : t) : result (list string) :=
  list_comprehension (λ variable, Var.substitute variable params)
    (_variables self).

(** [Template.substitute].  The [try] covers the comprehension only;
    [except VariableError] lets every other exception through. *)
Fixpoint substitute (self : t) : result (option string) :=
  match variable_substitutions self with
  | Raise VariableError =>
      match _alternative self with
      | Some alternative => substitute alternative
      | None => Ok (Some "")
      end
  | Raise e => Raise e
  | Ok substitutions =>
      substitute_all_components_with substitute self substitutions
  end.

(** [Template._substitute_all_components]. *)
Definition _substitute_all_components (self : t)
    (variable_substitutions : list string) : result (option string) :=
  substitute_all_components_with substitute self variable_substitutions.
End substitution.

(** [Template.variable_keys]. *)
Fixpoint variable_keys (self : t) : list RequiredAndOptionalVariables :=
  let required : gset (option string) :=
    list_to_set (map Var.key (_variables self)) in
  let optional : gset (option string) :=
    foldl (λ optional child_template,
             foldl (λ optional child_variable_keys,
                      optional ∪ types.required child_variable_keys
                               ∪ types.optional child_variable_keys)
                   optional (variable_keys child_template))
          ∅ (_templates self) in
  let result := [mkRequiredAndOptional required optional] in
  match _alternative self with
  | Some alternative => result ++ variable_keys alternative
  | None => result
  end.


(** *** Parsing *)

(** [Template(start_index=..., input_text=...)] before
    [__attrs_post_init__] runs. *)
Definition fresh (start_index : option nat) (input_text : option string)
    : t :=
  mk start_index None [] input_text [] [] [] None.

(** [type(current_component).__name__] *)
Definition type_name (c : component) : string :=
  match c with
  | IsTemplate _ => "Template"
  | IsVariable _ => "Variable"
  end.

(** The five characters of [sc.TEMPLATE + sc.VARIABLE], as the [match]
    statement of the scanner tells them apart. *)
Inductive special :=
| TEMPLATE_OPENING | TEMPLATE_CLOSING | TEMPLATE_SEPARATOR
| VARIABLE_OPENING | VARIABLE_CLOSING
| NotSpecial.

Definition classify (char : ascii) : special :=
  if Ascii.eqb char sc.TEMPLATE.OPENING then TEMPLATE_OPENING
  else if Ascii.eqb char sc.TEMPLATE.CLOSING then TEMPLATE_CLOSING
  else if Ascii.eqb char sc.TEMPLATE.SEPARATOR then TEMPLATE_SEPARATOR
  else if Ascii.eqb char sc.VARIABLE.OPENING then VARIABLE_OPENING
  else if Ascii.eqb char sc.VARIABLE.CLOSING then VARIABLE_CLOSING
  else NotSpecial.

Definition characters_to_check : list ascii :=
  sc.TEMPLATE_chars ++ sc.VARIABLE_chars.

(** The local state of [_parse_and_validate]: the object being filled, the
    component under construction and the stack of nesting markers (a list of
    [...], of which only the length matters). *)
Record scanner := mkScanner {
  self : t;
  current_component : option component;
  nested_template_stack : nat }.

(** How an iteration of the scanning loop ends. *)
Inductive control :=
| Continue (st : scanner)
| Break (st : scanner).

(** [PromptComponent.append] on a Template under construction. *)
Definition append (self : t) (char : ascii) : result t :=
  l ← PromptComponent.append (start_index self) (_end_index self)
        (_input_characters self) char;
  Ok (mk (start_index self) (_end_index self) l (input_text self)
         (_components self) (_templates self) (_variables self)
         (_alternative self)).

Definition with_input_text (self : t) (text : option string) : t :=
  mk (start_index self) (_end_index self) (_input_characters self) text
     (_components self) (_templates self) (_variables self)
     (_alternative self).

Section parsing.
(** The method [_parse_and_validate] itself, for the recursive calls. *)
Context (_parse_and_validate : t → result t).

(** [Template(start_index=..., input_text=...)]: [__attrs_post_init__]
    parses when a text is given. *)
Definition init (start_index : option nat) (input_text : option string)
    : result t :=
  let self := fresh start_index input_text in
  match input_text with
  | Some _ => _parse_and_validate self
  | None => Ok self
  end.

(** [Template._before_close] *)
Definition _before_close (self : t) : result t :=
  _parse_and_validate
    (with_input_text self (Some (join (_input_characters self)))).

(** [PromptComponent.close] on a Template. *)
Definition close (self : t) (end_index : nat) : result t :=
  self ← _before_close self;
  Ok (mk (start_index self) (Some end_index) [] (input_text self)
         (_components self) (_templates self) (_variables self)
         (_alternative self)).

(** [close_and_save_component(i, self._templates)] *)
Definition close_and_save_template (st : scanner) (c : t) (i : nat)
    : result scanner :=
  c ← close c (i + 1);
  let self := self st in
  Ok (mkScanner
        (mk (start_index self) (_end_index self) (_input_characters self)
            (input_text self) (_components self ++ [IsTemplate c])
            (_templates self ++ [c]) (_variables self)
            (_alternative self))
        None (nested_template_stack st)).

(** [close_and_save_component(i, self._variables)] *)
Definition close_and_save_variable (st : scanner) (v : Var.t) (i : nat)
    : result scanner :=
  v ← Var.close v (i + 1);
  let self := self st in
  Ok (mkScanner
        (mk (start_index self) (_end_index self) (_input_characters self)
            (input_text self) (_components self ++ [IsVariable v])
            (_templates self) (_variables self ++ [v])
            (_alternative self))
        None (nested_template_stack st)).

Definition with_current (st : scanner) (c : option component) : scanner :=
  mkScanner (self st) c (nested_template_stack st).

(** The body of [for i, char in enumerate(text)]. *)
Definition step (text : string) (i : nat) (char : ascii) (st : scanner)
    : result control :=
  if negb (char_in_tuple char characters_to_check) then
    match current_component st with
    | Some (IsTemplate c) =>
        c ← append c char; Ok (Continue (with_current st (Some (IsTemplate c))))
    | Some (IsVariable v) =>
        v ← Var.append v char;
        Ok (Continue (with_current st (Some (IsVariable v))))
    | None => Ok (Continue st)
    end
  else
    match classify char, current_component st with
    | TEMPLATE_OPENING, None =>
        Ok (Continue (with_current st (Some (IsTemplate (fresh (Some i) None)))))
    | TEMPLATE_OPENING, Some (IsTemplate c) =>
        c ← append c char;
        Ok (Continue (mkScanner (self st) (Some (IsTemplate c))
                        (S (nested_template_stack st))))
    | TEMPLATE_CLOSING, Some (IsTemplate c) =>
        match nested_template_stack st with
        | S depth =>
            c ← append c char;
            Ok (Continue (mkScanner (self st) (Some (IsTemplate c)) depth))
        | 0 => st ← close_and_save_template st c i; Ok (Continue st)
        end
    | _, Some (IsTemplate c) =>
        c ← append c char; Ok (Continue (with_current st (Some (IsTemplate c))))
    | VARIABLE_OPENING, None =>
        Ok (Continue (with_current st (Some (IsVariable (Var.new (Some i))))))
    | VARIABLE_CLOSING, Some (IsVariable v) =>
        st ← close_and_save_variable st v i; Ok (Continue st)
    | TEMPLATE_SEPARATOR, None =>
        let alt_text := slice_from (i + 1) text in
        alternative ← init None (Some alt_text);
        let self := self st in
        Ok (Break
              (mkScanner
                 (mk (start_index self) (_end_index self)
                     (_input_characters self) (Some (slice_to i text))
                     (_components self) (_templates self)
                     (_variables self) (Some alternative))
                 (current_component st) (nested_template_stack st)))
    | _, _ =>
        Raise (PromptSyntaxError
                 ("Wrong special character '" +:+ String char ""
                    +:+ "' position")
                 (Some (details text (i + 1))))
    end.

(** The loop over [enumerate(text)], from index [i] on. *)
Fixpoint scan (text : string) (i : nat) (rest : list ascii) (st : scanner)
    : result scanner :=
  match rest with
  | [] => Ok st
  | char :: rest =>
      match step text i char st with
      | Raise e => Raise e
      | Ok (Break st) => Ok st
      | Ok (Continue st) => scan text (S i) rest st
      end
  end.

(** The checks after the loop. *)
Definition finish (text : string) (st : scanner) : result t :=
  match input_text (self st) with
  | Some "" => Raise (PromptSyntaxError "A template can not be empty" None)
  | _ =>
      match current_component st with
      | Some c =>
          match component_start_index c with
          | Some start =>
              Raise (PromptSyntaxError (type_name c +:+ " not closed")
                       (Some (details text (start + 1))))
          | None => Raise TypeError
          end
      | None => Ok (self st)
      end
  end.

(** The body of [_parse_and_validate]; iterating over a text that is
    [None] is a [TypeError]. *)
Definition parse_and_validate_body (self : t) : result t :=
  match input_text self with
  | None => Raise TypeError
  | Some text =>
      st ← scan text 0 (chars text) (mkScanner self None 0);
      finish text st
  end.
End parsing.

(** [Template._parse_and_validate].  The method calls itself on the text
    captured for a nested Template and on the text after a separator; the
    model bounds the depth of these calls by [fuel]. *)
Fixpoint _parse_and_validate (fuel : nat) (self : t) : result t :=
  match fuel with
  | 0 => Raise FuelExhausted
  | S fuel => parse_and_validate_body (_parse_and_validate fuel) self
  end.

(** [Template(input_text=text)], the call of [_init_template].  Every
    recursive call is on a strictly shorter text, so the length of the text
    bounds the depth (see [parse_fuel_irrelevant]). *)
Definition parse (text : string) : result t :=
  init (_parse_and_validate (S (String.length text))) None (Some text).
End Template.

(** ** prompt_api.py *)

Module Prompt.

(** *** The caller's parameter dict

    The facade receives a reference to a dict object and writes into it, so
    dict objects live in a heap and are passed around by address.  A dict is
    its list of items in insertion order; the keys of a dict are pairwise
    distinct. *)

Section params.
(** Python floats and their [str()] are not modelled; they are
    parameters of the facade. *)
Context {float : Type} (float_str : float → string).

(** The keys and values a caller may put in the dict.  A key that is
    neither a [str] nor an [int] is represented by the text that formatting
    it in an f-string gives, which is all the code uses of it. *)
Inductive pykey :=
| KStr (s : string)
| KInt (z : Z)
| KOther (shown : string).

Inductive value :=
| VStr (s : string)
| VInt (z : Z)
| VBool (b : bool)
| VFloat (f : float)
| VOther.

Definition dict : Type := list (pykey * value).
Definition address : Type := nat.
Definition heap : Type := gmap address dict.

#[local] Instance pykey_eq_dec : EqDecision pykey.
Proof. solve_decision. Defined.

(** [sys.get_int_max_str_digits()], at the interpreter's default. *)
Definition int_max_str_digits : nat := 4300.

(** The decimal numeral of an integer, with [-] for a negative one. *)
Definition decimal (z : Z) : string :=
  DecimalString.NilZero.string_of_int (Z.to_int z).

(** [str(z)] of an [int]: a [ValueError] when the number has more than
    [int_max_str_digits] digits, the sign not counted. *)
Definition int_str (z : Z) : result string :=
  if Nat.ltb int_max_str_digits (String.length (decimal (Z.abs z)))
  then Raise ValueError
  else Ok (decimal z).

(** [str(b)] of a [bool] *)
Definition bool_str (b : bool) : string :=
  if b then "True" else "False".

(** [f"{key}"]: an [int] is formatted by its [str()]. *)
Definition key_str (key : pykey) : result string :=
  match key with
  | KStr s => Ok s
  | KInt z => int_str z
  | KOther shown => Ok shown
  end.

(** [d[key] = v]: replaces the value of an existing key in place and
    appends a new key at the end. *)
Fixpoint dict_setitem (d : dict) (key : pykey) (v : value) : dict :=
  match d with
  | [] => [(key, v)]
  | (k, old) :: d' =>
      if decide (k = key) then (k, v) :: d'
      else (k, old) :: dict_setitem d' key v
  end.

(** [params[key] = v] on the object at address [params]. *)
Definition setitem (h : heap) (params : address) (key : pykey) (v : value)
    : heap :=
  match h !! params with
  | Some d => <[params := dict_setitem d key v]> h
  | None => h
  end.

(** [params[key] = str(value)] on the object at address [params], given
    what [str(value)] answers: when [str] raises, nothing is assigned. *)
Definition assign_str (h : heap) (params : address) (key : pykey)
    (text : result string) : heap * result unit :=
  match text with
  | Ok text => (setitem h params key (VStr text), Ok ())
  | Raise e => (h, Raise e)
  end.

(** The body of the loop of [_validate_params] for one item.  The key is
    checked before the value. *)
Definition validate_item (params : address) (item : pykey * value)
    (h : heap) : heap * result unit :=
  let '(key, value) := item in
  match key with
  | KInt _ | KOther _ =>
      (h, shown ← key_str key;
          Raise (ParametersTypeError ("Key " +:+ shown +:+ " is not a string")))
  | KStr k =>
      match value with
      | VStr _ => (h, Ok ())
      (* [case int() | float()]; [bool] is a subclass of [int] *)
      | VInt z => assign_str h params key (int_str z)
      | VBool b => assign_str h params key (Ok (bool_str b))
      | VFloat f => assign_str h params key (Ok (float_str f))
      | VOther =>
          (h, Raise (ParametersTypeError
                       ("Key " +:+ k +:+ " has a non-string value")))
      end
  end.

(** [for key, value in params.items()]: the view is live, so the item at
    position [i] is read from the heap when the loop reaches it.  The
    body never changes the number of items. *)
Fixpoint validate_loop (params : address) (i remaining : nat) (h : heap)
    : heap * result unit :=
  match remaining with
  | 0 => (h, Ok ())
  | S remaining =>
      match h !! params ≫= (λ d : dict, d !! i) with
      | None => (h, Ok ())
      | Some item =>
          match validate_item params item h with
          | (h, Ok _) => validate_loop params (S i) remaining h
          | (h, Raise e) => (h, Raise e)
          end
      end
  end.

(** [_validate_params(params)]: answers the reference it was given.
    An address that holds no dict has no [items]. *)
Definition _validate_params (params : address) (h : heap)
    : heap * result address :=
  match h !! params with
  | None => (h, Raise AttributeError)
  | Some d =>
      match validate_loop params 0 (length d) h with
      | (h, Ok _) => (h, Ok params)
      | (h, Raise e) => (h, Raise e)
      end
  end.

(** What the core reads through [params.get] from a dict whose keys and
    values are strings. *)
Definition as_str_items (d : dict) : list (string * string) :=
  omap (λ item : pykey * value,
          match item with
          | (KStr k, VStr s) => Some (k, s)
          | _ => None
          end) d.

Definition validated_view (h : heap) (params : address)
    : gmap string string :=
  list_to_map (as_str_items (default [] (h !! params))).

(** *** Whitespace reduction *)

(** The characters [str.split()] splits at, among the code points below
    256. *)
Definition is_space (c : ascii) : bool :=
  let n := nat_of_ascii c in
  (Nat.leb 9 n && Nat.leb n 13) || (Nat.leb 28 n && Nat.leb n 32)
  || Nat.eqb n 133 || Nat.eqb n 160.

(** [result.split()]: the maximal runs of non-whitespace characters.
    [word] holds the characters of the run being read. *)
Fixpoint split_from (word : list ascii) (rest : list ascii)
    : list string :=
  match rest with
  | [] => match word with [] => [] | _ => [join word] end
  | c :: rest =>
      if is_space c then
        match word with
        | [] => split_from [] rest
        | _ => join word :: split_from [] rest
        end
      else split_from (word ++ [c]) rest
  end.

Definition split (s : string) : list string := split_from [] (chars s).

(** *** The class [Prompt] *)

(** [variables] is a [cached_property]: the slot is empty until the first
    access. *)
Record t := mk {
  template_text : string;
  _template : Template.t;
  variables_cache : option (list RequiredAndOptionalVariables) }.

(** [Prompt(template_text)] for a [str]: [_init_template] builds the
    Template. *)
Definition new (template_text : string) : result t :=
  template ← Template.parse template_text;
  Ok (mk template_text template None).

(** [Prompt.substitute].  The heap is threaded through: it is changed
    by [_validate_params] also when that raises. *)
Definition substitute (self : t) (params : address)
    (postprocess_whitespace_reduction : bool) (h : heap)
    : heap * result (option string) :=
  match _validate_params params h with
  | (h, Raise e) => (h, Raise e)
  | (h, Ok params) =>
      (h,
       result ← Template.substitute (validated_view h params)
                  (_template self);
       if postprocess_whitespace_reduction then
         match result with
         | None => Raise AttributeError
         | Some result => Ok (Some (String.concat " " (split result)))
         end
       else Ok result)
  end.

(** [Prompt.variables]: computes [self._template.variable_keys] on the
    first access and answers the stored list afterwards. *)
Definition variables (self : t)
    : list RequiredAndOptionalVariables * t :=
  match variables_cache self with
  | Some cached => (cached, self)
  | None =>
      let computed := Template.variable_keys (_template self) in
      (computed, mk (template_text self) (_template self) (Some computed))
  end.
End params.

End Prompt.

(** ** The objects of the requirement traversal

    [Template.variable_keys] and [Prompt.variables] build sets and lists and
    update them in place, and [variables] keeps its result in the Prompt.
    What they leave alone is a question about objects and references.  So for
    these two methods the Prompt, the Templates, the Variables, their lists
    and the sets, lists and tuples that the traversal creates are objects in a
    store, and an attribute whose value is such an object holds a
    reference to it.  [Template.variable_keys] above is the same method on
    values: it tells what is computed, the methods of this module on which
    objects. *)

Module Store.

(** A reference to an object is a natural number. *)

(** The attributes of a Template object.  [_components], [_templates] and
    [_variables] refer to list objects, and [_components] lists the objects
    that the other two list by kind.  The characters of [_input_characters]
    are kept by value: the traversal does not touch that list. *)
Record template_object := mkTemplate {
  start_index : option nat;
  _end_index : option nat;
  _input_characters : list ascii;
  input_text : option string;
  _components : nat;
  _templates : nat;
  _variables : nat;
  _alternative : option nat }.

(** The attributes of a Prompt object, and the entry of its [__dict__]
    where [cached_property] keeps the list that [variables] has computed. *)
Record prompt_object := mkPrompt {
  template_text : string;
  _template : nat;
  variables_cache : option nat }.

Inductive object :=
| TemplateObject (attributes : template_object)
| VariableObject (v : Var.t)
| PromptObject (attributes : prompt_object)
| ListObject (items : list nat)
| SetObject (keys : gset (option string))
(** a [RequiredAndOptionalVariables] tuple: references to its two sets *)
| EntryObject (required optional : nat).

(** A computation on the store that returns a value or raises. *)
Definition action (A : Type) : Type :=
  gmap nat object → gmap nat object * result A.

Definition ret {A} (a : A) : action A := λ h, (h, Ok a).

Definition raise {A} (e : exn) : action A := λ h, (h, Raise e).

Definition bind {A B} (m : action A) (f : A → action B) : action B :=
  λ h, match m h with
       | (h, Ok a) => f a h
       | (h, Raise e) => (h, Raise e)
       end.

#[local] Notation "'let!' x := m 'in' k" := (bind m (λ x, k))
  (at level 10, x name, m at level 100, k at level 200,
   format "'[' 'let!'  x  :=  m  'in'  '/' k ']'").

(** A new object: it gets a reference that no object of the store has. *)
Definition alloc (o : object) : action nat :=
  λ h, let l := fresh (dom h) in (<[l := o]> h, Ok l).

(** Reading an object through a reference; an object of another kind has
    not the attribute or the method that the code uses. *)
Definition get_template (l : nat) : action template_object :=
  λ h, match h !! l with
       | Some (TemplateObject attributes) => (h, Ok attributes)
       | _ => (h, Raise AttributeError)
       end.

Definition get_variable (l : nat) : action Var.t :=
  λ h, match h !! l with
       | Some (VariableObject v) => (h, Ok v)
       | _ => (h, Raise AttributeError)
       end.

Definition get_prompt (l : nat) : action prompt_object :=
  λ h, match h !! l with
       | Some (PromptObject attributes) => (h, Ok attributes)
       | _ => (h, Raise AttributeError)
       end.

Definition get_list (l : nat) : action (list nat) :=
  λ h, match h !! l with
       | Some (ListObject items) => (h, Ok items)
       | _ => (h, Raise TypeError)
       end.

Definition get_set (l : nat) : action (gset (option string)) :=
  λ h, match h !! l with
       | Some (SetObject keys) => (h, Ok keys)
       | _ => (h, Raise AttributeError)
       end.

Definition get_entry (l : nat) : action (nat * nat) :=
  λ h, match h !! l with
       | Some (EntryObject required optional) => (h, Ok (required, optional))
       | _ => (h, Raise AttributeError)
       end.

(** [target.add(key)] on a set object *)
Definition set_add (target : nat) (key : option string) : action unit :=
  let! keys := get_set target in
  λ h, (<[target := SetObject (keys ∪ {[key]})]> h, Ok ()).

(** [target.update(source)] on set objects *)
Definition set_update (target source : nat) : action unit :=
  let! more := get_set source in
  let! keys := get_set target in
  λ h, (<[target := SetObject (keys ∪ more)]> h, Ok ()).

(** [target += source] on list objects: the items of [source] are appended
    to the object [target]. *)
Definition list_extend (target source : nat) : action unit :=
  let! more := get_list source in
  let! items := get_list target in
  λ h, (<[target := ListObject (items ++ more)]> h, Ok ()).

(** [for item in iterable: body(item)] on a list object, from position [i]
    on.  The iteration is live: each round reads the list as it is then.  The
    model bounds the number of rounds by [fuel]. *)
Fixpoint for_in (fuel : nat) (iterable : nat) (i : nat)
    (body : nat → action unit) : action unit :=
  match fuel with
  | 0 => raise FuelExhausted
  | S fuel =>
      let! items := get_list iterable in
      match items !! i with
      | None => ret ()
      | Some item =>
          let! _ := body item in
          for_in fuel iterable (S i) body
      end
  end.

(** [Template.variable_keys] on the object [self]; the answer is a
    reference to the list [result].  [fuel] bounds the depth of the
    recursion and the rounds of each loop. *)
Fixpoint variable_keys (fuel : nat) (self : nat) : action nat :=
  match fuel with
  | 0 => raise FuelExhausted
  | S fuel =>
      (* required = {variable.key for variable in self._variables} *)
      let! this := get_template self in
      let! required := alloc (SetObject ∅) in
      let! _ := for_in fuel (_variables this) 0 (λ variable,
                  let! v := get_variable variable in
                  set_add required (Var.key v)) in
      (* optional = set() *)
      let! optional := alloc (SetObject ∅) in
      let! this := get_template self in
      let! _ := for_in fuel (_templates this) 0 (λ child_template,
                  let! keys := variable_keys fuel child_template in
                  for_in fuel keys 0 (λ child_variable_keys,
                    let! attributes := get_entry child_variable_keys in
                    let! _ := set_update optional attributes.1 in
                    let! attributes := get_entry child_variable_keys in
                    set_update optional attributes.2)) in
      (* result = [RequiredAndOptionalVariables(required, optional)] *)
      let! entry := alloc (EntryObject required optional) in
      let! result := alloc (ListObject [entry]) in
      let! this := get_template self in
      let! _ := match _alternative this with
                | Some alternative =>
                    let! keys := variable_keys fuel alternative in
                    list_extend result keys
                | None => ret ()
                end in
      ret result
  end.

(** [cached_property]: the computed value is stored in the object. *)
Definition set_variables_cache (self : nat) (value : nat) : action unit :=
  let! this := get_prompt self in
  λ h, (<[self := PromptObject (mkPrompt (template_text this) (_template this)
                                  (Some value))]> h, Ok ()).

(** [Prompt.variables] on the object [self]: the first access computes
    [self._template.variable_keys] and stores the reference to the list;
    later ones answer the stored reference. *)
Definition variables (fuel : nat) (self : nat) : action nat :=
  let! this := get_prompt self in
  match variables_cache this with
  | Some cached => ret cached
  | None =>
      let! computed := variable_keys fuel (_template this) in
      let! _ := set_variables_cache self computed in
      ret computed
  end.

End Store.


(** * Specification-level notions *)

(** The characters a Variable under construction has accepted so far, read
    back from its state: the mute marker if set, the key characters, and
    behind the marker [=] the characters of the required value. *)
Definition accepted_characters (v : Var.t) : list ascii :=
  (if Var._muted v then [sc.VARIABLE_OPTIONS.MUTE] else []) ++
  Var._key_characters v ++
  (if Var.targets_required_value v
   then sc.VARIABLE_OPTIONS.EQ :: Var._required_value_characters v
   else []).

(** A Variable between its creation by the scanner at offset [start] and
    its closing brace, after the characters [cs] have been appended. *)
Record under_construction (start : nat) (cs : list ascii) (v : Var.t)
    : Prop := {
  uc_start : Var.start_index v = Some start;
  uc_end : Var._end_index v = None;
  uc_key : Var._key v = None;
  uc_required : Var._required_value v = None;
  uc_attached : ∀ l, Var._input_characters v ≠ Var.Detached l;
  uc_no_value_yet :
    Var.targets_required_value v = false → Var._required_value_characters v = [];
  uc_accepted : accepted_characters v = cs }.

(** The condition under which a variable is unsatisfied by a mapping: the
    key is absent, or resolves to the empty string, or a required value is set
    and differs from the resolved value. *)
Definition unsatisfied (v : Var.t) (params : gmap string string) : Prop :=
  ∃ k, Var.key v = Some k ∧
    (params !! k = None ∨ params !! k = Some "" ∨
     ∃ r, Var._required_value v = Some r ∧ params !! k ≠ Some r).

(** ** Example objects *)

(** The variable of ["ok {weather=hot}"], closed by the scanner. *)
Definition weather_hot : Var.t :=
  Var.mk (Some 3) (Some 16) (Var.Detached []) false
         (Some "weather") (Some "hot") [] [].

(** A Variable that has been fed [a=]: its required value is being
    captured. *)
Definition capturing_value : Var.t :=
  Var.mk (Some 0) None Var.RequiredValueCharacters false None None
         ["a"%char] [].

(** ** Requirement traversal *)

(** The alternative chain of a block: the block, its alternative, the
    alternative of that one, and so on. *)
Fixpoint alternative_chain (T : Template.t) : list Template.t :=
  T :: match Template._alternative T with
       | Some alternative => alternative_chain alternative
       | None => []
       end.

(** The entry of a block in the result of the traversal started at it: the
    first one. *)
Definition own_entry (T : Template.t) : RequiredAndOptionalVariables :=
  match Template.variable_keys T with
  | e :: _ => e
  | [] => mkRequiredAndOptional ∅ ∅
  end.

(** A key occurs in a block when it is the key of one of the block's direct
    variables, or occurs in one of its nested blocks or in its alternative. *)
Inductive occurs_in (k : option string) : Template.t → Prop :=
| occurs_direct T v :
    v ∈ Template._variables T → Var.key v = k → occurs_in k T
| occurs_nested T c :
    c ∈ Template._templates T → occurs_in k c → occurs_in k T
| occurs_alternative T a :
    Template._alternative T = Some a → occurs_in k a → occurs_in k T.

(** The parsed form of the template of [test_repetitions]. *)
Definition repetitions : Template.t := Eval vm_compute in
  match Template.parse
          "{var_1} [{var_1} [{var_1}]] {var_1} | and again {var_1}" with
  | Ok T => T
  | Raise _ => Template.fresh None None
  end.

(** The parsed form of ["{a}|b"]: one direct variable and an alternative. *)
Definition with_fallback : Template.t := Eval vm_compute in
  match Template.parse "{a}|b" with
  | Ok T => T
  | Raise _ => Template.fresh None None
  end.

(** ** The facade's parameter dict *)

Section validated_items.
Context {float : Type} (float_str : float → string).

(** An item that [_validate_params] lets through: a string key with a
    string, integer, boolean or float value. *)
Definition acceptable (item : Prompt.pykey * Prompt.value (float := float))
    : Prop :=
  (∃ k, item.1 = Prompt.KStr k) ∧ item.2 ≠ Prompt.VOther.

(** The string representation of a value of the dict: a string is its
    own, an other object has none. *)
Definition string_representation (v : Prompt.value (float := float))
    : string :=
  match v with
  | Prompt.VStr s => s
  | Prompt.VInt z => Prompt.decimal z
  | Prompt.VBool b => Prompt.bool_str b
  | Prompt.VFloat f => float_str f
  | Prompt.VOther => ""
  end.

(** [text] is the decimal numeral of [z]: it reads as an optional sign and
    digits without superfluous leading zeros, and its value is [z]. *)
Definition decimal_numeral (text : string) (z : Z) : Prop :=
  ∃ d, DecimalString.NilZero.int_of_string text = Some d ∧
       Decimal.norm d = d ∧ Z.of_int d = z.

(** [text] is what Python's [str()] gives for the value. *)
Definition shown_as (v : Prompt.value (float := float)) (text : string)
    : Prop :=
  match v with
  | Prompt.VStr s => text = s
  | Prompt.VInt z => decimal_numeral text z
  | Prompt.VBool true => text = "True"
  | Prompt.VBool false => text = "False"
  | Prompt.VFloat f => text = float_str f
  | Prompt.VOther => False
  end.

(** An integer value has at most [int_max_str_digits] digits. *)
Definition within_digit_limit (v : Prompt.value (float := float)) : Prop :=
  match v with
  | Prompt.VInt z =>
      String.length (Prompt.decimal (Z.abs z)) ≤ Prompt.int_max_str_digits
  | _ => True
  end.

(** An item that [_validate_params] converts: it is let through, and
    [str()] of its value does not raise. *)
Definition convertible (item : Prompt.pykey * Prompt.value (float := float))
    : Prop :=
  acceptable item ∧ within_digit_limit item.2.

(** The item with its value replaced by the value's string representation. *)
Definition validated (item : Prompt.pykey * Prompt.value (float := float))
    : Prompt.pykey * Prompt.value (float := float) :=
  (item.1, Prompt.VStr (string_representation item.2)).
End validated_items.

(** A caller's dict with an integer and a string value, at address 0 of a
    heap that holds nothing else.  The example uses no floats. *)
Definition callers_dict : Prompt.dict (float := Empty_set) :=
  [(Prompt.KStr "n", Prompt.VInt 3); (Prompt.KStr "s", Prompt.VStr "x")].

Definition callers_heap : Prompt.heap (float := Empty_set) :=
  {[0 := callers_dict]}.

Definition no_float_str (f : Empty_set) : string := match f with end.

(** The smallest integer with more than [int_max_str_digits] digits, and a
    dict that holds it. *)
Definition beyond_digit_limit : Z := 10 ^ 4300.

Definition dict_beyond_digit_limit : Prompt.dict (float := Empty_set) :=
  [(Prompt.KStr "n", Prompt.VInt beyond_digit_limit)].

(** ** Syntax errors *)

(** A raised syntax error that carries details whose offset is a 1-based
    position in the text they carry. *)
Definition carries_valid_offset {A} (r : result A) : Prop :=
  ∃ message d, r = Raise (PromptSyntaxError message (Some d)) ∧
               (1 ≤ offset d)%nat ∧ (offset d ≤ String.length (text d))%nat.

(** ** Parsed Templates *)

(** A Template as its constructor leaves it: nothing parsed yet. *)
Definition pristine (T : Template.t) : Prop :=
  Template._components T = [] ∧ Template._templates T = [] ∧
  Template._variables T = [] ∧ Template._alternative T = None.

Definition variables_of (cs : list Template.component) : list Var.t :=
  omap (λ c, match c with Template.IsVariable v => Some v | _ => None end) cs.

Definition templates_of (cs : list Template.component) : list Template.t :=
  omap (λ c, match c with Template.IsTemplate c => Some c | _ => None end) cs.

(** The spans of the components lie in order between [lo] and [hi]: each
    component has a start and an end offset, starts at or after the end of
    the one before it, and is not empty. *)
Fixpoint spans_ok (lo : nat) (cs : list Template.component) (hi : nat)
    : Prop :=
  match cs with
  | [] => (lo ≤ hi)%nat
  | c :: cs =>
      ∃ s e, Template.component_start_index c = Some s ∧
             Template.component_end_index c = Some e ∧
             (lo ≤ s)%nat ∧ (s < e)%nat ∧ spans_ok e cs hi
  end.

(** What parsing establishes for a block by itself: a non-empty text in which
    the spans of the components lie in order, [_variables] and [_templates]
    listing the components by kind, and closed direct variables. *)
Definition block_ok (T : Template.t) : Prop :=
  (∃ text, Template.input_text T = Some text ∧ text ≠ "" ∧
           spans_ok 0 (Template._components T) (String.length text)) ∧
  variables_of (Template._components T) = Template._variables T ∧
  templates_of (Template._components T) = Template._templates T ∧
  Forall Var.closed (Template._variables T).

(** ... and for the block with everything below it. *)
Fixpoint well_formed (T : Template.t) : Prop :=
  block_ok T ∧
  foldr (λ c P, well_formed c ∧ P) True (Template._templates T) ∧
  match Template._alternative T with
  | Some alternative => well_formed alternative
  | None => True
  end.

(** The blocks of a Template: the Template itself, and the blocks of its
    nested Templates and of its alternative. *)
Inductive block_of (root : Template.t) : Template.t → Prop :=
| block_root : block_of root root
| block_nested T c :
    block_of root T → c ∈ Template._templates T → block_of root c
| block_alternative T a :
    block_of root T → Template._alternative T = Some a → block_of root a.

(** ** Text reconstruction, left to right *)

(** [text[lo:hi]] *)
Definition segment (text : string) (lo hi : nat) : string :=
  slice_to (hi - lo) (slice_from lo text).

(** The substituted text of each component, in order: for a Variable the next
    of the variable substitutions, for a nested Template its own
    substitution.  The variable substitutions are used up exactly. *)
Fixpoint component_texts (substitute : Template.t → result (option string))
    (cs : list Template.component) (variable_substitutions : list string)
    : option (list string) :=
  match cs with
  | [] => match variable_substitutions with [] => Some [] | _ => None end
  | Template.IsVariable _ :: cs =>
      match variable_substitutions with
      | s :: rest => cons s <$> component_texts substitute cs rest
      | [] => None
      end
  | Template.IsTemplate c :: cs =>
      match substitute c with
      | Ok (Some s) =>
          cons s <$> component_texts substitute cs variable_substitutions
      | _ => None
      end
  end.

(** The text from offset [pos] on with every component's span replaced by
    the component's text: the literal text up to the first component, its
    text, and so on, up to the literal text behind the last component. *)
Fixpoint interleave (text : string) (pos : nat)
    (cs : list Template.component) (texts : list string) : string :=
  match cs, texts with
  | c :: cs, t :: texts =>
      match Template.component_start_index c,
            Template.component_end_index c with
      | Some s, Some e =>
          segment text pos s +:+ t +:+ interleave text e cs texts
      | _, _ => slice_from pos text
      end
  | _, _ => slice_from pos text
  end.

(** The parsed form of ["A{x}B{y}C"]. *)
Definition two_variables : Template.t := Eval vm_compute in
  match Template.parse "A{x}B{y}C" with
  | Ok T => T
  | Raise _ => Template.fresh None None
  end.

(** ** Fuel *)

(** Two versions of the recursive parser that give the same answer, other
    than running out of fuel, on every text shorter than [n]. *)
Definition agree_below (n : nat) (rec1 rec2 : Template.t → result Template.t)
    : Prop :=
  ∀ self text,
    Template.input_text self = Some text → String.length text < n →
    rec1 self = rec2 self ∧ rec1 self ≠ Raise FuelExhausted.

(** When the scanner is about to read offset [i], the Template under
    construction has captured fewer than [i] characters. *)
Definition captured_short (i : nat) (st : Template.scanner) : Prop :=
  match Template.current_component st with
  | Some (Template.IsTemplate c) => length (Template._input_characters c) < i
  | _ => True
  end.

(** What an iteration of the loop gives with either version of the recursive
    parser. *)
Definition same_step (i : nat) (r1 r2 : result Template.control) : Prop :=
  r1 = r2 ∧ r1 ≠ Raise FuelExhausted ∧
  match r1 with
  | Ok (Template.Continue st') => captured_short (S i) st'
  | _ => True
  end.

(** ** The scanning loop *)

(** The part of the loop invariant that concerns the Template being filled,
    whose start offset is [si]; [b] is the end of its last component. *)
Record filled (si : option nat) (T : Template.t) (b : nat) : Prop := {
  filled_start : Template.start_index T = si;
  filled_variables :
    variables_of (Template._components T) = Template._variables T;
  filled_templates :
    templates_of (Template._components T) = Template._templates T;
  filled_closed : Forall Var.closed (Template._variables T);
  filled_well_formed : Forall well_formed (Template._templates T);
  filled_spans : spans_ok 0 (Template._components T) b }.

(** The component under construction when the scanner is about to read
    offset [i]. *)
Definition current_ok (b i : nat) (c : option Template.component) : Prop :=
  match c with
  | None => b ≤ i
  | Some (Template.IsVariable v) =>
      ∃ s cs, Var.append_all (Var.new (Some s)) cs = Ok v ∧ b ≤ s ∧ s < i
  | Some (Template.IsTemplate c) =>
      ∃ s, Template.start_index c = Some s ∧ Template._end_index c = None ∧
           pristine c ∧ b ≤ s ∧
           length (Template._input_characters c) + s < i
  end.

(** The invariant of the loop over the text [src], before offset [i]. *)
Definition scan_inv (src : string) (si : option nat) (i : nat)
    (st : Template.scanner) : Prop :=
  Template.input_text (Template.self st) = Some src ∧
  Template._alternative (Template.self st) = None ∧
  ∃ b, filled si (Template.self st) b ∧
       current_ok b i (Template.current_component st).

(** What holds when the loop is left. *)
Definition scan_done (si : option nat) (st : Template.scanner) : Prop :=
  ∃ text' b, Template.input_text (Template.self st) = Some text' ∧
             b ≤ String.length text' ∧
             filled si (Template.self st) b ∧
             ∀ a, Template._alternative (Template.self st) = Some a →
                  well_formed a.

(** What an iteration of the loop establishes. *)
Definition step_post (src : string) (si : option nat) (i : nat)
    (r : result Template.control) : Prop :=
  match r with
  | Ok (Template.Continue st') => scan_inv src si (S i) st'
  | Ok (Template.Break st') => scan_done si st'
  | Raise _ => True
  end.

(** ** Running the facade *)

(** [Prompt(template_text).substitute(params, reduce)] for a fresh dict with
    the given items, which holds no floats. *)
Definition run (template_text : string)
    (items : Prompt.dict (float := Empty_set)) (reduce : bool)
    : result (option string) :=
  prompt ← Prompt.new template_text;
  (Prompt.substitute no_float_str prompt 0 reduce {[0 := items]}).2.

(** The dicts [params_odd] and [params_even] of [test_substitution.py],
    cut down to the keys the templates use. *)
Definition params_odd : Prompt.dict (float := Empty_set) :=
  [(Prompt.KStr "var_1", Prompt.VStr "value_1");
   (Prompt.KStr "var_3", Prompt.VStr "value_3")].

Definition params_even : Prompt.dict (float := Empty_set) :=
  [(Prompt.KStr "var_2", Prompt.VStr "value_2");
   (Prompt.KStr "var_4", Prompt.VStr "value_4")].

Definition params_all : Prompt.dict (float := Empty_set) :=
  params_odd ++ params_even.

(** [Prompt(template_text).variables] *)
Definition variables_of_text (template_text : string)
    : result (list RequiredAndOptionalVariables) :=
  prompt ← Prompt.new template_text;
  Ok (Prompt.variables prompt).1.

(** ** The text of a variable *)

(** The characters are all in [VARIABLE_NAME_SAFE]. *)
Definition name_safe (cs : list ascii) : Prop :=
  Forall (λ c, char_in c sc.VARIABLE_NAME_SAFE = true) cs.

(** What stands between the braces of a variable: the mute marker if the
    variable is muted, the key, and behind [=] the required value if there is
    one. *)
Definition variable_body (muted : bool) (key : list ascii)
    (value : option (list ascii)) : list ascii :=
  (if muted then [sc.VARIABLE_OPTIONS.MUTE] else []) ++ key ++
  match value with
  | Some characters => sc.VARIABLE_OPTIONS.EQ :: characters
  | None => []
  end.

(** ** Literal text *)

(** None of the characters is one of the five special characters of the
    scanner. *)
Definition literal (cs : list ascii) : Prop :=
  Forall (λ c, char_in_tuple c Template.characters_to_check = false) cs.

(** ** The fallback chain *)

(** The first block of a chain whose direct variables all substitute, with
    their texts. *)
Fixpoint first_satisfied (params : gmap string string)
    (chain : list Template.t) : option (Template.t * list string) :=
  match chain with
  | [] => None
  | b :: rest =>
      match Template.variable_substitutions params b with
      | Ok subs => Some (b, subs)
      | Raise _ => first_satisfied params rest
      end
  end.

(** The parsed form of ["Blue if {var_1} | Red if {var_2}"]. *)
Definition blue_or_red : Template.t := Eval vm_compute in
  match Template.parse "Blue if {var_1} | Red if {var_2}" with
  | Ok T => T
  | Raise _ => Template.fresh None None
  end.

(** ** Rejected parameters and whitespace reduction *)

(** The error that [_validate_params] raises for an item that it does not
    convert: a [ParametersTypeError] for a key that is not a string and for a
    value that is neither a string nor a number, and the [ValueError] of
    [str()] for an integer beyond the digit limit, be it a key to be shown
    in the message or a value to be converted. *)
Definition rejection {float : Type}
    (item : Prompt.pykey * Prompt.value (float := float)) : exn :=
  match item.1 with
  | Prompt.KOther shown =>
      ParametersTypeError ("Key " +:+ shown +:+ " is not a string")
  | Prompt.KInt z =>
      match Prompt.int_str z with
      | Ok shown =>
          ParametersTypeError ("Key " +:+ shown +:+ " is not a string")
      | Raise e => e
      end
  | Prompt.KStr k =>
      match item.2 with
      | Prompt.VInt _ => ValueError
      | _ => ParametersTypeError ("Key " +:+ k +:+ " has a non-string value")
      end
  end.

(** [" ".join(result.split())] *)
Definition reduce_whitespace (s : string) : string :=
  String.concat " " (Prompt.split s).

(** A non-empty string without whitespace. *)
Definition word (w : string) : Prop :=
  w ≠ "" ∧ Forall (λ c, Prompt.is_space c = false) (chars w).

(** The words of a text, in order: the maximal runs of characters that are
    not whitespace.  The text is a gap of whitespace, possibly empty,
    followed by nothing more, or by a word and a rest that is empty or begins
    with whitespace and holds the other words. *)
Inductive words_of : list ascii → list string → Prop :=
| words_of_gap gap :
    Forall (λ c, Prompt.is_space c = true) gap →
    words_of gap []
| words_of_word gap w rest ws :
    Forall (λ c, Prompt.is_space c = true) gap →
    word w →
    match rest with
    | [] => True
    | c :: _ => Prompt.is_space c = true
    end →
    words_of rest ws →
    words_of (gap ++ chars w ++ rest) (w :: ws).

(** ** Exceptions of the parser *)

(** An outcome other than an exception that the parser is not meant to
    raise: a value, a syntax error, or the model's running out of fuel. *)
Definition tolerable {A} (r : result A) : Prop :=
  match r with
  | Ok _ => True
  | Raise (PromptSyntaxError _ _) => True
  | Raise FuelExhausted => True
  | Raise _ => False
  end.

(** The component under construction can take characters: a Template with a
    start offset and no end offset, or a Variable as the scanner made and
    fed it. *)
Definition open_ok (c : option Template.component) : Prop :=
  match c with
  | None => True
  | Some (Template.IsTemplate c) =>
      (∃ s, Template.start_index c = Some s) ∧ Template._end_index c = None
  | Some (Template.IsVariable v) =>
      ∃ s cs, Var.append_all (Var.new (Some s)) cs = Ok v
  end.

(** ** Templates in the store *)

(** The objects of [h] are in [h'] as they were, the Prompts apart. *)
Definition kept (h h' : gmap nat Store.object) : Prop :=
  ∀ l o, h !! l = Some o → (∀ attributes, o ≠ Store.PromptObject attributes) →
         h' !! l = Some o.

(** The components at the references [rs] are the components [cs], given
    what it means for a Template. *)
Definition stored_component (h : gmap nat Store.object)
    (stored : nat → Template.t → Prop) (r : nat) (c : Template.component)
    : Prop :=
  match c with
  | Template.IsTemplate c => stored r c
  | Template.IsVariable v => h !! r = Some (Store.VariableObject v)
  end.

(** The object at [l] is the Template [T]: its attributes are those of [T],
    its three lists hold references to the objects of its components, nested
    Templates and Variables, and its alternative, if any, is the object of
    the alternative of [T]. *)
Fixpoint stored (h : gmap nat Store.object) (l : nat) (T : Template.t)
    {struct T} : Prop :=
  ∃ this components templates variables,
    h !! l = Some (Store.TemplateObject this) ∧
    Store.start_index this = Template.start_index T ∧
    Store._end_index this = Template._end_index T ∧
    Store._input_characters this = Template._input_characters T ∧
    Store.input_text this = Template.input_text T ∧
    h !! Store._components this = Some (Store.ListObject components) ∧
    h !! Store._templates this = Some (Store.ListObject templates) ∧
    h !! Store._variables this = Some (Store.ListObject variables) ∧
    foldr (λ c (P : list nat → Prop) rs,
             match rs with
             | r :: rs =>
                 match c with
                 | Template.IsTemplate c => stored h r c
                 | Template.IsVariable v =>
                     h !! r = Some (Store.VariableObject v)
                 end ∧ P rs
             | [] => False
             end)
          (λ rs, rs = []) (Template._components T) components ∧
    foldr (λ c (P : list nat → Prop) rs,
             match rs with
             | r :: rs => stored h r c ∧ P rs
             | [] => False
             end)
          (λ rs, rs = []) (Template._templates T) templates ∧
    Forall2 (λ r v, h !! r = Some (Store.VariableObject v))
            variables (Template._variables T) ∧
    match Store._alternative this, Template._alternative T with
    | Some r, Some alternative => stored h r alternative
    | None, None => True
    | _, _ => False
    end.

(** The value of a [RequiredAndOptionalVariables] object, and of a list of
    them: what [==] compares. *)
Definition entry_of (h : gmap nat Store.object) (e : nat)
    : option RequiredAndOptionalVariables :=
  match h !! e with
  | Some (Store.EntryObject required optional) =>
      match h !! required, h !! optional with
      | Some (Store.SetObject required), Some (Store.SetObject optional) =>
          Some (mkRequiredAndOptional required optional)
      | _, _ => None
      end
  | _ => None
  end.

Definition entries_of (h : gmap nat Store.object) (r : nat)
    : option (list RequiredAndOptionalVariables) :=
  match h !! r with
  | Some (Store.ListObject entries) => mapM (entry_of h) entries
  | _ => None
  end.

(** The object at [e] is a tuple with the value [x], and it and its two sets
    are new: the store [h0] has no object at their references. *)
Definition new_entry (h0 h : gmap nat Store.object) (e : nat)
    (x : RequiredAndOptionalVariables) : Prop :=
  ∃ required optional,
    h !! e = Some (Store.EntryObject required optional) ∧
    h !! required = Some (Store.SetObject (types.required x)) ∧
    h !! optional = Some (Store.SetObject (types.optional x)) ∧
    h0 !! e = None ∧ h0 !! required = None ∧ h0 !! optional = None.

(** The object at [r] is a new list of new tuples with the values [xs]. *)
Definition new_entries (h0 h : gmap nat Store.object) (r : nat)
    (xs : list RequiredAndOptionalVariables) : Prop :=
  ∃ entries,
    h !! r = Some (Store.ListObject entries) ∧ h0 !! r = None ∧
    Forall2 (new_entry h0 h) entries xs.

(** What a run of the traversal gives, with enough fuel: the store is
    extended, no object that was there is changed, and the answer is a new
    list of new tuples with the values that [Template.variable_keys]
    computes. *)
Definition traversal_done (T : Template.t) (n : nat) : Prop :=
  ∀ fuel h l,
    n ≤ fuel → stored h l T →
    ∃ h' r, Store.variable_keys fuel l h = (h', Ok r) ∧ h ⊆ h' ∧
            new_entries h h' r (Template.variable_keys T).

(** The parsed form of ["{a}[{b}]|c"], and a store that holds a Prompt with
    that template text at reference 0 and the objects of its Template from
    reference 1 on. *)
Definition nested_example : Template.t := Eval vm_compute in
  match Template.parse "{a}[{b}]|c" with
  | Ok T => T
  | Raise _ => Template.fresh None None
  end.

Definition nested_example_store : gmap nat Store.object :=
  list_to_map
    [(0, Store.PromptObject (Store.mkPrompt "{a}[{b}]|c" 1 None));
     (1, Store.TemplateObject
           (Store.mkTemplate None None [] (Some "{a}[{b}]") 2 3 4 (Some 10)));
     (2, Store.ListObject [5; 6]);
     (3, Store.ListObject [6]);
     (4, Store.ListObject [5]);
     (5, Store.VariableObject
           (Var.mk (Some 0) (Some 3) (Var.Detached []) false (Some "a") None
                   [] []));
     (6, Store.TemplateObject
           (Store.mkTemplate (Some 3) (Some 8) [] (Some "{b}") 7 8 9 None));
     (7, Store.ListObject [11]);
     (8, Store.ListObject []);
     (9, Store.ListObject [11]);
     (10, Store.TemplateObject
            (Store.mkTemplate None None [] (Some "c") 12 13 14 None));
     (11, Store.VariableObject
            (Var.mk (Some 0) (Some 3) (Var.Detached []) false (Some "b") None
                    [] []));
     (12, Store.ListObject []);
     (13, Store.ListObject []);
     (14, Store.ListObject [])].

(** * Properties *)

(** ** The result monad *)

Lemma bind_Ok {A B} (m : result A) (f : A → result B) (b : B) :
  m ≫= f = Ok b ↔ ∃ a, m = Ok a ∧ f a = Ok b.
Proof.
  destruct m as [a|e]; simpl; split.
  - intros H. exists a. auto.
  - intros (a' & [= <-] & H). exact H.
  - discriminate.
  - intros (a' & [=] & _).
Qed.

Lemma bind_Raise {A B} (m : result A) (f : A → result B) (e : exn) :
  m ≫= f = Raise e ↔ m = Raise e ∨ ∃ a, m = Ok a ∧ f a = Raise e.
Proof.
  destruct m as [a|e']; simpl; split.
  - intros H. right. exists a. auto.
  - intros [[=] | (a' & [= <-] & H)]. exact H.
  - intros [= <-]. left. reflexivity.
  - intros [[= ->] | (a' & [=] & _)]. reflexivity.
Qed.

Ltac inv_bind H :=
  let a := fresh "a" in
  let Ha := fresh "Ha" in
  apply bind_Ok in H; destruct H as (a & Ha & H).

(** ** Strings *)

Lemma join_chars (s : string) : join (chars s) = s.
Proof. apply string_of_list_ascii_of_string. Qed.

Lemma chars_join (l : list ascii) : chars (join l) = l.
Proof. apply list_ascii_of_string_of_list_ascii. Qed.

Lemma chars_length (s : string) : length (chars s) = String.length s.
Proof. unfold chars. induction s; simpl; congruence. Qed.

Lemma join_length (l : list ascii) : String.length (join l) = length l.
Proof. rewrite <- chars_length, chars_join. reflexivity. Qed.

Lemma join_app (l1 l2 : list ascii) : join (l1 ++ l2) = join l1 +:+ join l2.
Proof.
  unfold join. induction l1 as [|a l1 IH]; [reflexivity|].
  simpl. rewrite IH. reflexivity.
Qed.

Lemma chars_app (s1 s2 : string) : chars (s1 +:+ s2) = chars s1 ++ chars s2.
Proof.
  unfold chars. induction s1 as [|a s1 IH]; [reflexivity|].
  change (String a s1 +:+ s2) with (String a (s1 +:+ s2)).
  simpl. rewrite IH. reflexivity.
Qed.

Lemma string_eqb_false (a b : string) : a ≠ b → String.eqb a b = false.
Proof. intros H. apply String.eqb_neq. exact H. Qed.

(** ** Variables *)

Section variable_construction.
Context (start : nat).

Lemma append_all_snoc (v : Var.t) (cs : list ascii) (c : ascii) :
  Var.append_all v (cs ++ [c]) = Var.append_all v cs ≫= λ v', Var.append v' c.
Proof. unfold Var.append_all. rewrite foldl_app. reflexivity. Qed.

Lemma new_under_construction : under_construction start [] (Var.new (Some start)).
Proof. split; simpl; try reflexivity; try discriminate. Qed.

Lemma char_in_options (c : ascii) :
  char_in_tuple c sc.VARIABLE_OPTIONS_chars = true →
  c = sc.VARIABLE_OPTIONS.MUTE ∨ c = sc.VARIABLE_OPTIONS.EQ.
Proof.
  unfold char_in_tuple, sc.VARIABLE_OPTIONS_chars. simpl.
  destruct (Ascii.eqb_spec c sc.VARIABLE_OPTIONS.MUTE); [auto|].
  destruct (Ascii.eqb_spec c sc.VARIABLE_OPTIONS.EQ); [auto|].
  discriminate.
Qed.

(** One accepted character extends the invariant. *)
Lemma append_under_construction (cs : list ascii) (v v' : Var.t) (c : ascii) :
  under_construction start cs v →
  Var.append v c = Ok v' →
  under_construction start (cs ++ [c]) v'.
Proof.
  intros [Hs He Hk Hr Hat Hnv Hacc] Happ.
  unfold Var.append in Happ.
  unfold accepted_characters, Var.targets_required_value in *.
  destruct v as [s e b m k r kc rc].
  cbn [Var.start_index Var._end_index Var._input_characters Var._muted Var._key
       Var._required_value Var._key_characters Var._required_value_characters]
    in *.
  subst s e k r.
  destruct b as [| |l]; [| |exfalso; eapply Hat; reflexivity];
    cbn [Var._input_characters] in Happ.
  - (* the key is being captured *)
    destruct (char_in_tuple c sc.VARIABLE_OPTIONS_chars) eqn:Hopt.
    + apply char_in_options in Hopt. destruct Hopt as [-> | ->].
      * (* the mute marker *)
        unfold Var._process_option, Var._mute in Happ. simpl in Happ.
        destruct kc; [|discriminate]. destruct m; [discriminate|].
        simpl in Happ. injection Happ as <-. subst cs.
        split; simpl; auto; discriminate.
      * (* the required-value marker *)
        unfold Var._process_option in Happ. simpl in Happ.
        injection Happ as <-. rewrite (Hnv eq_refl), app_nil_r in *. subst cs.
        split; simpl; auto; try discriminate.
        unfold accepted_characters. simpl. rewrite <- app_assoc. reflexivity.
    + destruct (char_in c sc.VARIABLE_NAME_SAFE); simpl in Happ; [|discriminate].
      unfold Var.super_append, Var.input_characters, PromptComponent.append in Happ.
      simpl in Happ.
      injection Happ as <-. rewrite app_nil_r in Hacc. subst cs.
      split; simpl; auto; try discriminate.
      unfold accepted_characters. simpl.
      rewrite app_nil_r, <- app_assoc. reflexivity.
  - (* required-value text *)
    unfold Var.super_append, Var.input_characters, PromptComponent.append in Happ.
    simpl in Happ. injection Happ as <-. subst cs.
    split; simpl; auto; try discriminate.
    unfold accepted_characters. simpl. rewrite <- !app_assoc. reflexivity.
Qed.

(** Every state the scanner can bring a Variable into satisfies the
    invariant. *)
Lemma append_all_under_construction (cs : list ascii) (v : Var.t) :
  Var.append_all (Var.new (Some start)) cs = Ok v →
  under_construction start cs v.
Proof.
  revert v. induction cs as [|c cs IH] using rev_ind; intros v H.
  - injection H as <-. apply new_under_construction.
  - rewrite append_all_snoc in H. inv_bind H.
    eapply append_under_construction; eauto.
Qed.

End variable_construction.

(** What closing leaves behind: an end offset, a non-empty key, and a
    required value that is either unset or non-empty. *)
Lemma close_inv (start : nat) (cs : list ascii) (v0 v : Var.t) (e : nat) :
  under_construction start cs v0 →
  Var.close v0 e = Ok v →
  Var.start_index v = Some start ∧
  Var._end_index v = Some e ∧
  Var._muted v = Var._muted v0 ∧
  (∃ k, Var._key v = Some k ∧ k ≠ "") ∧
  (Var._required_value v = None ∨
   ∃ r, Var._required_value v = Some r ∧ r ≠ "").
Proof.
  intros [Hs He Hk Hr Hat Hnv Hacc] Hclose.
  unfold Var.close in Hclose. inv_bind Hclose. injection Hclose as <-.
  unfold Var._before_close in Ha. inv_bind Ha.
  unfold Var._set_required_value in Ha0.
  unfold Var._set_key in Ha.
  destruct (Var._key_characters a0) as [|kc0 kcs] eqn:Hkc; [discriminate|].
  injection Ha as <-. simpl.
  destruct (Var._required_value_characters v0) as [|rc0 rcs] eqn:Hrc.
  - destruct (Var.targets_required_value v0); [discriminate|].
    injection Ha0 as <-. repeat split; auto.
    exists (join (kc0 :: kcs)). split; [reflexivity | discriminate].
  - injection Ha0 as <-. simpl in *. repeat split; auto.
    + exists (join (kc0 :: kcs)). split; [reflexivity | discriminate].
    + right. exists (join (rc0 :: rcs)). split; [reflexivity | discriminate].
Qed.

Lemma closed_inv (v : Var.t) :
  Var.closed v →
  (∃ e, Var._end_index v = Some e) ∧
  (∃ k, Var._key v = Some k ∧ k ≠ "") ∧
  (Var._required_value v = None ∨
   ∃ r, Var._required_value v = Some r ∧ r ≠ "").
Proof.
  intros (start & cs & e & Hb). unfold Var.build in Hb. inv_bind Hb.
  apply append_all_under_construction in Ha.
  destruct (close_inv _ _ _ _ _ Ha Hb) as (_ & He & _ & Hk & Hr).
  eauto.
Qed.

(** [Variable.substitute] on a closed variable, by cases on the lookup. *)
Lemma substitute_closed (v : Var.t) (params : gmap string string) (k : string) :
  Var.closed v →
  Var._key v = Some k →
  Var.substitute v params =
    match params !! k with
    | None => Raise VariableError
    | Some value =>
        if decide (value = "") then Raise VariableError
        else match Var._required_value v with
             | Some r =>
                 if decide (value = r)
                 then Ok (if Var._muted v then "" else value)
                 else Raise VariableError
             | None => Ok (if Var._muted v then "" else value)
             end
    end.
Proof.
  intros Hc Hk. destruct (closed_inv v Hc) as ((e & He) & _ & Hr).
  unfold Var.substitute, Var.end_index, Var.params_get.
  rewrite He, Hk.
  destruct (params !! k) as [value|]; simpl; [|reflexivity].
  destruct (decide (value = "")) as [->|Hne]; [reflexivity|].
  rewrite (string_eqb_false _ _ Hne).
  unfold Var.required_value_mismatch.
  destruct Hr as [-> | (r & -> & Hrne)].
  - destruct (Var._muted v); reflexivity.
  - rewrite (string_eqb_false _ _ Hrne). simpl.
    destruct (decide (value = r)) as [->|Hvr].
    + rewrite String.eqb_refl. simpl. destruct (Var._muted v); reflexivity.
    + rewrite (string_eqb_false _ _ Hvr). reflexivity.
Qed.

(** The two outcomes of [Variable.substitute] on a closed variable. *)
Lemma variable_substitute_cases (v : Var.t) (params : gmap string string) :
  Var.closed v →
  (unsatisfied v params ∧ Var.substitute v params = Raise VariableError) ∨
  (¬ unsatisfied v params ∧
   ∃ k value, Var.key v = Some k ∧ params !! k = Some value ∧
     Var.substitute v params = Ok (if Var._muted v then "" else value)).
Proof.
  intros Hc. destruct (closed_inv v Hc) as (_ & (k & Hk & _) & _).
  rewrite (substitute_closed v params k Hc Hk).
  unfold unsatisfied, Var.key. rewrite Hk.
  destruct (params !! k) as [value|] eqn:Hget.
  - destruct (decide (value = "")) as [->|Hne].
    + left. split; [|reflexivity]. exists k. auto.
    + destruct (Var._required_value v) as [r|] eqn:Hr.
      * destruct (decide (value = r)) as [->|Hvr].
        -- right. split; [|exists k, r; auto].
           intros (k' & [= <-] & [H | [H | (r' & [= <-] & H)]]); congruence.
        -- left. split; [|reflexivity]. exists k. split; [reflexivity|].
           right. right. exists r. split; [reflexivity | congruence].
      * right. split; [|exists k, value; auto].
        intros (k' & [= <-] & [H | [H | (r' & [=] & _)]]); congruence.
  - left. split; [|reflexivity]. exists k. auto.
Qed.

(** C4.  For every closed variable and every string-to-string mapping,
    [Variable.substitute] raises [VariableError] exactly when the key is
    absent from the mapping, or resolves to the empty string, or a required
    value is set and the resolved value is not equal to it; otherwise it
    returns the empty string when the variable is muted and the resolved
    value when it is not. *)
Theorem C4_variable_substitute (v : Var.t) (params : gmap string string) :
  Var.closed v →
  (Var.substitute v params = Raise VariableError ↔ unsatisfied v params) ∧
  (¬ unsatisfied v params →
   ∃ k value, Var.key v = Some k ∧ params !! k = Some value ∧
     Var.substitute v params = Ok (if Var._muted v then "" else value)).
Proof.
  intros Hc.
  destruct (variable_substitute_cases v params Hc)
    as [[Hu Hs] | (Hn & k & value & Hk & Hget & Hs)].
  - split; [split; auto|]. intros Hn. contradiction.
  - split; [split|].
    + rewrite Hs. discriminate.
    + intros Hu. contradiction.
    + intros _. exists k, value. auto.
Qed.

Lemma C4_variable_substitute_witness :
  Var.closed weather_hot ∧
  ((Var.substitute weather_hot {["weather" := "hot"]} = Raise VariableError
    ↔ unsatisfied weather_hot {["weather" := "hot"]}) ∧
   (¬ unsatisfied weather_hot {["weather" := "hot"]} →
    ∃ k value, Var.key weather_hot = Some k ∧
      ({["weather" := "hot"]} : gmap string string) !! k = Some value ∧
      Var.substitute weather_hot {["weather" := "hot"]} =
        Ok (if Var._muted weather_hot then "" else value))).
Proof.
  split; [exists 3, (chars "weather=hot"), 16; reflexivity|].
  apply (C4_variable_substitute weather_hot {["weather" := "hot"]}).
  exists 3, (chars "weather=hot"), 16. reflexivity.
Defined.

(** C7.  A Variable being fed characters by the scanner accepts the mute
    marker while its key is captured only as its very first character: fed to
    the fresh Variable it sets the mute flag, and after any accepted character
    (the mute marker itself included) it raises a syntax error.  While the
    required value is captured the marker is appended to the value like any
    other character. *)
Theorem C7_mute_marker (start : nat) (cs : list ascii) (v : Var.t) :
  Var.append_all (Var.new (Some start)) cs = Ok v →
  (Var.targets_required_value v = false →
     (cs = [] →
      Var.append v sc.VARIABLE_OPTIONS.MUTE =
        Ok (Var.mk (Some start) None Var.KeyCharacters true None None [] []))
     ∧
     (cs ≠ [] →
      ∃ d, Var.append v sc.VARIABLE_OPTIONS.MUTE =
        Raise (PromptSyntaxError
                 "A mute symbol is only allowed in the beginning" (Some d))))
  ∧
  (Var.targets_required_value v = true →
     Var.append v sc.VARIABLE_OPTIONS.MUTE =
       Ok (Var.mk (Var.start_index v) (Var._end_index v)
             Var.RequiredValueCharacters (Var._muted v) (Var._key v)
             (Var._required_value v) (Var._key_characters v)
             (Var._required_value_characters v ++ [sc.VARIABLE_OPTIONS.MUTE]))).
Proof.
  intros Hv. split.
  - intros Ht. split.
    + intros ->. injection Hv as <-. reflexivity.
    + intros Hne.
      destruct (append_all_under_construction start cs v Hv)
        as [Hs He Hk Hr Hat Hnv Hacc].
      unfold Var.append. rewrite Ht.
      unfold accepted_characters in Hacc. rewrite Ht, app_nil_r in Hacc.
      change (char_in_tuple sc.VARIABLE_OPTIONS.MUTE sc.VARIABLE_OPTIONS_chars)
        with true.
      cbn iota. unfold Var._process_option.
      rewrite Ascii.eqb_refl. unfold Var._mute, Var.input_characters.
      unfold Var.targets_required_value in Ht.
      destruct (Var._input_characters v) eqn:Hb;
        [|discriminate|exfalso; eapply Hat; reflexivity].
      destruct (Var._muted v) eqn:Hm.
      * rewrite andb_false_r. unfold Var._raise_detailed_syntax_error. eauto.
      * destruct (Var._key_characters v) eqn:Hkc.
        -- simpl in Hacc. congruence.
        -- simpl. unfold Var._raise_detailed_syntax_error. eauto.
  - intros Ht.
    destruct (append_all_under_construction start cs v Hv)
      as [Hs He Hk Hr Hat Hnv Hacc].
    unfold Var.append. rewrite Ht.
    unfold Var.super_append, Var.input_characters, PromptComponent.append.
    unfold Var.targets_required_value in Ht.
    destruct (Var._input_characters v) eqn:Hb; try discriminate.
    rewrite Hs, He. reflexivity.
Qed.

Lemma C7_mute_marker_witness :
  Var.append_all (Var.new (Some 0)) (chars "a=") = Ok capturing_value ∧
  ((Var.targets_required_value capturing_value = false →
     (chars "a=" = [] →
      Var.append capturing_value sc.VARIABLE_OPTIONS.MUTE =
        Ok (Var.mk (Some 0) None Var.KeyCharacters true None None [] []))
     ∧
     (chars "a=" ≠ [] →
      ∃ d, Var.append capturing_value sc.VARIABLE_OPTIONS.MUTE =
        Raise (PromptSyntaxError
                 "A mute symbol is only allowed in the beginning" (Some d))))
   ∧
   (Var.targets_required_value capturing_value = true →
     Var.append capturing_value sc.VARIABLE_OPTIONS.MUTE =
       Ok (Var.mk (Var.start_index capturing_value)
             (Var._end_index capturing_value)
             Var.RequiredValueCharacters (Var._muted capturing_value)
             (Var._key capturing_value)
             (Var._required_value capturing_value)
             (Var._key_characters capturing_value)
             (Var._required_value_characters capturing_value
                ++ [sc.VARIABLE_OPTIONS.MUTE])))).
Proof.
  split; [reflexivity|].
  apply (C7_mute_marker 0 (chars "a=") capturing_value). reflexivity.
Defined.

(** ** Induction on Templates *)

(** The nested Templates occur below [list] and [option], so the induction
    principle is stated with [Forall]. *)
Lemma template_ind (P : Template.t → Prop) :
  (∀ self,
      Forall P (Template._templates self) →
      Forall (λ c, match c with Template.IsTemplate c => P c | _ => True end)
             (Template._components self) →
      (∀ a, Template._alternative self = Some a → P a) →
      P self) →
  ∀ self, P self.
Proof.
  intros H. fix IH 1. intros [s e ic it comps ts vs alt]. apply H; simpl.
  - induction ts as [|c ts IHts]; constructor; [apply IH | exact IHts].
  - induction comps as [|c comps IHc]; constructor; [|exact IHc].
    destruct c; [apply IH | exact I].
  - intros a Ha. destruct alt as [a'|]; [|discriminate].
    injection Ha as <-. apply IH.
Qed.

(** ** The requirement traversal *)

Lemma variable_keys_unfold (T : Template.t) :
  Template.variable_keys T =
    own_entry T ::
    match Template._alternative T with
    | Some a => Template.variable_keys a
    | None => []
    end.
Proof.
  unfold own_entry. destruct T as [s e ic it comps ts vs [a|]]; reflexivity.
Qed.

Lemma variable_keys_chain (T : Template.t) :
  Template.variable_keys T = map own_entry (alternative_chain T).
Proof.
  induction T as [T _ _ IH] using template_ind.
  rewrite variable_keys_unfold.
  destruct T as [s e ic it comps ts vs [a|]]; simpl in *.
  - rewrite (IH a eq_refl). reflexivity.
  - reflexivity.
Qed.

Lemma own_entry_required (T : Template.t) :
  types.required (own_entry T) =
    list_to_set (map Var.key (Template._variables T)).
Proof.
  unfold own_entry. destruct T as [s e ic it comps ts vs [a|]]; reflexivity.
Qed.

Lemma own_entry_optional (T : Template.t) :
  types.optional (own_entry T) =
    foldl (λ optional child_template,
             foldl (λ optional child_variable_keys,
                      optional ∪ types.required child_variable_keys
                               ∪ types.optional child_variable_keys)
                   optional (Template.variable_keys child_template))
          ∅ (Template._templates T).
Proof.
  unfold own_entry. destruct T as [s e ic it comps ts vs [a|]]; reflexivity.
Qed.

Section folds.
Context {A : Type} (f : gset (option string) → A → gset (option string)).
Context (g : A → option string → Prop).
Hypothesis f_spec : ∀ acc x k, k ∈ f acc x ↔ k ∈ acc ∨ g x k.

(** An accumulating loop of [update] calls collects what each step adds. *)
Lemma elem_of_foldl_update (l : list A) (acc : gset (option string))
    (k : option string) :
  k ∈ foldl f acc l ↔ k ∈ acc ∨ ∃ x, x ∈ l ∧ g x k.
Proof.
  revert acc. induction l as [|x l IH]; intros acc; simpl.
  - split; [auto|]. intros [H | (x & Hx & _)]; [exact H|].
    apply elem_of_nil in Hx. contradiction.
  - rewrite IH, f_spec. split.
    + intros [[H | H] | (y & Hy & H)]; [auto| |].
      * right. exists x. split; [apply list_elem_of_here | exact H].
      * right. exists y. split; [apply list_elem_of_further; exact Hy | exact H].
    + intros [H | (y & Hy & H)]; [auto|].
      apply elem_of_cons in Hy as [-> | Hy]; [auto|]. right. exists y. auto.
Qed.
End folds.

Lemma own_entry_required_spec (T : Template.t) (k : option string) :
  k ∈ types.required (own_entry T) ↔
  ∃ v, v ∈ Template._variables T ∧ Var.key v = k.
Proof.
  rewrite own_entry_required, elem_of_list_to_set, list_elem_of_fmap.
  split; intros (v & H1 & H2); exists v; auto.
Qed.

Lemma own_entry_optional_spec (T : Template.t) (k : option string) :
  k ∈ types.optional (own_entry T) ↔
  ∃ c e, c ∈ Template._templates T ∧ e ∈ Template.variable_keys c ∧
         (k ∈ types.required e ∨ k ∈ types.optional e).
Proof.
  rewrite own_entry_optional.
  rewrite (elem_of_foldl_update _
             (λ c k, ∃ e, e ∈ Template.variable_keys c ∧
                          (k ∈ types.required e ∨ k ∈ types.optional e))).
  - split.
    + intros [H | (c & Hc & e & He & H)].
      * apply elem_of_empty in H. contradiction.
      * exists c, e. auto.
    + intros (c & e & Hc & He & H). right. exists c. split; [exact Hc|].
      exists e. auto.
  - intros acc c k'.
    apply (elem_of_foldl_update _
             (λ e k, k ∈ types.required e ∨ k ∈ types.optional e)).
    intros acc' e k''. rewrite !elem_of_union. tauto.
Qed.

(** C5.  The traversal answers one entry per block of the alternative
    chain, in chain order.  In the entry of a block the required set holds
    exactly the keys of the block's direct variables, and the optional set
    holds exactly the members of the required and optional sets that the
    traversal yields for the block's nested Templates.  The template
    ["{var_1} is needed, [but {var_2} [and {var_3}] not so much]"] parses and
    yields the single entry with required [{var_1}] and optional
    [{var_2, var_3}]. *)
Theorem C5_variable_keys :
  (∀ T, Template.variable_keys T = map own_entry (alternative_chain T)) ∧
  (∀ T k, k ∈ types.required (own_entry T) ↔
          ∃ v, v ∈ Template._variables T ∧ Var.key v = k) ∧
  (∀ T k, k ∈ types.optional (own_entry T) ↔
          ∃ c e, c ∈ Template._templates T ∧
                 e ∈ Template.variable_keys c ∧
                 (k ∈ types.required e ∨ k ∈ types.optional e)) ∧
  (∃ T, Template.parse
          "{var_1} is needed, [but {var_2} [and {var_3}] not so much]" = Ok T ∧
        Template.variable_keys T =
          [mkRequiredAndOptional {[Some "var_1"]}
                                 {[Some "var_2"; Some "var_3"]}]).
Proof.
  split; [exact variable_keys_chain|].
  split; [exact own_entry_required_spec|].
  split; [exact own_entry_optional_spec|].
  eexists. split; [vm_compute; reflexivity|]. vm_compute. reflexivity.
Qed.

(** A key that occurs in a block is in one of the entries of the block's
    traversal. *)
Lemma occurs_in_variable_keys (k : option string) (T : Template.t) :
  occurs_in k T →
  ∃ e, e ∈ Template.variable_keys T ∧
       (k ∈ types.required e ∨ k ∈ types.optional e).
Proof.
  induction 1 as [T v Hv Hk | T c Hc _ (e & He & Hke) | T a Ha _ (e & He & Hke)].
  - exists (own_entry T). split.
    + rewrite variable_keys_unfold. constructor.
    + left. apply own_entry_required_spec. eauto.
  - exists (own_entry T). split.
    + rewrite variable_keys_unfold. constructor.
    + right. apply own_entry_optional_spec. eauto.
  - exists e. split; [|exact Hke].
    rewrite variable_keys_unfold, Ha. constructor. exact He.
Qed.

(** C10.  The required and the optional set of an entry can overlap: a key
    of a direct variable of a block that also occurs in one of the block's
    nested Templates is a member of both sets of the block's entry. *)
Theorem C10_required_and_optional_overlap (T : Template.t)
    (k : option string) :
  (∃ v, v ∈ Template._variables T ∧ Var.key v = k) →
  (∃ c, c ∈ Template._templates T ∧ occurs_in k c) →
  k ∈ types.required (own_entry T) ∧ k ∈ types.optional (own_entry T).
Proof.
  intros Hv (c & Hc & Hocc). split.
  - apply own_entry_required_spec. exact Hv.
  - apply own_entry_optional_spec.
    destruct (occurs_in_variable_keys k c Hocc) as (e & He & Hke).
    eauto.
Qed.

Lemma C10_required_and_optional_overlap_witness :
  (∃ v, v ∈ Template._variables repetitions ∧ Var.key v = Some "var_1") ∧
  (∃ c, c ∈ Template._templates repetitions ∧ occurs_in (Some "var_1") c) ∧
  (Some "var_1" ∈ types.required (own_entry repetitions) ∧
   Some "var_1" ∈ types.optional (own_entry repetitions)).
Proof.
  assert (H1 : ∃ v, v ∈ Template._variables repetitions ∧
                    Var.key v = Some "var_1").
  { eexists. split; [apply list_elem_of_here | reflexivity]. }
  assert (H2 : ∃ c, c ∈ Template._templates repetitions ∧
                    occurs_in (Some "var_1") c).
  { eexists. split; [apply list_elem_of_here|].
    eapply occurs_direct; [apply list_elem_of_here | reflexivity]. }
  split; [exact H1|]. split; [exact H2|].
  exact (C10_required_and_optional_overlap repetitions (Some "var_1") H1 H2).
Defined.

(** ** The requirement traversal on objects *)

Lemma foldr_Forall2 {A B} (Q : B → A → Prop) (cs : list A) : ∀ rs : list B,
  foldr (λ c (P : list B → Prop) rs,
           match rs with
           | r :: rs => Q r c ∧ P rs
           | [] => False
           end)
        (λ rs, rs = []) cs rs ↔ Forall2 Q rs cs.
Proof.
  induction cs as [|c cs IH]; intros rs; simpl.
  - split; [intros ->; constructor | intros H; inversion H; reflexivity].
  - destruct rs as [|r rs].
    + split; [contradiction | intros H; inversion H].
    + rewrite IH. split.
      * intros [H1 H2]. constructor; assumption.
      * intros H. inversion H; subst. split; assumption.
Qed.

Lemma stored_unfold (h : gmap nat Store.object) (l : nat) (T : Template.t) :
  stored h l T ↔
  ∃ this components templates variables,
    h !! l = Some (Store.TemplateObject this) ∧
    Store.start_index this = Template.start_index T ∧
    Store._end_index this = Template._end_index T ∧
    Store._input_characters this = Template._input_characters T ∧
    Store.input_text this = Template.input_text T ∧
    h !! Store._components this = Some (Store.ListObject components) ∧
    h !! Store._templates this = Some (Store.ListObject templates) ∧
    h !! Store._variables this = Some (Store.ListObject variables) ∧
    Forall2 (stored_component h (stored h)) components (Template._components T) ∧
    Forall2 (stored h) templates (Template._templates T) ∧
    Forall2 (λ r v, h !! r = Some (Store.VariableObject v))
            variables (Template._variables T) ∧
    match Store._alternative this, Template._alternative T with
    | Some r, Some alternative => stored h r alternative
    | None, None => True
    | _, _ => False
    end.
Proof.
  assert (Heq : stored h l T =
    ∃ this components templates variables,
      h !! l = Some (Store.TemplateObject this) ∧
      Store.start_index this = Template.start_index T ∧
      Store._end_index this = Template._end_index T ∧
      Store._input_characters this = Template._input_characters T ∧
      Store.input_text this = Template.input_text T ∧
      h !! Store._components this = Some (Store.ListObject components) ∧
      h !! Store._templates this = Some (Store.ListObject templates) ∧
      h !! Store._variables this = Some (Store.ListObject variables) ∧
      foldr (λ c (P : list nat → Prop) rs,
               match rs with
               | r :: rs => stored_component h (stored h) r c ∧ P rs
               | [] => False
               end)
            (λ rs, rs = []) (Template._components T) components ∧
      foldr (λ c (P : list nat → Prop) rs,
               match rs with
               | r :: rs => stored h r c ∧ P rs
               | [] => False
               end)
            (λ rs, rs = []) (Template._templates T) templates ∧
      Forall2 (λ r v, h !! r = Some (Store.VariableObject v))
              variables (Template._variables T) ∧
      match Store._alternative this, Template._alternative T with
      | Some r, Some alternative => stored h r alternative
      | None, None => True
      | _, _ => False
      end) by (destruct T; reflexivity).
  rewrite Heq. clear Heq.
  split; intros (this & components & templates & variables & H1 & H2 & H3 & H4
                 & H5 & H6 & H7 & H8 & H9 & H10 & H11);
    exists this, components, templates, variables;
    repeat (split; [assumption|]);
    (split; [apply foldr_Forall2; exact H9|]);
    (split; [apply foldr_Forall2; exact H10|]); exact H11.
Qed.

(** *** What is kept *)

Lemma subseteq_kept (h h' : gmap nat Store.object) : h ⊆ h' → kept h h'.
Proof. intros Hsub l o H _. exact (lookup_weaken _ _ _ _ H Hsub). Qed.

Lemma stored_kept (h h' : gmap nat Store.object) (T : Template.t) : ∀ l,
  kept h h' → stored h l T → stored h' l T.
Proof.
  induction T as [T IHt IHc IHa] using template_ind. intros l Hkept.
  rewrite !stored_unfold.
  intros (this & components & templates & variables & H1 & H2 & H3 & H4
          & H5 & H6 & H7 & H8 & H9 & H10 & H11 & H12).
  exists this, components, templates, variables.
  repeat (split; [first [assumption | apply Hkept; [assumption|discriminate]]|]).
  split; [|split; [|split]].
  - clear -H9 IHc Hkept. induction H9 as [|r c rs cs Hrc _ IH]; constructor.
    + apply Forall_cons in IHc as [IHc _].
      destruct c as [c|v]; simpl in *.
      * apply IHc; assumption.
      * apply Hkept; [assumption|discriminate].
    + apply IH. apply Forall_cons in IHc as [_ IHc]. exact IHc.
  - clear -H10 IHt Hkept. induction H10 as [|r c rs cs Hrc _ IH]; constructor.
    + apply Forall_cons in IHt as [IHt _]. apply IHt; assumption.
    + apply IH. apply Forall_cons in IHt as [_ IHt]. exact IHt.
  - eapply Forall2_impl; [exact H11|]. intros r v H. simpl in H.
    apply Hkept; [assumption|discriminate].
  - destruct (Store._alternative this) as [r|],
      (Template._alternative T) as [a|]; try assumption.
    apply (IHa a eq_refl); assumption.
Qed.

(** *** Running the actions *)

Lemma bind_run {A B} (m : Store.action A) (f : A → Store.action B)
    (h h' : gmap nat Store.object) (a : A) :
  m h = (h', Ok a) → Store.bind m f h = f a h'.
Proof. intros H. unfold Store.bind. rewrite H. reflexivity. Qed.

Lemma get_template_run (h : gmap nat Store.object) (l : nat) this :
  h !! l = Some (Store.TemplateObject this) →
  Store.get_template l h = (h, Ok this).
Proof. intros H. unfold Store.get_template. rewrite H. reflexivity. Qed.

Lemma get_variable_run (h : gmap nat Store.object) (l : nat) v :
  h !! l = Some (Store.VariableObject v) →
  Store.get_variable l h = (h, Ok v).
Proof. intros H. unfold Store.get_variable. rewrite H. reflexivity. Qed.

Lemma get_prompt_run (h : gmap nat Store.object) (l : nat) this :
  h !! l = Some (Store.PromptObject this) →
  Store.get_prompt l h = (h, Ok this).
Proof. intros H. unfold Store.get_prompt. rewrite H. reflexivity. Qed.

Lemma get_list_run (h : gmap nat Store.object) (l : nat) items :
  h !! l = Some (Store.ListObject items) →
  Store.get_list l h = (h, Ok items).
Proof. intros H. unfold Store.get_list. rewrite H. reflexivity. Qed.

Lemma get_set_run (h : gmap nat Store.object) (l : nat) keys :
  h !! l = Some (Store.SetObject keys) →
  Store.get_set l h = (h, Ok keys).
Proof. intros H. unfold Store.get_set. rewrite H. reflexivity. Qed.

Lemma get_entry_run (h : gmap nat Store.object) (l : nat) required optional :
  h !! l = Some (Store.EntryObject required optional) →
  Store.get_entry l h = (h, Ok (required, optional)).
Proof. intros H. unfold Store.get_entry. rewrite H. reflexivity. Qed.

Lemma alloc_run (o : Store.object) (h : gmap nat Store.object) :
  Store.alloc o h = (<[fresh (dom h) := o]> h, Ok (fresh (dom h))) ∧
  h !! fresh (dom h) = None.
Proof.
  split; [reflexivity|]. apply not_elem_of_dom. apply is_fresh.
Qed.

Lemma set_add_run (h : gmap nat Store.object) (target : nat) keys key :
  h !! target = Some (Store.SetObject keys) →
  Store.set_add target key h =
    (<[target := Store.SetObject (keys ∪ {[key]})]> h, Ok ()).
Proof.
  intros H. unfold Store.set_add.
  rewrite (bind_run _ _ _ _ _ (get_set_run h target keys H)). reflexivity.
Qed.

Lemma set_update_run (h : gmap nat Store.object) (target source : nat)
    keys more :
  h !! target = Some (Store.SetObject keys) →
  h !! source = Some (Store.SetObject more) →
  Store.set_update target source h =
    (<[target := Store.SetObject (keys ∪ more)]> h, Ok ()).
Proof.
  intros Ht Hs. unfold Store.set_update.
  rewrite (bind_run _ _ _ _ _ (get_set_run h source more Hs)).
  rewrite (bind_run _ _ _ _ _ (get_set_run h target keys Ht)). reflexivity.
Qed.

Lemma list_extend_run (h : gmap nat Store.object) (target source : nat)
    items more :
  h !! target = Some (Store.ListObject items) →
  h !! source = Some (Store.ListObject more) →
  Store.list_extend target source h =
    (<[target := Store.ListObject (items ++ more)]> h, Ok ()).
Proof.
  intros Ht Hs. unfold Store.list_extend.
  rewrite (bind_run _ _ _ _ _ (get_list_run h source more Hs)).
  rewrite (bind_run _ _ _ _ _ (get_list_run h target items Ht)). reflexivity.
Qed.

(** The rule of the loop: an invariant that keeps the list as it is and
    that every round re-establishes holds when the loop is left, and the loop
    is left when there is more fuel than items. *)
Lemma for_in_spec (I : nat → gmap nat Store.object → Prop)
    (iterable : nat) (items : list nat) (body : nat → Store.action unit) :
  (∀ i h, I i h → h !! iterable = Some (Store.ListObject items)) →
  (∀ i item h, I i h → items !! i = Some item →
               ∃ h', body item h = (h', Ok ()) ∧ I (S i) h') →
  ∀ fuel i h,
    length items < fuel + i → i ≤ length items → I i h →
    ∃ h', Store.for_in fuel iterable i body h = (h', Ok ()) ∧
          I (length items) h'.
Proof.
  intros Hlist Hbody. induction fuel as [|fuel IH]; intros i h Hfuel Hi HI.
  - lia.
  - simpl. rewrite (bind_run _ _ _ _ _ (get_list_run h iterable items
                                          (Hlist i h HI))).
    destruct (items !! i) as [item|] eqn:Hitem.
    + destruct (Hbody i item h HI Hitem) as (h' & Hrun & HI').
      rewrite (bind_run _ _ _ _ _ Hrun).
      apply lookup_lt_Some in Hitem.
      apply IH; [lia | lia | exact HI'].
    + apply lookup_ge_None in Hitem.
      assert (i = length items) as -> by lia.
      exists h. split; [reflexivity | exact HI].
Qed.

(** *** The loops of the traversal *)

(** The set comprehension: the loop over the Variables adds their keys to
    the new set and changes nothing else. *)
Lemma required_loop (h : gmap nat Store.object) (list_ref required : nat)
    (refs : list nat) (vs : list Var.t) (fuel : nat) :
  h !! list_ref = Some (Store.ListObject refs) →
  Forall2 (λ r v, h !! r = Some (Store.VariableObject v)) refs vs →
  h !! required = Some (Store.SetObject ∅) →
  length refs < fuel →
  Store.for_in fuel list_ref 0
    (λ variable,
       Store.bind (Store.get_variable variable)
         (λ v, Store.set_add required (Var.key v))) h =
    (<[required := Store.SetObject (list_to_set (map Var.key vs))]> h, Ok ()).
Proof.
  intros Hlist Hvars Hset Hfuel.
  pose (I := λ (i : nat) (hc : gmap nat Store.object),
          hc = <[required :=
                   Store.SetObject (list_to_set (map Var.key (take i vs)))]> h).
  assert (Hne : ∀ l o, h !! l = Some o →
                       (∀ keys, o ≠ Store.SetObject keys) → required ≠ l).
  { intros l o Hl Ho ->. rewrite Hset in Hl. injection Hl as <-.
    exact (Ho _ eq_refl). }
  destruct (for_in_spec I list_ref refs
              (λ variable,
                 Store.bind (Store.get_variable variable)
                   (λ v, Store.set_add required (Var.key v))))
    with (fuel := fuel) (i := 0) (h := h) as (h' & Hrun & HI).
  - intros i hc ->. rewrite lookup_insert_ne; [exact Hlist|].
    apply (Hne _ _ Hlist). discriminate.
  - intros i r hc -> Hr.
    destruct (Forall2_lookup_l _ _ _ _ _ Hvars Hr) as (v & Hv & Hrv).
    simpl in Hrv.
    rewrite (bind_run _ _ _ _ _
               (get_variable_run _ r v
                  ltac:(rewrite lookup_insert_ne;
                        [exact Hrv | apply (Hne _ _ Hrv); discriminate]))).
    rewrite (set_add_run _ required _ _ (lookup_insert_eq _ _ _)).
    eexists. split; [reflexivity|]. unfold I.
    rewrite insert_insert_eq. do 2 f_equal.
    rewrite (take_S_r _ _ _ Hv), map_app, list_to_set_app_L. simpl.
    rewrite (right_id_L ∅ (∪)). reflexivity.
  - lia.
  - lia.
  - unfold I. simpl. rewrite insert_id by exact Hset. reflexivity.
  - rewrite Hrun. unfold I in HI. rewrite HI.
    rewrite (Forall2_length _ _ _ Hvars), firstn_all. reflexivity.
Qed.

(** The loop over the entries of a nested Template adds their keys to the
    set [optional] and changes nothing else. *)
Lemma optional_loop (h0 h : gmap nat Store.object) (keys optional : nat)
    (xs : list RequiredAndOptionalVariables) (acc : gset (option string))
    (fuel : nat) :
  new_entries h0 h keys xs →
  h !! optional = Some (Store.SetObject acc) →
  is_Some (h0 !! optional) →
  length xs < fuel →
  Store.for_in fuel keys 0
    (λ child_variable_keys,
       Store.bind (Store.get_entry child_variable_keys)
         (λ attributes,
            Store.bind (Store.set_update optional attributes.1)
              (λ _,
                 Store.bind (Store.get_entry child_variable_keys)
                   (λ attributes,
                      Store.set_update optional attributes.2)))) h =
    (<[optional :=
         Store.SetObject
           (foldl (λ optional child_variable_keys,
                     optional ∪ types.required child_variable_keys
                              ∪ types.optional child_variable_keys)
                  acc xs)]> h, Ok ()).
Proof.
  intros (entries & Hkeys & Hkeys0 & Hentries) Hset [o0 Hold] Hfuel.
  pose (I := λ (i : nat) (hc : gmap nat Store.object),
          hc = <[optional :=
                   Store.SetObject
                     (foldl (λ optional child_variable_keys,
                               optional ∪ types.required child_variable_keys
                                        ∪ types.optional child_variable_keys)
                            acc (take i xs))]> h).
  assert (Hne : ∀ l, h0 !! l = None → optional ≠ l).
  { intros l Hl ->. rewrite Hl in Hold. discriminate. }
  destruct (for_in_spec I keys entries
              (λ child_variable_keys,
                 Store.bind (Store.get_entry child_variable_keys)
                   (λ attributes,
                      Store.bind (Store.set_update optional attributes.1)
                        (λ _,
                           Store.bind (Store.get_entry child_variable_keys)
                             (λ attributes,
                                Store.set_update optional attributes.2)))))
    with (fuel := fuel) (i := 0) (h := h) as (h' & Hrun & HI).
  - intros i hc ->. rewrite lookup_insert_ne; [exact Hkeys|].
    apply Hne. exact Hkeys0.
  - intros i e hc -> He.
    destruct (Forall2_lookup_l _ _ _ _ _ Hentries He)
      as (x & Hx & (lr & lo & H1 & H2 & H3 & H4 & H5 & H6)).
    rewrite (bind_run _ _ _ _ _
               (get_entry_run _ e lr lo
                  ltac:(rewrite lookup_insert_ne; [exact H1 | exact (Hne _ H4)]))).
    cbn [fst snd].
    rewrite (bind_run _ _ _ _ _
               (set_update_run _ optional lr _ _ (lookup_insert_eq _ _ _)
                  ltac:(rewrite lookup_insert_ne; [exact H2 | exact (Hne _ H5)]))).
    rewrite insert_insert_eq.
    rewrite (bind_run _ _ _ _ _
               (get_entry_run _ e lr lo
                  ltac:(rewrite lookup_insert_ne; [exact H1 | exact (Hne _ H4)]))).
    cbn [fst snd].
    rewrite (set_update_run _ optional lo _ _ (lookup_insert_eq _ _ _)
               ltac:(rewrite lookup_insert_ne; [exact H3 | exact (Hne _ H6)])).
    rewrite insert_insert_eq.
    eexists. split; [reflexivity|]. unfold I. do 2 f_equal.
    rewrite (take_S_r _ _ _ Hx), foldl_app. reflexivity.
  - rewrite (Forall2_length _ _ _ Hentries). lia.
  - lia.
  - unfold I. simpl. rewrite insert_id by exact Hset. reflexivity.
  - rewrite Hrun. unfold I in HI. rewrite HI.
    rewrite (Forall2_length _ _ _ Hentries), firstn_all. reflexivity.
Qed.

(** *** New entries *)

Lemma new_entries_weaken (h0 h0' h h' : gmap nat Store.object) (r : nat)
    (xs : list RequiredAndOptionalVariables) :
  new_entries h0 h r xs → h ⊆ h' → h0' ⊆ h0 → new_entries h0' h' r xs.
Proof.
  intros (entries & Hr & Hr0 & Hentries) Hsub Hsub0.
  exists entries. split; [exact (lookup_weaken _ _ _ _ Hr Hsub)|].
  split; [exact (lookup_weaken_None _ _ _ Hr0 Hsub0)|].
  eapply Forall2_impl; [exact Hentries|].
  intros e x (lr & lo & H1 & H2 & H3 & H4 & H5 & H6).
  exists lr, lo.
  repeat split;
    first [ eapply lookup_weaken; [eassumption | exact Hsub]
          | eapply lookup_weaken_None; [eassumption | exact Hsub0] ].
Qed.

Lemma new_entries_value (h0 h : gmap nat Store.object) (r : nat)
    (xs : list RequiredAndOptionalVariables) :
  new_entries h0 h r xs → entries_of h r = Some xs.
Proof.
  intros (entries & Hr & _ & Hentries). unfold entries_of. rewrite Hr.
  apply mapM_Some. eapply Forall2_impl; [exact Hentries|].
  intros e [req opt] (lr & lo & H1 & H2 & H3 & _). unfold entry_of.
  simpl in H2, H3. rewrite H1, H2, H3. reflexivity.
Qed.

Lemma variable_keys_value (T : Template.t) :
  Template.variable_keys T =
    mkRequiredAndOptional
      (list_to_set (map Var.key (Template._variables T)))
      (foldl (λ optional child_template,
                foldl (λ optional child_variable_keys,
                         optional ∪ types.required child_variable_keys
                                  ∪ types.optional child_variable_keys)
                      optional (Template.variable_keys child_template))
             ∅ (Template._templates T)) ::
    match Template._alternative T with
    | Some alternative => Template.variable_keys alternative
    | None => []
    end.
Proof. destruct T as [s e ic it comps ts vs [a|]]; reflexivity. Qed.

Lemma Forall_bound {A} (Q : A → nat → Prop) (l : list A) :
  (∀ x n m, Q x n → n ≤ m → Q x m) →
  Forall (λ x, ∃ n, Q x n) l → ∃ N, Forall (λ x, Q x N) l.
Proof.
  intros Hmono. induction 1 as [|x l [n Hx] _ [N IH]].
  - exists 0. constructor.
  - exists (n + N). constructor.
    + apply (Hmono x n); [exact Hx | lia].
    + eapply Forall_impl; [exact IH|]. intros y Hy.
      apply (Hmono y N); [exact Hy | lia].
Qed.

Lemma variable_keys_spec (T : Template.t) : ∃ n, traversal_done T n.
Proof.
  assert (Hmono : ∀ c n m, traversal_done c n → n ≤ m → traversal_done c m).
  { intros c n m H Hle fuel h l Hfuel. apply H. lia. }
  induction T as [T IHt _ IHa] using template_ind.
  destruct (Forall_bound traversal_done _ Hmono IHt) as [N HN]. clear IHt.
  assert (∃ Na, ∀ a, Template._alternative T = Some a → traversal_done a Na)
    as [Na HNa].
  { destruct (Template._alternative T) as [a|].
    - destruct (IHa a eq_refl) as [Na HNa]. exists Na.
      intros a' [= <-]. exact HNa.
    - exists 0. intros a' [=]. }
  clear IHa.
  pose (L := max_list ((λ c, length (Template.variable_keys c)) <$>
                       Template._templates T)).
  exists (S (N + Na + L + length (Template._variables T) +
             length (Template._templates T) + 1)).
  intros fuel h l Hfuel Hstored. destruct fuel as [|fuel]; [lia|].
  apply stored_unfold in Hstored
    as (this & comps_r & temps_r & vars_r & Hself & _ & _ & _ & _ & _
        & Htemps & Hvars & _ & Hchildren & Hvariables & Halt).
  cbn [Store.variable_keys].
  (* required *)
  rewrite (bind_run _ _ _ _ _ (get_template_run h l this Hself)).
  destruct (alloc_run (Store.SetObject ∅) h) as [Hrun Hfresh_r].
  rewrite (bind_run _ _ _ _ _ Hrun). clear Hrun.
  set (lr := fresh (dom h)) in *.
  assert (Hsub1 : h ⊆ <[lr := Store.SetObject ∅]> h)
    by (apply insert_subseteq; exact Hfresh_r).
  rewrite (bind_run _ _ _ _ _
             (required_loop _ (Store._variables this) lr vars_r
                (Template._variables T) fuel
                (lookup_weaken _ _ _ _ Hvars Hsub1)
                ltac:(eapply Forall2_impl; [exact Hvariables|];
                      intros r v Hrv; exact (lookup_weaken _ _ _ _ Hrv Hsub1))
                (lookup_insert_eq _ _ _)
                ltac:(rewrite (Forall2_length _ _ _ Hvariables); lia))).
  rewrite insert_insert_eq.
  set (required := list_to_set (map Var.key (Template._variables T))).
  set (h2 := <[lr := Store.SetObject required]> h).
  assert (Hsub2 : h ⊆ h2) by (apply insert_subseteq; exact Hfresh_r).
  (* optional *)
  destruct (alloc_run (Store.SetObject ∅) h2) as [Hrun Hfresh_o].
  rewrite (bind_run _ _ _ _ _ Hrun). clear Hrun.
  set (lo := fresh (dom h2)) in *.
  set (h3 := <[lo := Store.SetObject ∅]> h2).
  assert (Hsub3 : h2 ⊆ h3) by (apply insert_subseteq; exact Hfresh_o).
  rewrite (bind_run _ _ _ _ _
             (get_template_run h3 l this
                (lookup_weaken _ _ _ _ (lookup_weaken _ _ _ _ Hself Hsub2)
                   Hsub3))).
  pose (g := λ (optional : gset (option string)) child_template,
          foldl (λ optional child_variable_keys,
                   optional ∪ types.required child_variable_keys
                            ∪ types.optional child_variable_keys)
                optional (Template.variable_keys child_template)).
  pose (J := λ (i : nat) (hc : gmap nat Store.object),
          h2 ⊆ hc ∧
          hc !! lo =
            Some (Store.SetObject (foldl g ∅ (take i (Template._templates T))))).
  match goal with
  | |- context [Store.for_in fuel (Store._templates this) 0 ?body] =>
      set (outer := body)
  end.
  destruct (for_in_spec J (Store._templates this) temps_r outer)
    with (fuel := fuel) (i := 0) (h := h3) as (h4 & Hloop & [Hsub4 Hlo4]).
  { intros i hc [Hsub _].
    exact (lookup_weaken _ _ _ _ (lookup_weaken _ _ _ _ Htemps Hsub2) Hsub). }
  { intros i r hc [Hsub Hlo] Hr.
    destruct (Forall2_lookup_l _ _ _ _ _ Hchildren Hr) as (c & Hc & Hrc).
    assert (Hsubc : h ⊆ hc) by (etrans; [exact Hsub2 | exact Hsub]).
    pose proof (stored_kept h hc c r (subseteq_kept _ _ Hsubc) Hrc) as Hrc'.
    destruct (proj1 (Forall_lookup _ _) HN i c Hc fuel hc r ltac:(lia) Hrc')
      as (hc' & keys & Hrun & Hsubc' & Hnew).
    unfold outer. rewrite (bind_run _ _ _ _ _ Hrun).
    rewrite (optional_loop hc hc' keys lo (Template.variable_keys c) _ fuel
               Hnew (lookup_weaken _ _ _ _ Hlo Hsubc')
               (mk_is_Some _ _ Hlo)).
    - eexists. split; [reflexivity|]. split.
      + apply insert_subseteq_r; [exact Hfresh_o|].
        etrans; [exact Hsub | exact Hsubc'].
      + rewrite lookup_insert_eq. do 2 f_equal.
        rewrite (take_S_r _ _ _ Hc), foldl_app. reflexivity.
    - assert (length (Template.variable_keys c) ≤ L); [|lia].
      apply max_list_elem_of_le. apply list_elem_of_fmap.
      exists c. split; [reflexivity|].
      exact (list_elem_of_lookup_2 _ _ _ Hc). }
  { rewrite (Forall2_length _ _ _ Hchildren). lia. }
  { lia. }
  { split; [exact Hsub3 | apply lookup_insert_eq]. }
  rewrite (bind_run _ _ _ _ _ Hloop). clear Hloop outer.
  rewrite (Forall2_length _ _ _ Hchildren), firstn_all in Hlo4.
  set (optional := foldl g ∅ (Template._templates T)) in *.
  (* result *)
  destruct (alloc_run (Store.EntryObject lr lo) h4) as [Hrun Hfresh_e].
  rewrite (bind_run _ _ _ _ _ Hrun). clear Hrun.
  set (le := fresh (dom h4)) in *.
  set (h5 := <[le := Store.EntryObject lr lo]> h4).
  assert (Hsub5 : h4 ⊆ h5) by (apply insert_subseteq; exact Hfresh_e).
  destruct (alloc_run (Store.ListObject [le]) h5) as [Hrun Hfresh_l].
  rewrite (bind_run _ _ _ _ _ Hrun). clear Hrun.
  set (lres := fresh (dom h5)) in *.
  set (h6 := <[lres := Store.ListObject [le]]> h5).
  assert (Hsub6 : h5 ⊆ h6) by (apply insert_subseteq; exact Hfresh_l).
  assert (Hh6 : h ⊆ h6).
  { etrans; [exact Hsub2|]. etrans; [exact Hsub4|].
    etrans; [exact Hsub5 | exact Hsub6]. }
  rewrite (bind_run _ _ _ _ _
             (get_template_run h6 l this (lookup_weaken _ _ _ _ Hself Hh6))).
  assert (Hown : new_entry h h5 le (mkRequiredAndOptional required optional)).
  { exists lr, lo. simpl. repeat split.
    - apply lookup_insert_eq.
    - apply (lookup_weaken h2); [apply lookup_insert_eq|].
      etrans; [exact Hsub4 | exact Hsub5].
    - apply (lookup_weaken h4); [exact Hlo4 | exact Hsub5].
    - apply (lookup_weaken_None h h4); [exact Hfresh_e|].
      etrans; [exact Hsub2 | exact Hsub4].
    - exact Hfresh_r.
    - apply (lookup_weaken_None h h2); [exact Hfresh_o | exact Hsub2]. }
  assert (Hres0 : h !! lres = None).
  { apply (lookup_weaken_None h h5); [exact Hfresh_l|].
    etrans; [exact Hsub2|]. etrans; [exact Hsub4 | exact Hsub5]. }
  assert (Hne5 : ∀ l' o, h5 !! l' = Some o → lres ≠ l').
  { intros l' o Hl' Heq. rewrite <- Heq, Hfresh_l in Hl'. discriminate. }
  rewrite variable_keys_value. fold g. fold required. fold optional.
  destruct (Store._alternative this) as [ra|],
    (Template._alternative T) as [a|] eqn:Ha; try contradiction;
    cbv beta iota.
  - (* the alternative *)
    destruct (HNa a eq_refl fuel h6 ra ltac:(lia)
                (stored_kept h h6 a ra (subseteq_kept _ _ Hh6) Halt))
      as (h7 & keys & Hrun & Hsub7 & Hnew).
    destruct Hnew as (entries & Hkeys & Hkeys0 & Hentries).
    assert (Hextend :
      Store.bind (Store.variable_keys fuel ra)
        (λ keys, Store.list_extend lres keys) h6 =
        (<[lres := Store.ListObject ([le] ++ entries)]> h7, Ok ())).
    { rewrite (bind_run _ _ _ _ _ Hrun).
      apply list_extend_run; [|exact Hkeys].
      exact (lookup_weaken _ _ _ _ (lookup_insert_eq _ _ _) Hsub7). }
    rewrite (bind_run _ _ _ _ _ Hextend).
    eexists _, lres. split; [reflexivity|]. split.
    + apply insert_subseteq_r; [exact Hres0|].
      etrans; [exact Hh6 | exact Hsub7].
    + assert (Hold5 : ∀ l' o, h5 !! l' = Some o →
                <[lres := Store.ListObject ([le] ++ entries)]> h7 !! l' =
                  Some o).
      { intros l' o Hl'. rewrite lookup_insert_ne by exact (Hne5 _ _ Hl').
        apply (lookup_weaken h5); [exact Hl'|].
        etrans; [exact Hsub6 | exact Hsub7]. }
      assert (Hnew7 : ∀ l' o, h6 !! l' = None → h7 !! l' = Some o →
                <[lres := Store.ListObject ([le] ++ entries)]> h7 !! l' =
                  Some o).
      { intros l' o Hl' Hl7. rewrite lookup_insert_ne; [exact Hl7|].
        intros Heq. rewrite <- Heq in Hl'. unfold h6 in Hl'.
        rewrite lookup_insert_eq in Hl'. discriminate. }
      exists (le :: entries). split; [apply lookup_insert_eq|].
      split; [exact Hres0|]. constructor.
      * destruct Hown as (lr' & lo' & H1 & H2 & H3 & H4 & H5 & H6).
        exists lr', lo'. repeat split; try assumption; apply Hold5; assumption.
      * eapply Forall2_impl; [exact Hentries|].
        intros e x (lr' & lo' & H1 & H2 & H3 & H4 & H5 & H6).
        exists lr', lo'.
        repeat split;
          first [ apply Hnew7; assumption
                | eapply (lookup_weaken_None h h6); [eassumption | exact Hh6] ].
  - (* no alternative *)
    exists h6, lres. split; [reflexivity|]. split; [exact Hh6|].
    exists [le]. split; [apply lookup_insert_eq|]. split; [exact Hres0|].
    constructor; [|constructor].
    destruct Hown as (lr' & lo' & H1 & H2 & H3 & H4 & H5 & H6).
    exists lr', lo'.
    repeat split; try assumption;
      (eapply (lookup_weaken h5); [eassumption | exact Hsub6]).
Qed.

Lemma new_entries_insert (h0 h : gmap nat Store.object) (r l : nat)
    (o : Store.object) (xs : list RequiredAndOptionalVariables) :
  new_entries h0 h r xs → is_Some (h0 !! l) →
  new_entries h0 (<[l := o]> h) r xs.
Proof.
  intros (entries & Hr & Hr0 & Hentries) [o0 Hl].
  assert (Hne : ∀ l', h0 !! l' = None → l ≠ l').
  { intros l' Hl' ->. rewrite Hl' in Hl. discriminate. }
  exists entries. split; [rewrite lookup_insert_ne; auto|].
  split; [exact Hr0|].
  eapply Forall2_impl; [exact Hentries|].
  intros e x (lr & lo & H1 & H2 & H3 & H4 & H5 & H6).
  exists lr, lo. repeat split; try assumption;
    rewrite lookup_insert_ne; auto.
Qed.

(** Checks that a given store holds a given Template. *)
Ltac check_stored :=
  repeat lazymatch goal with
         | |- stored _ _ _ => apply stored_unfold; eexists _, _, _, _
         | |- stored_component _ _ _ _ => unfold stored_component
         | |- _ ∧ _ => split
         | |- Forall2 _ _ _ => constructor
         | |- True => exact I
         | |- _ = _ => reflexivity
         | |- match ?a with _ => _ end =>
             let a' := eval vm_compute in a in
             change a with a'; cbv beta iota
         end.

Lemma nested_example_stored : stored nested_example_store 1 nested_example.
Proof. check_stored. Qed.

(** C8.  For a Prompt whose Template is in the store, whatever Template it
    is and so for every one that parsing constructs: with enough fuel,
    reading [variables] twice answers the same list, computed at the first
    access and kept in the Prompt; reading [variable_keys] of the Template
    twice more answers two new lists; the three lists are equal, their
    entries being those that [Template.variable_keys] computes; and the
    traversals change no object that was in the store, so that the Template
    and everything below it are as they were.  The one object that changes is
    the Prompt, which holds the reference to the first list from then on. *)
Theorem C8_variables_idempotent (source : string) (T : Template.t)
    (h : gmap nat Store.object) (prompt template : nat) :
  stored h template T →
  h !! prompt =
    Some (Store.PromptObject (Store.mkPrompt source template None)) →
  ∃ n, ∀ fuel, n ≤ fuel →
    ∃ h1 r1 h2 r2 h3 r3,
      Store.variables fuel prompt h = (h1, Ok r1) ∧
      Store.variables fuel prompt h1 = (h1, Ok r1) ∧
      Store.variable_keys fuel template h1 = (h2, Ok r2) ∧
      Store.variable_keys fuel template h2 = (h3, Ok r3) ∧
      entries_of h3 r1 = Some (Template.variable_keys T) ∧
      entries_of h3 r2 = Some (Template.variable_keys T) ∧
      entries_of h3 r3 = Some (Template.variable_keys T) ∧
      (∀ l, l ≠ prompt → is_Some (h !! l) → h3 !! l = h !! l) ∧
      h3 !! prompt =
        Some (Store.PromptObject (Store.mkPrompt source template (Some r1))) ∧
      stored h3 template T.
Proof.
  intros Hstored Hprompt.
  destruct (variable_keys_spec T) as [n Hn]. exists n. intros fuel Hfuel.
  (* the first access *)
  destruct (Hn fuel h template Hfuel Hstored)
    as (h' & r1 & Hrun1 & Hsub' & Hnew1).
  set (h1 := <[prompt := Store.PromptObject
                           (Store.mkPrompt source template (Some r1))]> h').
  assert (Hfirst : Store.variables fuel prompt h = (h1, Ok r1)).
  { unfold Store.variables.
    rewrite (bind_run _ _ _ _ _ (get_prompt_run h prompt _ Hprompt)).
    cbn [Store.variables_cache Store._template].
    rewrite (bind_run _ _ _ _ _ Hrun1).
    assert (Hcache : Store.set_variables_cache prompt r1 h' = (h1, Ok ())).
    { unfold Store.set_variables_cache.
      rewrite (bind_run _ _ _ _ _
                 (get_prompt_run h' prompt _
                    (lookup_weaken _ _ _ _ Hprompt Hsub'))).
      reflexivity. }
    rewrite (bind_run _ _ _ _ _ Hcache). reflexivity. }
  assert (Hsecond : Store.variables fuel prompt h1 = (h1, Ok r1)).
  { unfold Store.variables.
    rewrite (bind_run _ _ _ _ _
               (get_prompt_run h1 prompt _ (lookup_insert_eq _ _ _))).
    reflexivity. }
  assert (Hkept1 : kept h h1).
  { intros l o Hl Ho. unfold h1. rewrite lookup_insert_ne.
    - exact (lookup_weaken _ _ _ _ Hl Hsub').
    - intros <-. rewrite Hprompt in Hl. injection Hl as <-.
      exact (Ho _ eq_refl). }
  pose proof (stored_kept h h1 T template Hkept1 Hstored) as Hstored1.
  pose proof (new_entries_insert h h' r1 prompt
                (Store.PromptObject (Store.mkPrompt source template (Some r1)))
                _ Hnew1 (mk_is_Some _ _ Hprompt)) as Hnew1'.
  fold h1 in Hnew1'.
  (* the second and the third traversal *)
  destruct (Hn fuel h1 template Hfuel Hstored1)
    as (h2 & r2 & Hrun2 & Hsub2 & Hnew2).
  pose proof (stored_kept h1 h2 T template (subseteq_kept _ _ Hsub2) Hstored1)
    as Hstored2.
  destruct (Hn fuel h2 template Hfuel Hstored2)
    as (h3 & r3 & Hrun3 & Hsub3 & Hnew3).
  exists h1, r1, h2, r2, h3, r3.
  assert (Hsub13 : h1 ⊆ h3) by (etrans; eassumption).
  repeat split; try assumption.
  - apply (new_entries_value h h3).
    apply (new_entries_weaken h h h1 h3); [exact Hnew1' | exact Hsub13 | done].
  - apply (new_entries_value h1 h3).
    apply (new_entries_weaken h1 h1 h2 h3); [exact Hnew2 | exact Hsub3 | done].
  - apply (new_entries_value h2 h3). exact Hnew3.
  - intros l Hne [o Hl]. rewrite Hl.
    apply (lookup_weaken h1); [|exact Hsub13].
    unfold h1. rewrite lookup_insert_ne by congruence.
    exact (lookup_weaken _ _ _ _ Hl Hsub').
  - apply (lookup_weaken h1); [apply lookup_insert_eq | exact Hsub13].
  - exact (stored_kept h2 h3 T template (subseteq_kept _ _ Hsub3) Hstored2).
Qed.

Lemma C8_variables_idempotent_witness :
  Template.parse "{a}[{b}]|c" = Ok nested_example ∧
  stored nested_example_store 1 nested_example ∧
  nested_example_store !! 0 =
    Some (Store.PromptObject (Store.mkPrompt "{a}[{b}]|c" 1 None)) ∧
  ∃ n, ∀ fuel, n ≤ fuel →
    ∃ h1 r1 h2 r2 h3 r3,
      Store.variables fuel 0 nested_example_store = (h1, Ok r1) ∧
      Store.variables fuel 0 h1 = (h1, Ok r1) ∧
      Store.variable_keys fuel 1 h1 = (h2, Ok r2) ∧
      Store.variable_keys fuel 1 h2 = (h3, Ok r3) ∧
      entries_of h3 r1 = Some (Template.variable_keys nested_example) ∧
      entries_of h3 r2 = Some (Template.variable_keys nested_example) ∧
      entries_of h3 r3 = Some (Template.variable_keys nested_example) ∧
      (∀ l, l ≠ 0 → is_Some (nested_example_store !! l) →
            h3 !! l = nested_example_store !! l) ∧
      h3 !! 0 =
        Some (Store.PromptObject (Store.mkPrompt "{a}[{b}]|c" 1 (Some r1))) ∧
      stored h3 1 nested_example.
Proof.
  assert (H1 : Template.parse "{a}[{b}]|c" = Ok nested_example)
    by (vm_compute; reflexivity).
  assert (H3 : nested_example_store !! 0 =
            Some (Store.PromptObject (Store.mkPrompt "{a}[{b}]|c" 1 None)))
    by reflexivity.
  split; [exact H1|]. split; [exact nested_example_stored|].
  split; [exact H3|].
  exact (C8_variables_idempotent "{a}[{b}]|c" nested_example
           nested_example_store 0 1 nested_example_stored H3).
Defined.

(** The store model on the example: with fuel 10 the first access of
    [variables] makes the objects 15 to 26 and answers the list at 22, whose
    entries are those of the value-level traversal. *)
Example test_store_variables :
  ∃ h1, Store.variables 10 0 nested_example_store = (h1, Ok 22) ∧
        h1 !! 22 = Some (Store.ListObject [21; 25]) ∧
        entries_of h1 22 =
          Some [mkRequiredAndOptional {[Some "a"]} {[Some "b"]};
                mkRequiredAndOptional ∅ ∅].
Proof.
  eexists. split; [vm_compute; reflexivity|].
  split; vm_compute; reflexivity.
Qed.

(** ** Block substitution *)

Lemma substitute_unfold (params : gmap string string) (T : Template.t) :
  Template.substitute params T =
    match Template.variable_substitutions params T with
    | Raise VariableError =>
        match Template._alternative T with
        | Some alternative => Template.substitute params alternative
        | None => Ok (Some "")
        end
    | Raise e => Raise e
    | Ok substitutions =>
        Template._substitute_all_components params T substitutions
    end.
Proof. destruct T. reflexivity. Qed.

(** The comprehension over closed variables: it raises [VariableError] when
    one of them is unsatisfied, and otherwise collects their texts. *)
Lemma comprehension_cases (params : gmap string string) (vs : list Var.t) :
  Forall Var.closed vs →
  (Exists (λ v, unsatisfied v params) vs ∧
   list_comprehension (λ v, Var.substitute v params) vs = Raise VariableError)
  ∨
  (Forall (λ v, ¬ unsatisfied v params) vs ∧
   ∃ subs, list_comprehension (λ v, Var.substitute v params) vs = Ok subs ∧
           Forall2 (λ v s, Var.substitute v params = Ok s) vs subs).
Proof.
  induction 1 as [|v vs Hv _ IH]; simpl.
  - right. split; [constructor|]. exists []. split; [reflexivity | constructor].
  - destruct (variable_substitute_cases v params Hv)
      as [[Hu Hs] | (Hn & k & value & Hk & Hget & Hs)]; rewrite Hs; simpl.
    + left. split; [constructor; exact Hu | reflexivity].
    + destruct IH as [[Hex Hr] | (Hall & subs & Hr & Hf2)]; rewrite Hr; simpl.
      * left. split; [apply Exists_cons_tl; exact Hex | reflexivity].
      * right. split; [constructor; assumption|].
        eexists. split; [reflexivity|]. constructor; assumption.
Qed.

Lemma Forall_not_Exists {A} (P : A → Prop) (l : list A) :
  Forall (λ x, ¬ P x) l → Exists P l → False.
Proof.
  intros Hall Hex. apply Exists_exists in Hex as (x & Hx & HP).
  rewrite Forall_forall in Hall. exact (Hall x Hx HP).
Qed.

(** C2.  A block whose direct variables are closed substitutes all or
    nothing.  When none of its direct variables is unsatisfied, the result is
    the text rebuilt by [_substitute_all_components] from the texts of these
    variables.  When one of them is unsatisfied, the result is the result of
    the alternative if there is one and the empty string otherwise.  The
    condition reads the direct variables only: the nested Templates of the
    block take no part in the choice. *)
Theorem C2_all_or_nothing (T : Template.t) (params : gmap string string) :
  Forall Var.closed (Template._variables T) →
  (Forall (λ v, ¬ unsatisfied v params) (Template._variables T) →
   ∃ subs,
     Forall2 (λ v s, Var.substitute v params = Ok s)
             (Template._variables T) subs ∧
     Template.substitute params T =
       Template._substitute_all_components params T subs)
  ∧
  (Exists (λ v, unsatisfied v params) (Template._variables T) →
   Template.substitute params T =
     match Template._alternative T with
     | Some alternative => Template.substitute params alternative
     | None => Ok (Some "")
     end).
Proof.
  intros Hc. rewrite substitute_unfold. unfold Template.variable_substitutions.
  destruct (comprehension_cases params _ Hc)
    as [[Hex Hr] | (Hall & subs & Hr & Hf2)]; rewrite Hr.
  - split; [|reflexivity].
    intros Hall. exfalso. exact (Forall_not_Exists _ _ Hall Hex).
  - split.
    + intros _. exists subs. auto.
    + intros Hex. exfalso. exact (Forall_not_Exists _ _ Hall Hex).
Qed.

Lemma C2_all_or_nothing_witness :
  Forall Var.closed (Template._variables with_fallback) ∧
  ((Forall (λ v, ¬ unsatisfied v ∅) (Template._variables with_fallback) →
    ∃ subs,
      Forall2 (λ v s, Var.substitute v ∅ = Ok s)
              (Template._variables with_fallback) subs ∧
      Template.substitute ∅ with_fallback =
        Template._substitute_all_components ∅ with_fallback subs)
   ∧
   (Exists (λ v, unsatisfied v ∅) (Template._variables with_fallback) →
    Template.substitute ∅ with_fallback =
      match Template._alternative with_fallback with
      | Some alternative => Template.substitute ∅ alternative
      | None => Ok (Some "")
      end)).
Proof.
  assert (H : Forall Var.closed (Template._variables with_fallback)).
  { constructor; [|constructor]. exists 0, (chars "a"), 3. reflexivity. }
  split; [exact H|].
  exact (C2_all_or_nothing with_fallback ∅ H).
Defined.

(** ** The facade's parameter validation *)

Section facade.
Context {float : Type} (float_str : float → string).
Implicit Types (d pre post : Prompt.dict (float := float)).
Implicit Types (h : Prompt.heap (float := float)).

(** The aliases [heap], [address] and [dict] hide the map and list types
    from rewriting. *)
Ltac unalias := unfold Prompt.heap, Prompt.address, Prompt.dict in *.

Lemma dict_setitem_middle pre post (k : Prompt.pykey)
    (old v : Prompt.value (float := float)) :
  k ∉ pre.*1 →
  Prompt.dict_setitem (pre ++ (k, old) :: post) k v = pre ++ (k, v) :: post.
Proof.
  induction pre as [|[k' v'] pre IH]; intros Hk; simpl.
  - rewrite decide_True by reflexivity. reflexivity.
  - rewrite fmap_cons, not_elem_of_cons in Hk. destruct Hk as [Hne Hk].
    rewrite decide_False by (simpl in Hne; congruence).
    rewrite (IH Hk). reflexivity.
Qed.

Lemma validated_keys pre : (map (validated float_str) pre).*1 = pre.*1.
Proof.
  induction pre as [|[k v] pre IH]; [reflexivity|].
  simpl. f_equal. exact IH.
Qed.

(** [str()] of an integer within the digit limit. *)
Lemma int_str_within_limit (z : Z) :
  String.length (Prompt.decimal (Z.abs z)) ≤ Prompt.int_max_str_digits →
  Prompt.int_str z = Ok (Prompt.decimal z).
Proof.
  intros Hz. unfold Prompt.int_str.
  destruct (Nat.ltb_spec Prompt.int_max_str_digits
              (String.length (Prompt.decimal (Z.abs z)))); [lia|reflexivity].
Qed.

(** ... and beyond it. *)
Lemma int_str_beyond_limit (z : Z) :
  ¬ String.length (Prompt.decimal (Z.abs z)) ≤ Prompt.int_max_str_digits →
  Prompt.int_str z = Raise ValueError.
Proof.
  intros Hz. unfold Prompt.int_str.
  destruct (Nat.ltb_spec Prompt.int_max_str_digits
              (String.length (Prompt.decimal (Z.abs z)))); [reflexivity|lia].
Qed.

(** The body of the loop on an item that it converts, with the items before
    it converted already. *)
Lemma validate_item_accepts (params : Prompt.address) h pre post
    (item : Prompt.pykey * Prompt.value (float := float)) :
  h !! params = Some (map (validated float_str) pre ++ item :: post) →
  NoDup (pre ++ item :: post).*1 →
  convertible item →
  Prompt.validate_item float_str params item h =
    (<[params := map (validated float_str) (pre ++ [item]) ++ post]> h, Ok ()).
Proof.
  intros Hh Hnd [[[ks Hks] Hv] Hlimit]. destruct item as [k v].
  simpl in Hks, Hv, Hlimit. subst k.
  assert (Hfresh : Prompt.KStr ks ∉ (map (validated float_str) pre).*1).
  { rewrite validated_keys. rewrite fmap_app, fmap_cons in Hnd.
    apply NoDup_app in Hnd as (_ & Hnd & _). intros Hin.
    apply (Hnd _ Hin). apply list_elem_of_here. }
  assert (Hassign : ∀ text,
    Prompt.assign_str h params (Prompt.KStr ks) (Ok text) =
      (<[params := map (validated float_str) pre ++
                   (Prompt.KStr ks, Prompt.VStr text) :: post]> h, Ok ())).
  { intros text. unfold Prompt.assign_str, Prompt.setitem. unalias.
    rewrite Hh, (dict_setitem_middle _ _ _ _ _ Hfresh). reflexivity. }
  rewrite map_app, <- app_assoc.
  unfold Prompt.validate_item.
  destruct v as [s|z|b|f|]; [| | | |contradiction].
  - unalias. rewrite insert_id by exact Hh. reflexivity.
  - rewrite (int_str_within_limit z Hlimit). apply Hassign.
  - apply Hassign.
  - apply Hassign.
Qed.

(** The loop, started at position [length pre] with the items of [pre]
    already converted, converts the remaining items. *)
Lemma validate_loop_spec (params : Prompt.address) post : ∀ pre h,
  h !! params = Some (map (validated float_str) pre ++ post) →
  NoDup (pre ++ post).*1 →
  Forall convertible post →
  Prompt.validate_loop float_str params (length pre) (length post) h =
    (<[params := map (validated float_str) (pre ++ post)]> h, Ok ()).
Proof.
  induction post as [|item post IH]; intros pre h Hh Hnd Hacc.
  - simpl. unalias. rewrite app_nil_r in *. rewrite insert_id by exact Hh.
    reflexivity.
  - apply Forall_cons in Hacc as [Hitem Hacc].
    cbn [length Prompt.validate_loop]. unalias. rewrite Hh.
    cbn [mbind option_bind].
    assert (Hi : (map (validated float_str) pre ++ item :: post)
                   !! length pre = Some item).
    { rewrite <- (length_map (validated float_str)). apply list_lookup_middle.
      reflexivity. }
    rewrite Hi.
    rewrite (validate_item_accepts params h pre post item Hh Hnd Hitem).
    replace (S (length pre)) with (length (pre ++ [item]))
      by (rewrite length_app; simpl; lia).
    rewrite (IH (pre ++ [item])).
    + rewrite <- !app_assoc. simpl. unalias. rewrite insert_insert_eq.
      reflexivity.
    + unalias. rewrite lookup_insert_eq. reflexivity.
    + rewrite <- app_assoc. exact Hnd.
    + exact Hacc.
Qed.

Lemma validate_params_spec (params : Prompt.address) h d :
  h !! params = Some d →
  NoDup d.*1 →
  Forall convertible d →
  Prompt._validate_params float_str params h =
    (<[params := map (validated float_str) d]> h, Ok params).
Proof.
  intros Hh Hnd Hacc. unfold Prompt._validate_params. unalias. rewrite Hh.
  pose proof (validate_loop_spec params d [] h Hh Hnd Hacc) as Hloop.
  change (length (@nil (Prompt.pykey * Prompt.value (float := float)))) with 0
    in Hloop.
  unalias. rewrite Hloop. reflexivity.
Qed.

(** The decimal numeral that the model computes is the decimal numeral of
    the integer. *)
Lemma decimal_is_numeral (z : Z) : decimal_numeral (Prompt.decimal z) z.
Proof.
  unfold decimal_numeral, Prompt.decimal. exists (Z.to_int z).
  assert (Hnorm : Decimal.norm (Z.to_int z) = Z.to_int z).
  { rewrite <- (DecimalZ.to_of (Z.to_int z)), DecimalZ.of_to. reflexivity. }
  split; [|split; [exact Hnorm | apply DecimalZ.of_to]].
  apply DecimalString.NilZero.isi; intros Hnil; rewrite Hnil in Hnorm;
    discriminate.
Qed.

Lemma string_representation_shown
    (item : Prompt.pykey * Prompt.value (float := float)) :
  acceptable item →
  shown_as float_str item.2 (string_representation float_str item.2).
Proof.
  intros [_ Hv]. destruct item as [k [s|z|[|]|f|]]; simpl in *;
    try reflexivity; [apply decimal_is_numeral | contradiction].
Qed.

(** C9, as amended.  When the dict at the address given to the facade
    holds string keys with string, integer, boolean or float values, and no
    integer has more digits than [str()] converts, [_validate_params] answers
    the address it was given and leaves at that address the dict with every
    value replaced by its string representation (a string is its own, an
    integer its decimal numeral); no other object changes; [Prompt.substitute]
    leaves the heap in that state, and the mapping the core reads is the dict
    at that same address. *)
Theorem C9_validate_params_in_place (params : Prompt.address) h d :
  h !! params = Some d →
  NoDup d.*1 →
  Forall convertible d →
  let h' := <[params := map (validated float_str) d]> h in
  Prompt._validate_params float_str params h = (h', Ok params) ∧
  h' !! params = Some (map (validated float_str) d) ∧
  Forall2 (λ old new, new.1 = old.1 ∧
                      ∃ text, new.2 = Prompt.VStr text ∧
                              shown_as float_str old.2 text)
          d (map (validated float_str) d) ∧
  (∀ other, other ≠ params → h' !! other = h !! other) ∧
  ∀ self reduce,
    Prompt.substitute float_str self params reduce h =
      (h',
       result ← Template.substitute (Prompt.validated_view h' params)
                  (Prompt._template self);
       if reduce then
         match result with
         | None => Raise AttributeError
         | Some result => Ok (Some (String.concat " " (Prompt.split result)))
         end
       else Ok result).
Proof.
  intros Hh Hnd Hacc h'. unalias. split; [|split; [|split; [|split]]].
  - exact (validate_params_spec params h d Hh Hnd Hacc).
  - apply lookup_insert_eq.
  - clear Hh Hnd h'. induction Hacc as [|item d [Hitem _] _ IH]; simpl;
      constructor; [|exact IH].
    split; [reflexivity|]. eexists. split; [reflexivity|].
    apply string_representation_shown. exact Hitem.
  - intros other Hne. apply lookup_insert_ne. congruence.
  - intros self reduce. unfold Prompt.substitute.
    rewrite (validate_params_spec params h d Hh Hnd Hacc). reflexivity.
Qed.

End facade.

(** Checks that an item with a string key is convertible. *)
Ltac check_convertible :=
  split; [split; [eexists; reflexivity | discriminate]
         | first [exact I | apply Nat.leb_le; vm_compute; reflexivity]].

Lemma callers_dict_convertible : Forall convertible callers_dict.
Proof.
  apply Forall_cons; split; [check_convertible|].
  apply Forall_cons; split; [check_convertible|]. constructor.
Qed.

Lemma callers_dict_NoDup : NoDup callers_dict.*1.
Proof.
  repeat constructor; simpl; rewrite ?elem_of_cons, ?elem_of_nil;
    intros H; decompose [or] H; discriminate || contradiction.
Qed.

Lemma C9_validate_params_in_place_witness :
  callers_heap !! 0 = Some callers_dict ∧
  NoDup callers_dict.*1 ∧
  Forall convertible callers_dict ∧
  let h' := <[0 := map (validated no_float_str) callers_dict]> callers_heap in
  Prompt._validate_params no_float_str 0 callers_heap = (h', Ok 0) ∧
  h' !! 0 = Some (map (validated no_float_str) callers_dict) ∧
  Forall2 (λ old new, new.1 = old.1 ∧
                      ∃ text, new.2 = Prompt.VStr text ∧
                              shown_as no_float_str old.2 text)
          callers_dict (map (validated no_float_str) callers_dict) ∧
  (∀ other, other ≠ 0 → h' !! other = callers_heap !! other) ∧
  ∀ self reduce,
    Prompt.substitute no_float_str self 0 reduce callers_heap =
      (h',
       result ← Template.substitute (Prompt.validated_view h' 0)
                  (Prompt._template self);
       if reduce then
         match result with
         | None => Raise AttributeError
         | Some result => Ok (Some (String.concat " " (Prompt.split result)))
         end
       else Ok result).
Proof.
  assert (H1 : callers_heap !! 0 = Some callers_dict) by reflexivity.
  split; [exact H1|]. split; [exact callers_dict_NoDup|].
  split; [exact callers_dict_convertible|].
  exact (C9_validate_params_in_place no_float_str 0 callers_heap callers_dict
           H1 callers_dict_NoDup callers_dict_convertible).
Defined.

(** C9, the claim as it was stated.  A dict with a string key and an
    integer value is a dict "containing int values", and every item of it is
    let through by the type checks; but the integer [10 ** 4300] has 4301
    digits, [str()] raises [ValueError] for it, and the facade raises that
    error and leaves the dict as it was: the value is not replaced by a
    string. *)
Lemma C9_int_beyond_digit_limit :
  Forall acceptable dict_beyond_digit_limit ∧
  ¬ Forall convertible dict_beyond_digit_limit ∧
  Prompt._validate_params no_float_str 0 {[0 := dict_beyond_digit_limit]} =
    ({[0 := dict_beyond_digit_limit]}, Raise ValueError) ∧
  ∀ self reduce,
    Prompt.substitute no_float_str self 0 reduce
      {[0 := dict_beyond_digit_limit]} =
      ({[0 := dict_beyond_digit_limit]}, Raise ValueError).
Proof.
  assert (Hvalidate :
    Prompt._validate_params no_float_str 0 {[0 := dict_beyond_digit_limit]} =
      ({[0 := dict_beyond_digit_limit]}, Raise ValueError))
    by (vm_compute; reflexivity).
  split; [|split; [|split]].
  - repeat constructor; simpl; eauto; discriminate.
  - intros H. apply Forall_cons in H as [[_ H] _]. revert H.
    vm_compute. lia.
  - exact Hvalidate.
  - intros self reduce. unfold Prompt.substitute. rewrite Hvalidate.
    reflexivity.
Qed.

(** ** Syntax errors of the listed inputs *)

(** C6, as amended.  Parsing each of ["{}"], ["{=value}"], ["{~~x}"], ["{"],
    ["["], [""] and ["[]"] raises a syntax error.  For ["{~~x}"], ["{"] and
    ["["] the error carries a text and a 1-based offset into it: offset 3 of
    ["{~~"], offset 1 of ["{"] and offset 1 of ["["].  For ["{}"],
    ["{=value}"], [""] and ["[]"] the error carries no details, hence neither
    an offset nor a text. *)
Theorem C6_syntax_errors :
  Template.parse "{~~x}" =
    Raise (PromptSyntaxError "A mute symbol is only allowed in the beginning"
             (Some (details "{~~" 3))) ∧
  Template.parse "{" =
    Raise (PromptSyntaxError "Variable not closed" (Some (details "{" 1))) ∧
  Template.parse "[" =
    Raise (PromptSyntaxError "Template not closed" (Some (details "[" 1))) ∧
  Template.parse "{}" =
    Raise (PromptSyntaxError "Variable key can not be empty" None) ∧
  Template.parse "{=value}" =
    Raise (PromptSyntaxError "Variable key can not be empty" None) ∧
  Template.parse "" =
    Raise (PromptSyntaxError "A template can not be empty" None) ∧
  Template.parse "[]" =
    Raise (PromptSyntaxError "A template can not be empty" None).
Proof. repeat split; vm_compute; reflexivity. Qed.

(** The error raised for ["{}"] carries no offset. *)
Lemma C6_empty_key_without_offset :
  ¬ carries_valid_offset (Template.parse "{}").
Proof.
  intros (message & d & H & _).
  vm_compute in H. discriminate.
Qed.

(** ** Well-formedness of parsed Templates *)

Lemma spans_ok_le (cs : list Template.component) : ∀ lo hi,
  spans_ok lo cs hi → lo ≤ hi.
Proof.
  induction cs as [|c cs IH]; simpl; intros lo hi H; [exact H|].
  destruct H as (s & e & _ & _ & Hlo & Hse & H). apply IH in H. lia.
Qed.

Lemma spans_ok_mono (cs : list Template.component) : ∀ lo hi hi',
  spans_ok lo cs hi → hi ≤ hi' → spans_ok lo cs hi'.
Proof.
  induction cs as [|c cs IH]; simpl; intros lo hi hi' H Hle; [lia|].
  destruct H as (s & e & Hs & He & Hlo & Hse & H).
  exists s, e. repeat split; auto. eapply IH; eauto.
Qed.

(** A component that starts at or after the end of the last one extends
    the ordered spans. *)
Lemma spans_ok_snoc (cs : list Template.component) (c : Template.component)
    (s e : nat) : ∀ lo hi,
  spans_ok lo cs hi →
  Template.component_start_index c = Some s →
  Template.component_end_index c = Some e →
  hi ≤ s → s < e →
  spans_ok lo (cs ++ [c]) e.
Proof.
  induction cs as [|c0 cs IH]; simpl; intros lo hi H Hs He Hle Hse.
  - exists s, e. repeat split; auto; lia.
  - destruct H as (s0 & e0 & Hs0 & He0 & Hlo & Hse0 & H).
    exists s0, e0. repeat split; auto. eapply IH; eauto.
Qed.

Lemma foldr_and_Forall (P : Template.t → Prop) (l : list Template.t) :
  foldr (λ c Q, P c ∧ Q) True l ↔ Forall P l.
Proof.
  induction l as [|c l IH]; simpl.
  - split; [constructor | auto].
  - rewrite Forall_cons, IH. reflexivity.
Qed.

Lemma well_formed_unfold (T : Template.t) :
  well_formed T ↔
  block_ok T ∧ Forall well_formed (Template._templates T) ∧
  ∀ a, Template._alternative T = Some a → well_formed a.
Proof.
  destruct T as [s e ic it comps ts vs alt]. simpl.
  rewrite foldr_and_Forall. destruct alt as [a|]; split.
  - intros (H1 & H2 & H3). split; [exact H1|]. split; [exact H2|].
    intros a' [= <-]. exact H3.
  - intros (H1 & H2 & H3). auto.
  - intros (H1 & H2 & _). split; [exact H1|]. split; [exact H2|].
    discriminate.
  - intros (H1 & H2 & _). auto.
Qed.

(** Well-formedness does not read the offsets or the character buffer of
    the block itself. *)
Lemma well_formed_frame (T : Template.t) (s e : option nat) (ic : list ascii) :
  well_formed T →
  well_formed (Template.mk s e ic (Template.input_text T)
                 (Template._components T) (Template._templates T)
                 (Template._variables T) (Template._alternative T)).
Proof. destruct T. intros H. exact H. Qed.

Lemma template_append_inv (c c' : Template.t) (char : ascii) :
  Template.append c char = Ok c' →
  ∃ s, Template.start_index c = Some s ∧ Template._end_index c = None ∧
       c' = Template.mk (Some s) None (Template._input_characters c ++ [char])
              (Template.input_text c) (Template._components c)
              (Template._templates c) (Template._variables c)
              (Template._alternative c).
Proof.
  unfold Template.append, PromptComponent.append.
  destruct (Template.start_index c) as [s|]; [|discriminate].
  destruct (Template._end_index c); [discriminate|].
  simpl. intros [= <-]. exists s. auto.
Qed.

Section scanner.
(** The recursive parser at hand, the text being scanned, and the start
    offset of the Template being filled. *)
Context (rec : Template.t → result Template.t).
Context (src : string) (si : option nat).

(** What is assumed of the recursive calls. *)
Hypothesis rec_well_formed : ∀ self T,
  pristine self → rec self = Ok T →
  well_formed T ∧ Template.start_index T = Template.start_index self.

(** Appending a character to the Template under construction. *)
Lemma append_current (i depth : nat) (st : Template.scanner)
    (c : Template.t) (char : ascii) :
  scan_inv src si i st →
  Template.current_component st = Some (Template.IsTemplate c) →
  step_post src si i
    (c ← Template.append c char;
     Ok (Template.Continue
           (Template.mkScanner (Template.self st)
              (Some (Template.IsTemplate c)) depth))).
Proof.
  intros (Htext & Halt & b & Hf & Hcur) Hc.
  destruct (Template.append c char) as [c'|] eqn:Happ; simpl; [|exact I].
  apply template_append_inv in Happ as (s & Hs & He & ->).
  rewrite Hc in Hcur. destruct Hcur as (s' & Hs' & _ & Hp & Hb & Hlen).
  rewrite Hs in Hs'. injection Hs' as <-.
  split; [exact Htext|]. split; [exact Halt|].
  exists b. split; [exact Hf|]. simpl.
  exists s. repeat split; auto; try apply Hp.
  simpl. rewrite length_app. simpl. lia.
Qed.

Lemma variables_of_snoc (cs : list Template.component)
    (c : Template.component) :
  variables_of (cs ++ [c]) =
    variables_of cs ++
    match c with Template.IsVariable v => [v] | _ => [] end.
Proof. unfold variables_of. rewrite omap_app. destruct c; reflexivity. Qed.

Lemma templates_of_snoc (cs : list Template.component)
    (c : Template.component) :
  templates_of (cs ++ [c]) =
    templates_of cs ++
    match c with Template.IsTemplate t => [t] | _ => [] end.
Proof. unfold templates_of. rewrite omap_app. destruct c; reflexivity. Qed.

(** Closing the Template under construction at offset [i]. *)
Lemma close_template_post (i : nat) (st : Template.scanner) (c : Template.t) :
  scan_inv src si i st →
  Template.current_component st = Some (Template.IsTemplate c) →
  step_post src si i
    (st ← Template.close_and_save_template rec st c i;
     Ok (Template.Continue st)).
Proof.
  intros (Htext & Halt & b & Hf & Hcur) Hc.
  rewrite Hc in Hcur. destruct Hcur as (s & Hs & He & Hp & Hb & Hlen).
  unfold Template.close_and_save_template, Template.close,
    Template._before_close.
  destruct (rec _) as [c1|] eqn:Hrec; simpl; [|exact I].
  apply rec_well_formed in Hrec as [Hwf Hstart]; [|exact Hp].
  simpl in Hstart. rewrite Hs in Hstart.
  destruct Hf as [Hfs Hfv Hft Hfc Hfw Hfsp].
  split; [exact Htext|]. split; [exact Halt|].
  exists (i + 1). split; [|simpl; lia].
  split; simpl; auto.
  - rewrite variables_of_snoc, app_nil_r. exact Hfv.
  - rewrite templates_of_snoc, Hft. reflexivity.
  - apply Forall_app. split; [exact Hfw|].
    constructor; [|constructor]. apply well_formed_frame. exact Hwf.
  - eapply (spans_ok_snoc _ _ s (i + 1)); eauto; simpl; try lia.
Qed.

(** Closing the Variable under construction at offset [i]. *)
Lemma close_variable_post (i : nat) (st : Template.scanner) (v : Var.t) :
  scan_inv src si i st →
  Template.current_component st = Some (Template.IsVariable v) →
  step_post src si i
    (st ← Template.close_and_save_variable st v i;
     Ok (Template.Continue st)).
Proof.
  intros (Htext & Halt & b & Hf & Hcur) Hc.
  rewrite Hc in Hcur. destruct Hcur as (s & cs & Hv & Hb & Hsi).
  unfold Template.close_and_save_variable.
  destruct (Var.close v (i + 1)) as [v'|] eqn:Hclose; simpl; [|exact I].
  assert (Hclosed : Var.closed v').
  { exists s, cs, (i + 1). unfold Var.build. rewrite Hv. exact Hclose. }
  destruct (close_inv s cs v v' (i + 1)
              (append_all_under_construction s cs v Hv) Hclose)
    as (Hs' & He' & _).
  destruct Hf as [Hfs Hfv Hft Hfc Hfw Hfsp].
  split; [exact Htext|]. split; [exact Halt|].
  exists (i + 1). split; [|simpl; lia].
  split; simpl; auto.
  - rewrite variables_of_snoc, Hfv. reflexivity.
  - rewrite templates_of_snoc, app_nil_r. exact Hft.
  - apply Forall_app. split; [exact Hfc|]. constructor; [exact Hclosed|].
    constructor.
  - eapply (spans_ok_snoc _ _ s (i + 1)); eauto; lia.
Qed.

Lemma slice_to_length (n : nat) (s : string) :
  String.length (slice_to n s) = n `min` String.length s.
Proof.
  unfold slice_to. rewrite join_length, length_take, chars_length.
  reflexivity.
Qed.

Lemma slice_from_length (n : nat) (s : string) :
  String.length (slice_from n s) = String.length s - n.
Proof.
  unfold slice_from. rewrite join_length, length_drop, chars_length.
  reflexivity.
Qed.

(** A separator outside any component: the rest of the text becomes the
    alternative and the loop is left. *)
Lemma separator_post (i : nat) (st : Template.scanner) :
  scan_inv src si i st →
  i < String.length src →
  Template.current_component st = None →
  step_post src si i
    (alternative ← Template.init rec None (Some (slice_from (i + 1) src));
     Ok (Template.Break
           (Template.mkScanner
              (Template.mk (Template.start_index (Template.self st))
                 (Template._end_index (Template.self st))
                 (Template._input_characters (Template.self st))
                 (Some (slice_to i src))
                 (Template._components (Template.self st))
                 (Template._templates (Template.self st))
                 (Template._variables (Template.self st))
                 (Some alternative))
              (Template.current_component st)
              (Template.nested_template_stack st)))).
Proof.
  intros (Htext & Halt & b & Hf & Hcur) Hi Hc.
  rewrite Hc in Hcur. simpl in Hcur.
  unfold Template.init.
  destruct (rec _) as [a|] eqn:Hrec; simpl; [|exact I].
  apply rec_well_formed in Hrec as [Hwf _];
    [|repeat split; reflexivity].
  exists (slice_to i src), b. simpl. split; [reflexivity|].
  split; [rewrite slice_to_length; lia|].
  split; [destruct Hf; split; assumption|].
  intros a' [= <-]. exact Hwf.
Qed.

(** Appending a character to the Variable under construction. *)
Lemma append_variable_post (i : nat) (st : Template.scanner) (v : Var.t)
    (char : ascii) :
  scan_inv src si i st →
  Template.current_component st = Some (Template.IsVariable v) →
  step_post src si i
    (v ← Var.append v char;
     Ok (Template.Continue
           (Template.with_current st (Some (Template.IsVariable v))))).
Proof.
  intros (Htext & Halt & b & Hf & Hcur) Hc.
  rewrite Hc in Hcur. destruct Hcur as (s & cs & Hv & Hb & Hsi).
  destruct (Var.append v char) as [v'|] eqn:Happ; simpl; [|exact I].
  split; [exact Htext|]. split; [exact Halt|].
  exists b. split; [exact Hf|]. simpl.
  exists s, (cs ++ [char]). rewrite append_all_snoc, Hv. simpl.
  repeat split; auto.
Qed.

(** Opening a component at offset [i], or reading literal text there. *)
Lemma open_post (i : nat) (st : Template.scanner)
    (c : option Template.component) :
  scan_inv src si i st →
  Template.current_component st = None →
  c = None ∨ c = Some (Template.IsTemplate (Template.fresh (Some i) None)) ∨
  c = Some (Template.IsVariable (Var.new (Some i))) →
  scan_inv src si (S i) (Template.with_current st c).
Proof.
  intros (Htext & Halt & b & Hf & Hcur) Hc Hnew.
  rewrite Hc in Hcur. simpl in Hcur.
  split; [exact Htext|]. split; [exact Halt|].
  exists b. split; [exact Hf|]. simpl.
  destruct Hnew as [-> | [-> | ->]]; simpl.
  - lia.
  - exists i. repeat split; auto; lia.
  - exists i, []. repeat split; auto; lia.
Qed.

(** Every iteration of the loop keeps the invariant, or leaves the loop in
    a final state, or raises. *)
Lemma step_inv (i : nat) (char : ascii) (st : Template.scanner) :
  scan_inv src si i st →
  i < String.length src →
  step_post src si i (Template.step rec src i char st).
Proof.
  intros Hinv Hi. unfold Template.step.
  destruct (negb (char_in_tuple char Template.characters_to_check)).
  - destruct (Template.current_component st) as [[c|v]|] eqn:Hc.
    + apply append_current; assumption.
    + apply append_variable_post; assumption.
    + destruct st as [self cur stack]. simpl in Hc. subst cur.
      apply (open_post i _ None Hinv); auto.
  - destruct (Template.classify char);
      destruct (Template.current_component st) as [[c|v]|] eqn:Hc;
      try exact I;
      try (apply append_current; assumption);
      try (apply (open_post i st); auto; fail).
    + destruct (Template.nested_template_stack st).
      * apply close_template_post; assumption.
      * apply append_current; assumption.
    + pose proof (separator_post i st Hinv Hi Hc) as H.
      rewrite Hc in H. exact H.
    + apply close_variable_post; assumption.
Qed.

Lemma scan_inv_done (st : Template.scanner) :
  scan_inv src si (String.length src) st → scan_done si st.
Proof.
  intros (Htext & Halt & b & Hf & Hcur).
  exists src, b. split; [exact Htext|]. split; [|split; [exact Hf|]].
  - destruct (Template.current_component st) as [[c|v]|]; simpl in Hcur.
    + destruct Hcur as (s & _ & _ & _ & Hb & Hlen). lia.
    + destruct Hcur as (s & cs & _ & Hb & Hlen). lia.
    + exact Hcur.
  - rewrite Halt. discriminate.
Qed.

(** The loop, from any offset on. *)
Lemma scan_spec (rest : list ascii) : ∀ i st st',
  i + length rest = String.length src →
  scan_inv src si i st →
  Template.scan rec src i rest st = Ok st' →
  scan_done si st'.
Proof.
  induction rest as [|char rest IH]; simpl; intros i st st' Hlen Hinv Hscan.
  - injection Hscan as <-. apply scan_inv_done.
    replace (String.length src) with i by lia. exact Hinv.
  - pose proof (step_inv i char st Hinv ltac:(lia)) as Hstep.
    destruct (Template.step rec src i char st) as [[st1|st1]|]; simpl in Hstep.
    + eapply (IH (S i)); eauto. lia.
    + injection Hscan as <-. exact Hstep.
    + discriminate.
Qed.

(** The body of [_parse_and_validate] on a pristine Template. *)
Lemma parse_and_validate_body_well_formed (self T : Template.t) :
  Template.input_text self = Some src →
  Template.start_index self = si →
  pristine self →
  Template.parse_and_validate_body rec self = Ok T →
  well_formed T ∧ Template.start_index T = si.
Proof.
  intros Htext Hsi (Hc & Ht & Hv & Ha) Hparse.
  unfold Template.parse_and_validate_body in Hparse. rewrite Htext in Hparse.
  inv_bind Hparse. rename a into st.
  apply scan_spec in Ha0; [|rewrite chars_length; lia|].
  - destruct Ha0 as (text' & b & Htext' & Hb & [Hfs Hfv Hft Hfc Hfw Hfsp] & Halt).
    unfold Template.finish in Hparse. rewrite Htext' in Hparse.
    assert (Hne : text' ≠ "" ∧
                  Template.self st = T).
    { destruct text'; [discriminate|]. split; [discriminate|].
      destruct (Template.current_component st) as [c|].
      - destruct (Template.component_start_index c); discriminate.
      - injection Hparse as <-. reflexivity. }
    destruct Hne as [Hne <-]. split; [|exact Hfs].
    apply well_formed_unfold. split; [|split; assumption].
    split; [|auto].
    exists text'. split; [exact Htext'|]. split; [exact Hne|].
    eapply spans_ok_mono; eauto.
  - split; [exact Htext|]. split; [exact Ha|]. exists 0. split.
    + split; simpl; rewrite ?Hc, ?Ht, ?Hv; auto. simpl. lia.
    + simpl. lia.
Qed.

End scanner.

(** [_parse_and_validate] on a pristine Template, whatever the fuel. *)
Lemma parse_and_validate_well_formed (fuel : nat) : ∀ self T,
  pristine self →
  Template._parse_and_validate fuel self = Ok T →
  well_formed T ∧ Template.start_index T = Template.start_index self.
Proof.
  induction fuel as [|fuel IH]; intros self T Hp Hparse; [discriminate|].
  simpl in Hparse.
  destruct (Template.input_text self) as [src|] eqn:Htext.
  - eapply parse_and_validate_body_well_formed; eauto.
  - unfold Template.parse_and_validate_body in Hparse.
    rewrite Htext in Hparse. discriminate.
Qed.

(** Every Template that parsing constructs is well formed. *)
Lemma parse_well_formed (source : string) (T : Template.t) :
  Template.parse source = Ok T → well_formed T.
Proof.
  unfold Template.parse, Template.init. intros H.
  apply parse_and_validate_well_formed in H; [apply H|].
  repeat split; reflexivity.
Qed.

(** ** Text reconstruction *)

Lemma append_assoc (a b c : string) : (a +:+ b) +:+ c = a +:+ b +:+ c.
Proof.
  rewrite <- (join_chars ((a +:+ b) +:+ c)), <- (join_chars (a +:+ b +:+ c)).
  rewrite !chars_app, app_assoc. reflexivity.
Qed.

Lemma slice_to_from (n : nat) (s : string) :
  slice_to n s +:+ slice_from n s = s.
Proof.
  unfold slice_to, slice_from.
  rewrite <- join_app, take_drop. apply join_chars.
Qed.

(** Below the end of an untouched prefix, a slice reads the original
    text. *)
Lemma slice_to_prefix (s e : nat) (text rest : string) :
  s ≤ e → e ≤ String.length text →
  slice_to s (slice_to e text +:+ rest) = slice_to s text.
Proof.
  intros Hse He. unfold slice_to.
  rewrite chars_app, chars_join, take_app_le, take_take.
  - replace (s `min` e) with s by lia. reflexivity.
  - rewrite length_take, chars_length. lia.
Qed.

Lemma slice_from_prefix (e : nat) (text rest : string) :
  e ≤ String.length text →
  slice_from e (slice_to e text +:+ rest) = rest.
Proof.
  intros He. unfold slice_to, slice_from.
  rewrite chars_app, chars_join, drop_app_length'.
  - apply join_chars.
  - rewrite length_take, chars_length. lia.
Qed.

Lemma slice_to_segment (lo s : nat) (text : string) :
  lo ≤ s → slice_to lo text +:+ segment text lo s = slice_to s text.
Proof.
  intros Hle. unfold segment, slice_to, slice_from.
  rewrite chars_join, <- join_app, take_take_drop.
  replace (lo + (s - lo)) with s by lia. reflexivity.
Qed.

Lemma pop_snoc {A} (l : list A) (x : A) : pop (l ++ [x]) = Ok (x, l).
Proof. unfold pop. rewrite reverse_snoc, reverse_involutive. reflexivity. Qed.

(** [for_reversed] runs the body over the reversed list, from its first
    item on. *)
Lemma for_reversed_reverse {A S} (body : A → S → result S) (l : list A)
    (s : S) :
  for_reversed body l s =
    foldl (λ r x, s' ← r; body x s') (Ok s) (reverse l).
Proof.
  induction l as [|x l IH]; [reflexivity|].
  rewrite reverse_cons, foldl_app. simpl. rewrite IH. reflexivity.
Qed.

Section reconstruction.
Context (params : gmap string string) (text : string).

(** The loop of [_substitute_all_components] over the components [suf],
    whose spans lie in order at or after offset [lo]: it leaves the text up to
    [lo] as it was, followed by the reconstruction from [lo] on, and it pops
    exactly the substitutions of the variables among [suf]. *)
Lemma splice_loop (suf : list Template.component) :
  ∀ lo subs_pre subs_suf texts,
  spans_ok lo suf (String.length text) →
  component_texts (Template.substitute params) suf subs_suf = Some texts →
  for_reversed (Template.splice (Template.substitute params)) suf
    (Some text, subs_pre ++ subs_suf) =
  Ok (Some (slice_to lo text +:+ interleave text lo suf texts), subs_pre).
Proof.
  induction suf as [|c suf IH]; intros lo subs_pre subs_suf texts Hsp Htx.
  - simpl in *. destruct subs_suf; [|discriminate]. injection Htx as <-.
    rewrite app_nil_r, slice_to_from. reflexivity.
  - simpl in Hsp. destruct Hsp as (s & e & Hs & He & Hlo & Hse & Hsp).
    pose proof (spans_ok_le _ _ _ Hsp) as Hlen.
    assert (Hfinal : ∀ t texts',
      Template.py_slice_to
          (Some (slice_to e text +:+ interleave text e suf texts'))
          (Template.component_start_index c)
        ≫= (λ before,
          Template.py_slice_from
              (Some (slice_to e text +:+ interleave text e suf texts'))
              (Template.component_end_index c)
          ≫= λ after,
            Template.py_join3 before (Some t) after
            ≫= λ text', Ok (Some text', subs_pre)) =
      Ok (Some (slice_to lo text +:+
                interleave text lo (c :: suf) (t :: texts')), subs_pre)).
    { intros t texts'. rewrite Hs, He. simpl. rewrite Hs, He.
      rewrite slice_to_prefix by lia. rewrite slice_from_prefix by lia.
      rewrite <- (slice_to_segment lo s) by lia.
      rewrite append_assoc. reflexivity. }
    destruct c as [t0|v]; simpl in Htx.
    + destruct (Template.substitute params t0) as [[tx|]|] eqn:Hsub;
        try discriminate.
      destruct (component_texts _ suf subs_suf) as [texts'|] eqn:Htx';
        [|discriminate].
      injection Htx as <-.
      cbn [for_reversed]. rewrite (IH e subs_pre subs_suf texts' Hsp Htx').
      cbn [mbind result_bind]. unfold Template.splice.
      rewrite Hsub. cbn [mbind result_bind]. apply Hfinal.
    + destruct subs_suf as [|t rest]; [discriminate|].
      destruct (component_texts _ suf rest) as [texts'|] eqn:Htx';
        [|discriminate].
      injection Htx as <-.
      cbn [for_reversed].
      replace (subs_pre ++ t :: rest) with ((subs_pre ++ [t]) ++ rest)
        by (rewrite <- app_assoc; reflexivity).
      rewrite (IH e (subs_pre ++ [t]) rest texts' Hsp Htx').
      cbn [mbind result_bind]. unfold Template.splice.
      rewrite pop_snoc. cbn [mbind result_bind]. apply Hfinal.
Qed.

End reconstruction.

Lemma list_comprehension_length {A B} (f : A → result B) (l : list A) :
  ∀ ys, list_comprehension f l = Ok ys → length ys = length l.
Proof.
  induction l as [|x l IH]; simpl; intros ys H.
  - injection H as <-. reflexivity.
  - inv_bind H. inv_bind H. injection H as <-. simpl.
    rewrite (IH _ Ha0). reflexivity.
Qed.

Lemma spans_ok_app_inv (pre suf : list Template.component) : ∀ lo hi,
  spans_ok lo (pre ++ suf) hi → ∃ b, spans_ok lo pre b ∧ spans_ok b suf hi.
Proof.
  induction pre as [|c pre IH]; simpl; intros lo hi H.
  - exists lo. split; [lia | exact H].
  - destruct H as (s & e & Hs & He & Hlo & Hse & H).
    destruct (IH _ _ H) as (b & Hpre & Hsuf).
    exists b. split; [|exact Hsuf]. exists s, e. auto.
Qed.

Section block_substitution.
Context (params : gmap string string).

Lemma component_texts_exists (cs : list Template.component) : ∀ subs,
  length subs = length (variables_of cs) →
  Forall (λ c, ∃ s, Template.substitute params c = Ok (Some s))
         (templates_of cs) →
  ∃ texts, component_texts (Template.substitute params) cs subs = Some texts.
Proof.
  induction cs as [|[t0|v] cs IH]; simpl; intros subs Hlen Hts.
  - destruct subs; [eauto | discriminate].
  - apply Forall_cons in Hts as [(s & Hs) Hts]. rewrite Hs.
    destruct (IH subs Hlen Hts) as (texts & ->). simpl. eauto.
  - destruct subs as [|s subs]; [discriminate|].
    injection Hlen as Hlen.
    destruct (IH subs Hlen Hts) as (texts & ->). simpl. eauto.
Qed.

Lemma component_texts_app_inv (pre suf : list Template.component) :
  ∀ subs texts,
  component_texts (Template.substitute params) (pre ++ suf) subs = Some texts →
  ∃ subs_pre subs_suf texts_suf,
    subs = subs_pre ++ subs_suf ∧
    component_texts (Template.substitute params) suf subs_suf = Some texts_suf.
Proof.
  induction pre as [|[t0|v] pre IH]; simpl; intros subs texts H.
  - exists [], subs, texts. auto.
  - destruct (Template.substitute params t0) as [[tx|]|]; try discriminate.
    destruct (component_texts _ (pre ++ suf) subs) as [texts'|] eqn:Htx;
      [|discriminate].
    exact (IH _ _ Htx).
  - destruct subs as [|s subs]; [discriminate|].
    destruct (component_texts _ (pre ++ suf) subs) as [texts'|] eqn:Htx;
      [|discriminate].
    destruct (IH _ _ Htx) as (subs_pre & subs_suf & texts_suf & -> & Hsuf).
    exists (s :: subs_pre), subs_suf, texts_suf. auto.
Qed.

(** A block that is in order by itself and whose nested Templates
    substitute to strings is rebuilt into the interleaving of its literal text
    and the texts of its components. *)
Lemma reconstruct_block (T : Template.t) (subs : list string) :
  block_ok T →
  Forall (λ c, ∃ s, Template.substitute params c = Ok (Some s))
         (Template._templates T) →
  length subs = length (Template._variables T) →
  ∃ text texts,
    Template.input_text T = Some text ∧
    component_texts (Template.substitute params) (Template._components T) subs
      = Some texts ∧
    Template._substitute_all_components params T subs =
      Ok (Some (interleave text 0 (Template._components T) texts)).
Proof.
  intros ((text & Htext & _ & Hsp) & Hv & Ht & _) Hts Hlen.
  rewrite <- Hv in Hlen. rewrite <- Ht in Hts.
  destruct (component_texts_exists _ subs Hlen Hts) as (texts & Htx).
  exists text, texts. split; [exact Htext|]. split; [exact Htx|].
  unfold Template._substitute_all_components,
    Template.substitute_all_components_with.
  rewrite Htext.
  pose proof (splice_loop params text _ 0 [] subs texts Hsp Htx) as Hloop.
  change ([] ++ subs) with subs in Hloop. rewrite Hloop.
  reflexivity.
Qed.

(** The substitution of a well-formed Template returns a string. *)
Lemma substitute_well_formed (T : Template.t) :
  well_formed T → ∃ s, Template.substitute params T = Ok (Some s).
Proof.
  induction T as [T IHt _ IHa] using template_ind. intros Hwf.
  apply well_formed_unfold in Hwf as (Hb & Hts & Ha).
  rewrite substitute_unfold. unfold Template.variable_substitutions.
  destruct Hb as (Htext & Hv & Ht & Hc).
  destruct (comprehension_cases params _ Hc)
    as [[Hex Hr] | (Hall & subs & Hr & Hf2)]; rewrite Hr.
  - destruct (Template._alternative T) as [a|] eqn:Halt; [|eauto].
    apply (IHa a eq_refl). apply Ha. reflexivity.
  - destruct (reconstruct_block T subs) as (text & texts & _ & _ & ->).
    + repeat split; assumption.
    + rewrite Forall_forall in *. intros c Hin. apply IHt; auto.
    + apply list_comprehension_length in Hr. exact Hr.
    + eauto.
Qed.

End block_substitution.

Lemma well_formed_block_of (root T : Template.t) :
  well_formed root → block_of root T → well_formed T.
Proof.
  intros Hroot. induction 1 as [|T c _ IH Hc|T a _ IH Ha].
  - exact Hroot.
  - apply well_formed_unfold in IH as (_ & Hts & _).
    rewrite Forall_forall in Hts. apply Hts. exact Hc.
  - apply well_formed_unfold in IH as (_ & _ & Halt). apply Halt. exact Ha.
Qed.

(** C1.  For every Template constructed by parsing and every
    string-to-string mapping, [Template.substitute] returns a string, and so
    does the substitution of every block of the Template.  A [VariableError]
    raised by a direct variable of a block does not leave the block: the
    block then returns what its alternative returns, or the empty string when
    it has no alternative. *)
Theorem C1_substitute_returns_a_string (source : string) (root : Template.t)
    (params : gmap string string) :
  Template.parse source = Ok root →
  (∃ s, Template.substitute params root = Ok (Some s)) ∧
  ∀ T, block_of root T →
    (∃ s, Template.substitute params T = Ok (Some s)) ∧
    (∀ v, v ∈ Template._variables T →
          Var.substitute v params = Raise VariableError →
          Template.substitute params T =
            match Template._alternative T with
            | Some alternative => Template.substitute params alternative
            | None => Ok (Some "")
            end).
Proof.
  intros Hparse. apply parse_well_formed in Hparse as Hroot.
  split; [apply substitute_well_formed; exact Hroot|].
  intros T HT. pose proof (well_formed_block_of root T Hroot HT) as Hwf.
  split; [apply substitute_well_formed; exact Hwf|].
  intros v Hv Hraise.
  apply well_formed_unfold in Hwf as ((_ & _ & _ & Hc) & _ & _).
  rewrite substitute_unfold. unfold Template.variable_substitutions.
  destruct (comprehension_cases params _ Hc)
    as [[Hex Hr] | (Hall & subs & Hr & Hf2)]; rewrite Hr; [reflexivity|].
  exfalso. apply list_elem_of_lookup in Hv as [i Hi].
  destruct (Forall2_lookup_l _ _ _ _ _ Hf2 Hi) as (s & _ & Hs).
  congruence.
Qed.

Lemma C1_substitute_returns_a_string_witness :
  Template.parse "{a}|b" = Ok with_fallback ∧
  ((∃ s, Template.substitute ∅ with_fallback = Ok (Some s)) ∧
   ∀ T, block_of with_fallback T →
     (∃ s, Template.substitute ∅ T = Ok (Some s)) ∧
     (∀ v, v ∈ Template._variables T →
           Var.substitute v ∅ = Raise VariableError →
           Template.substitute ∅ T =
             match Template._alternative T with
             | Some alternative => Template.substitute ∅ alternative
             | None => Ok (Some "")
             end)).
Proof.
  split; [vm_compute; reflexivity|].
  apply (C1_substitute_returns_a_string "{a}|b" with_fallback ∅).
  vm_compute. reflexivity.
Defined.

(** C3.  [_substitute_all_components] runs its loop body over the
    components of the block in reversed order, replacing the span of each
    component by the component's text.  In a block of a parsed Template whose
    direct variables are all satisfied, this right-to-left loop yields the
    left-to-right interleaving of the block's literal text with the texts of
    its components, whatever the lengths of these texts.  At every point of
    the loop, with the components [suf] processed and the components [pre]
    still to come, the rebuilt text begins with the original text up to an
    offset [b] behind all spans of [pre], so the offsets of [pre] address the
    same characters as in the original text.  The template ["A{x}B{y}C"]
    with [x] mapped to ["11"] and [y] to ["2"] substitutes to ["A11B2C"]. *)
Theorem C3_right_to_left_reconstruction :
  (∀ params T subs,
     Template._substitute_all_components params T subs =
       st ← foldl (λ r component,
                     st ← r;
                     Template.splice (Template.substitute params) component st)
                  (Ok (Template.input_text T, subs))
                  (reverse (Template._components T));
       Ok st.1)
  ∧
  (∀ source root T params subs,
     Template.parse source = Ok root →
     block_of root T →
     Template.variable_substitutions params T = Ok subs →
     ∃ text texts,
       Template.input_text T = Some text ∧
       component_texts (Template.substitute params)
         (Template._components T) subs = Some texts ∧
       Template.substitute params T =
         Ok (Some (interleave text 0 (Template._components T) texts)) ∧
       ∀ pre suf, Template._components T = pre ++ suf →
         ∃ b rest subs_pre,
           spans_ok 0 pre b ∧ b ≤ String.length text ∧
           for_reversed (Template.splice (Template.substitute params)) suf
             (Some text, subs) =
           Ok (Some (slice_to b text +:+ rest), subs_pre))
  ∧
  (∃ T, Template.parse "A{x}B{y}C" = Ok T ∧
        Template.substitute {["x" := "11"; "y" := "2"]} T =
          Ok (Some "A11B2C")).
Proof.
  split; [|split].
  - intros params T subs.
    unfold Template._substitute_all_components,
      Template.substitute_all_components_with.
    rewrite for_reversed_reverse. reflexivity.
  - intros source root T params subs Hparse HT Hsubs.
    apply parse_well_formed in Hparse.
    pose proof (well_formed_block_of root T Hparse HT) as Hwf.
    apply well_formed_unfold in Hwf as (Hb & Hts & _).
    destruct (reconstruct_block params T subs Hb) as (text & texts & Htext & Htx & Hrec).
    + rewrite Forall_forall in *. intros c Hc.
      apply substitute_well_formed. auto.
    + eapply list_comprehension_length. exact Hsubs.
    + exists text, texts. split; [exact Htext|]. split; [exact Htx|]. split.
      * rewrite substitute_unfold, Hsubs. exact Hrec.
      * intros pre suf Hsplit.
        destruct Hb as ((text' & Htext' & _ & Hsp) & _).
        rewrite Htext in Htext'. injection Htext' as <-.
        rewrite Hsplit in Hsp, Htx.
        apply spans_ok_app_inv in Hsp as (b & Hpre & Hsuf).
        apply component_texts_app_inv in Htx
          as (subs_pre & subs_suf & texts_suf & -> & Hsuftx).
        exists b, (interleave text b suf texts_suf), subs_pre.
        split; [exact Hpre|]. split; [eapply spans_ok_le; eauto|].
        apply splice_loop; assumption.
  - eexists. split; vm_compute; reflexivity.
Qed.

Lemma C3_right_to_left_reconstruction_witness :
  Template.parse "A{x}B{y}C" = Ok two_variables ∧
  block_of two_variables two_variables ∧
  Template.variable_substitutions {["x" := "11"; "y" := "2"]} two_variables
    = Ok ["11"; "2"] ∧
  ∃ text texts,
    Template.input_text two_variables = Some text ∧
    component_texts (Template.substitute {["x" := "11"; "y" := "2"]})
      (Template._components two_variables) ["11"; "2"] = Some texts ∧
    Template.substitute {["x" := "11"; "y" := "2"]} two_variables =
      Ok (Some (interleave text 0 (Template._components two_variables) texts)) ∧
    ∀ pre suf, Template._components two_variables = pre ++ suf →
      ∃ b rest subs_pre,
        spans_ok 0 pre b ∧ b ≤ String.length text ∧
        for_reversed
          (Template.splice (Template.substitute {["x" := "11"; "y" := "2"]}))
          suf (Some text, ["11"; "2"]) =
        Ok (Some (slice_to b text +:+ rest), subs_pre).
Proof.
  assert (H1 : Template.parse "A{x}B{y}C" = Ok two_variables)
    by (vm_compute; reflexivity).
  assert (H2 : Template.variable_substitutions {["x" := "11"; "y" := "2"]}
                 two_variables = Ok ["11"; "2"])
    by (vm_compute; reflexivity).
  split; [exact H1|]. split; [apply block_root|]. split; [exact H2|].
  exact (proj1 (proj2 C3_right_to_left_reconstruction) "A{x}B{y}C"
           two_variables two_variables {["x" := "11"; "y" := "2"]}
           ["11"; "2"]
           H1 (block_root two_variables) H2).
Defined.

(** ** The parser does not depend on its fuel *)

Lemma template_append_fuel (c : Template.t) (char : ascii) :
  Template.append c char ≠ Raise FuelExhausted.
Proof.
  unfold Template.append, PromptComponent.append.
  destruct (Template.start_index c); [|discriminate].
  destruct (Template._end_index c); discriminate.
Qed.

Lemma variable_append_fuel (v : Var.t) (char : ascii) :
  Var.append v char ≠ Raise FuelExhausted.
Proof.
  assert (Hsuper : ∀ v, Var.super_append v char ≠ Raise FuelExhausted).
  { intros v0. unfold Var.super_append, PromptComponent.append.
    destruct (Var.start_index v0); [|discriminate].
    destruct (Var._end_index v0); [discriminate|].
    simpl. discriminate. }
  unfold Var.append.
  destruct (Var.targets_required_value v); [apply Hsuper|].
  destruct (char_in_tuple char sc.VARIABLE_OPTIONS_chars).
  - unfold Var._process_option, Var._mute.
    destruct (Ascii.eqb char sc.VARIABLE_OPTIONS.MUTE).
    + destruct (_ && _); discriminate.
    + destruct (Ascii.eqb char sc.VARIABLE_OPTIONS.EQ); discriminate.
  - destruct (negb _); [discriminate | apply Hsuper].
Qed.

Lemma variable_close_fuel (v : Var.t) (e : nat) :
  Var.close v e ≠ Raise FuelExhausted.
Proof.
  unfold Var.close, Var._before_close, Var._set_required_value, Var._set_key.
  destruct (Var._required_value_characters v).
  - destruct (Var.targets_required_value v); [discriminate|]. simpl.
    destruct (Var._key_characters v); discriminate.
  - simpl. destruct (Var._key_characters v); discriminate.
Qed.

Section fuel.
Context (rec1 rec2 : Template.t → result Template.t) (src : string).
Hypothesis rec_agree : agree_below (String.length src) rec1 rec2.

Lemma append_same (i depth : nat) (self c : Template.t) (char : ascii) :
  length (Template._input_characters c) < i →
  let r :=
    c ← Template.append c char;
    Ok (Template.Continue
          (Template.mkScanner self (Some (Template.IsTemplate c)) depth)) in
  same_step i r r.
Proof.
  intros Hlen r. subst r.
  pose proof (template_append_fuel c char) as Hfuel.
  destruct (Template.append c char) as [c'|e] eqn:Happ; simpl.
  - apply template_append_inv in Happ as (s & _ & _ & ->).
    split; [reflexivity|]. split; [discriminate|].
    unfold captured_short. simpl. rewrite length_app. simpl. lia.
  - split; [reflexivity|]. split; [congruence | exact I].
Qed.

Lemma variable_append_same (i : nat) (st : Template.scanner) (v : Var.t)
    (char : ascii) :
  let r :=
    v ← Var.append v char;
    Ok (Template.Continue
          (Template.with_current st (Some (Template.IsVariable v)))) in
  same_step i r r.
Proof.
  intros r. subst r.
  pose proof (variable_append_fuel v char) as Hfuel.
  destruct (Var.append v char) as [v'|e]; simpl.
  - split; [reflexivity|]. split; [discriminate | exact I].
  - split; [reflexivity|]. split; [congruence | exact I].
Qed.

Lemma close_variable_same (i : nat) (st : Template.scanner) (v : Var.t) :
  let r :=
    st ← Template.close_and_save_variable st v i;
    Ok (Template.Continue st) in
  same_step i r r.
Proof.
  intros r. subst r. unfold Template.close_and_save_variable.
  pose proof (variable_close_fuel v (i + 1)) as Hfuel.
  destruct (Var.close v (i + 1)) as [v'|e]; simpl.
  - split; [reflexivity|]. split; [discriminate | exact I].
  - split; [reflexivity|]. split; [congruence | exact I].
Qed.

(** Closing a nested Template parses a text shorter than the one being
    scanned. *)
Lemma close_template_same (i : nat) (st : Template.scanner) (c : Template.t) :
  i < String.length src →
  length (Template._input_characters c) < i →
  same_step i
    (st ← Template.close_and_save_template rec1 st c i;
     Ok (Template.Continue st))
    (st ← Template.close_and_save_template rec2 st c i;
     Ok (Template.Continue st)).
Proof.
  intros Hi Hlen.
  unfold Template.close_and_save_template, Template.close,
    Template._before_close.
  destruct (rec_agree
              (Template.with_input_text c
                 (Some (join (Template._input_characters c))))
              (join (Template._input_characters c)) eq_refl)
    as [Heq Hfuel]; [rewrite join_length; lia|].
  rewrite <- Heq.
  destruct (rec1 _) as [c'|e]; simpl.
  - split; [reflexivity|]. split; [discriminate | exact I].
  - split; [reflexivity|]. split; [congruence | exact I].
Qed.

(** So does parsing the alternative behind a separator. *)
Lemma separator_same (i : nat) (g : Template.t → Template.scanner) :
  i < String.length src →
  same_step i
    (alternative ← Template.init rec1 None (Some (slice_from (i + 1) src));
     Ok (Template.Break (g alternative)))
    (alternative ← Template.init rec2 None (Some (slice_from (i + 1) src));
     Ok (Template.Break (g alternative))).
Proof.
  intros Hi. unfold Template.init.
  destruct (rec_agree
              (Template.fresh None (Some (slice_from (i + 1) src)))
              (slice_from (i + 1) src) eq_refl)
    as [Heq Hfuel]; [rewrite slice_from_length; lia|].
  rewrite <- Heq.
  destruct (rec1 _) as [a|e]; simpl.
  - split; [reflexivity|]. split; [discriminate | exact I].
  - split; [reflexivity|]. split; [congruence | exact I].
Qed.

Lemma continue_same (i : nat) (st : Template.scanner) :
  captured_short (S i) st →
  same_step i (Ok (Template.Continue st)) (Ok (Template.Continue st)).
Proof. intros H. split; [reflexivity|]. split; [discriminate | exact H]. Qed.

Lemma raise_same (i : nat) (message : string)
    (d : option SyntaxErrorDetails) :
  same_step i (Raise (PromptSyntaxError message d))
              (Raise (PromptSyntaxError message d)).
Proof. split; [reflexivity|]. split; [discriminate | exact I]. Qed.

(** An iteration gives the same with either version of the recursive
    parser. *)
Lemma step_same (i : nat) (char : ascii) (st : Template.scanner) :
  i < String.length src →
  captured_short i st →
  same_step i (Template.step rec1 src i char st)
              (Template.step rec2 src i char st).
Proof.
  intros Hi Hshort. unfold Template.step, captured_short in *.
  destruct (negb (char_in_tuple char Template.characters_to_check)).
  - destruct (Template.current_component st) as [[c|v]|] eqn:Hc.
    + apply append_same. exact Hshort.
    + apply variable_append_same.
    + apply continue_same. unfold captured_short. rewrite Hc. exact I.
  - destruct (Template.classify char);
      destruct (Template.current_component st) as [[c|v]|] eqn:Hc;
      try apply raise_same;
      try (apply append_same; exact Hshort);
      try (apply continue_same; unfold captured_short; simpl; lia).
    + destruct (Template.nested_template_stack st).
      * apply close_template_same; assumption.
      * apply append_same. exact Hshort.
    + apply (separator_same i
               (λ alternative,
                  Template.mkScanner
                    (Template.mk (Template.start_index (Template.self st))
                       (Template._end_index (Template.self st))
                       (Template._input_characters (Template.self st))
                       (Some (slice_to i src))
                       (Template._components (Template.self st))
                       (Template._templates (Template.self st))
                       (Template._variables (Template.self st))
                       (Some alternative))
                    None (Template.nested_template_stack st))).
      exact Hi.
    + apply close_variable_same.
Qed.

(** The loop gives the same with either version. *)
Lemma scan_same (rest : list ascii) : ∀ i st,
  i + length rest = String.length src →
  captured_short i st →
  Template.scan rec1 src i rest st = Template.scan rec2 src i rest st ∧
  Template.scan rec1 src i rest st ≠ Raise FuelExhausted.
Proof.
  induction rest as [|char rest IH]; simpl; intros i st Hlen Hshort.
  - split; [reflexivity | discriminate].
  - destruct (step_same i char st ltac:(lia) Hshort) as (Heq & Hfuel & Hnext).
    rewrite <- Heq.
    destruct (Template.step rec1 src i char st) as [[st1|st1]|e].
    + apply IH; [lia | exact Hnext].
    + split; [reflexivity | discriminate].
    + split; [reflexivity | congruence].
Qed.

End fuel.

Lemma finish_fuel (text : string) (st : Template.scanner) :
  Template.finish text st ≠ Raise FuelExhausted.
Proof.
  unfold Template.finish.
  destruct (Template.input_text (Template.self st)) as [[|a s]|];
    try discriminate;
    destruct (Template.current_component st) as [c|]; try discriminate;
    destruct (Template.component_start_index c); discriminate.
Qed.

(** The body of [_parse_and_validate] gives the same with two versions of
    the recursive parser that agree on the texts shorter than the one to be
    parsed. *)
Lemma parse_and_validate_body_same
    (rec1 rec2 : Template.t → result Template.t) (self : Template.t)
    (text : string) :
  Template.input_text self = Some text →
  agree_below (String.length text) rec1 rec2 →
  Template.parse_and_validate_body rec1 self =
    Template.parse_and_validate_body rec2 self ∧
  Template.parse_and_validate_body rec1 self ≠ Raise FuelExhausted.
Proof.
  intros Htext Hagree. unfold Template.parse_and_validate_body. rewrite Htext.
  destruct (scan_same rec1 rec2 text Hagree (chars text) 0
              (Template.mkScanner self None 0))
    as [Heq Hfuel]; [rewrite chars_length; lia | exact I |].
  rewrite <- Heq.
  destruct (Template.scan rec1 text 0 (chars text) _) as [st|e]; simpl.
  - split; [reflexivity | apply finish_fuel].
  - split; [reflexivity | congruence].
Qed.

(** With fuel beyond the length of the text, the amount of fuel does not
    matter and does not run out. *)
Lemma parse_and_validate_fuel (n : nat) : ∀ fuel1 fuel2,
  n ≤ fuel1 → n ≤ fuel2 →
  agree_below n (Template._parse_and_validate fuel1)
                (Template._parse_and_validate fuel2).
Proof.
  induction n as [|n IH]; intros fuel1 fuel2 H1 H2 self text Htext Hlen;
    [lia|].
  destruct fuel1 as [|fuel1]; [lia|]. destruct fuel2 as [|fuel2]; [lia|].
  simpl. apply (parse_and_validate_body_same _ _ self text Htext).
  intros self' text' Htext' Hlen'.
  apply (IH fuel1 fuel2 ltac:(lia) ltac:(lia) self' text' Htext'). lia.
Qed.

(** [Template.parse] is the parser run with enough fuel: more fuel gives the
    same answer, and the answer is never that the fuel ran out. *)
Lemma parse_fuel_irrelevant (text : string) (fuel : nat) :
  String.length text < fuel →
  Template.init (Template._parse_and_validate fuel) None (Some text) =
    Template.parse text ∧
  Template.parse text ≠ Raise FuelExhausted.
Proof.
  intros Hfuel. unfold Template.parse, Template.init.
  destruct (parse_and_validate_fuel (S (String.length text))
              (S (String.length text)) fuel ltac:(lia) ltac:(lia)
              (Template.fresh None (Some text)) text eq_refl ltac:(lia))
    as [Heq Hne].
  split; [symmetry; exact Heq | exact Hne].
Qed.

(** ** The model on the repository's tests

    The expected values are those of [tests/test_substitution.py],
    [tests/test_getting_variables.py] and [tests/test_errors.py]. *)

Example test_variable_basic :
  run "{var_1}" params_odd true = Ok (Some "value_1") ∧
  run "{var_1}" params_even true = Ok (Some "").
Proof. split; vm_compute; reflexivity. Qed.

Example test_muted :
  run "Show this {~but_not_this}"
      [(Prompt.KStr "but_not_this", Prompt.VStr "value")] true =
    Ok (Some "Show this").
Proof. vm_compute. reflexivity. Qed.

Example test_empty_value :
  run "{is_this_expanded_to_an_empty_stting} - no"
      [(Prompt.KStr "is_this_expanded_to_an_empty_stting", Prompt.VStr "")]
      true = Ok (Some "").
Proof. vm_compute. reflexivity. Qed.

Example test_required_value :
  run "Call me only when it's {weather=hot} outside"
      [(Prompt.KStr "weather", Prompt.VStr "hot")] true =
    Ok (Some "Call me only when it's hot outside") ∧
  run "Call me only when it's {weather=hot} outside"
      [(Prompt.KStr "weather", Prompt.VStr "cold")] true = Ok (Some "") ∧
  run "Call me only when it's {weather=hot} outside" [] true = Ok (Some "").
Proof. repeat split; vm_compute; reflexivity. Qed.

Example test_muted_required_value :
  run "{~sleep=well} Let's go for a run! | Stay in bed"
      [(Prompt.KStr "sleep", Prompt.VStr "well")] true =
    Ok (Some "Let's go for a run!") ∧
  run "{~sleep=well} Let's go for a run! | Stay in bed"
      [(Prompt.KStr "sleep", Prompt.VStr "bad")] true = Ok (Some "Stay in bed").
Proof. split; vm_compute; reflexivity. Qed.

Example test_alternative_to_required_value :
  run "Are these identical? [Sure! {~var_1} | {var_2=Sure!}]"
      [(Prompt.KStr "var_1", Prompt.VStr "Sure!")] true =
    Ok (Some "Are these identical? Sure!") ∧
  run "Are these identical? [Sure! {~var_1} | {var_2=Sure!}]"
      [(Prompt.KStr "var_2", Prompt.VStr "Sure!")] true =
    Ok (Some "Are these identical? Sure!").
Proof. split; vm_compute; reflexivity. Qed.

Example test_template_variable :
  run "Now [it depends on {var_1}]" params_odd true =
    Ok (Some "Now it depends on value_1") ∧
  run "Now [it depends on {var_1}]" params_even true = Ok (Some "Now").
Proof. split; vm_compute; reflexivity. Qed.

Example test_deep_nesting :
  run "[Insane? [- Yes, [but [should [still [be [ok.[.[.[.]]]]]]]]]]" [] true =
    Ok (Some "Insane? - Yes, but should still be ok....").
Proof. vm_compute. reflexivity. Qed.

Example test_multiple_variables :
  run "Only if {var_1} and {var_2} are known" params_all true =
    Ok (Some "Only if value_1 and value_2 are known") ∧
  run "Only if {var_1} and {var_2} are known" params_even true = Ok (Some "") ∧
  run "Only if {var_1} and {var_2} are known" params_odd true = Ok (Some "") ∧
  run "Only if {var_1} and {var_2} are known" [] true = Ok (Some "").
Proof. repeat split; vm_compute; reflexivity. Qed.

Example test_separator_basic :
  run "Blue if {var_1} | Red if {var_2}" params_all true =
    Ok (Some "Blue if value_1") ∧
  run "Blue if {var_1} | Red if {var_2}" params_even true =
    Ok (Some "Red if value_2") ∧
  run "Blue if {var_1} | Red if {var_2}" params_odd true =
    Ok (Some "Blue if value_1") ∧
  run "Blue if {var_1} | Red if {var_2}" [] true = Ok (Some "").
Proof. repeat split; vm_compute; reflexivity. Qed.

Example test_unreachable :
  run "Constant | this is unreachable {var}"
      [(Prompt.KStr "var", Prompt.VStr "value")] true = Ok (Some "Constant").
Proof. vm_compute. reflexivity. Qed.

Example test_separator_nested :
  run "Vote for [me {~var_1} | you {~var_2}]" params_all true =
    Ok (Some "Vote for me") ∧
  run "Vote for [me {~var_1} | you {~var_2}]" params_even true =
    Ok (Some "Vote for you") ∧
  run "Vote for [me {~var_1} | you {~var_2}]" params_odd true =
    Ok (Some "Vote for me").
Proof. repeat split; vm_compute; reflexivity. Qed.

Example test_no_whitespace_reduction :
  run "Don't mess my  {var}"
      [(Prompt.KStr "var", Prompt.VStr "a  e  s  t  h  e  t  i  c  s")]
      false = Ok (Some "Don't mess my  a  e  s  t  h  e  t  i  c  s").
Proof. vm_compute. reflexivity. Qed.

Example test_ok_values :
  run "." [(Prompt.KStr "var", Prompt.VInt 1)] true = Ok (Some ".") ∧
  run "." [(Prompt.KStr "var", Prompt.VBool false)] true = Ok (Some ".") ∧
  run "{var}" [(Prompt.KStr "var", Prompt.VInt (-12))] true = Ok (Some "-12") ∧
  run "{var}" [(Prompt.KStr "var", Prompt.VBool false)] true = Ok (Some "False").
Proof. repeat split; vm_compute; reflexivity. Qed.

Example test_bad_values_and_keys :
  run "." [(Prompt.KStr "var", Prompt.VOther)] true =
    Raise (ParametersTypeError "Key var has a non-string value") ∧
  run "." [(Prompt.KInt 1, Prompt.VStr "value")] true =
    Raise (ParametersTypeError "Key 1 is not a string").
Proof. split; vm_compute; reflexivity. Qed.

Example test_getting_variables :
  variables_of_text "{required} [{optional}]" =
    Ok [mkRequiredAndOptional {[Some "required"]} {[Some "optional"]}] ∧
  variables_of_text "Nothing in here | {required} | [{optional}]" =
    Ok [mkRequiredAndOptional ∅ ∅;
        mkRequiredAndOptional {[Some "required"]} ∅;
        mkRequiredAndOptional ∅ {[Some "optional"]}] ∧
  variables_of_text
    "{var_1} is needed, [{var_2} [and {var_3}] aren't] | {var_4}" =
    Ok [mkRequiredAndOptional {[Some "var_1"]}
                              {[Some "var_2"; Some "var_3"]};
        mkRequiredAndOptional {[Some "var_4"]} ∅] ∧
  variables_of_text
    "{~var_1} and {var_2=value_2} and {~var_3=value_3}|.|." =
    Ok [mkRequiredAndOptional {[Some "var_1"; Some "var_2"; Some "var_3"]} ∅;
        mkRequiredAndOptional ∅ ∅;
        mkRequiredAndOptional ∅ ∅] ∧
  variables_of_text
    "{var_1} [{var_1} [{var_1}]] {var_1} | and again {var_1}" =
    Ok [mkRequiredAndOptional {[Some "var_1"]} {[Some "var_1"]};
        mkRequiredAndOptional {[Some "var_1"]} ∅].
Proof. repeat split; vm_compute; reflexivity. Qed.

Example test_errors :
  Forall (λ template, raises_syntax_error (Template.parse template))
    ["{}"; "{=some_value}"; "{.}"; "{with whitespace}"; "{var=}";
     "{~~var}"; "{var~}"; "{v~ar}"; "{["; "{]"; "{|"; "{{";
     "{"; "["; ""; "[]"; "Test []"; "Test |"; "|"] ∧
  is_Ok (Template.parse "Outside we are free~=").
Proof.
  split.
  - repeat constructor; eexists _, _; vm_compute; reflexivity.
  - eexists. vm_compute. reflexivity.
Qed.

(** * Further properties *)

(** ** Variables *)

Lemma append_all_app (v : Var.t) (cs1 cs2 : list ascii) :
  Var.append_all v (cs1 ++ cs2) =
    Var.append_all v cs1 ≫= λ v', Var.append_all v' cs2.
Proof.
  revert cs1. induction cs2 as [|c cs2 IH] using rev_ind; intros cs1.
  - rewrite app_nil_r. destruct (Var.append_all v cs1); reflexivity.
  - rewrite app_assoc, append_all_snoc, IH.
    destruct (Var.append_all v cs1) as [v'|]; simpl; [|reflexivity].
    rewrite append_all_snoc. reflexivity.
Qed.

Lemma name_safe_not_option (c : ascii) :
  char_in c sc.VARIABLE_NAME_SAFE = true →
  char_in_tuple c sc.VARIABLE_OPTIONS_chars = false.
Proof.
  intros Hsafe.
  destruct (char_in_tuple c sc.VARIABLE_OPTIONS_chars) eqn:Hopt; [|reflexivity].
  apply char_in_options in Hopt as [-> | ->]; vm_compute in Hsafe;
    discriminate.
Qed.

(** Key characters fed to a Variable that captures its key. *)
Lemma append_all_key (start : nat) (muted : bool) (cs : list ascii) :
  ∀ kc,
  name_safe cs →
  Var.append_all
    (Var.mk (Some start) None Var.KeyCharacters muted None None kc []) cs =
  Ok (Var.mk (Some start) None Var.KeyCharacters muted None None (kc ++ cs) []).
Proof.
  induction cs as [|c cs IH] using rev_ind; intros kc Hsafe.
  - rewrite app_nil_r. reflexivity.
  - apply Forall_app in Hsafe as [Hcs Hc]. apply Forall_inv in Hc.
    rewrite append_all_snoc, (IH kc Hcs). simpl.
    unfold Var.append. simpl Var.targets_required_value. cbn iota.
    rewrite (name_safe_not_option c Hc), Hc. simpl.
    rewrite app_assoc. reflexivity.
Qed.

(** Any characters fed to a Variable that captures its required value. *)
Lemma append_all_value (start : nat) (muted : bool) (kc cs : list ascii) :
  ∀ rc,
  Var.append_all
    (Var.mk (Some start) None Var.RequiredValueCharacters muted None None kc rc)
    cs =
  Ok (Var.mk (Some start) None Var.RequiredValueCharacters muted None None kc
        (rc ++ cs)).
Proof.
  induction cs as [|c cs IH] using rev_ind; intros rc.
  - rewrite app_nil_r. reflexivity.
  - rewrite append_all_snoc, (IH rc). simpl. rewrite app_assoc. reflexivity.
Qed.

(** The state of a Variable after the characters of [variable_body]. *)
Lemma append_all_body (start : nat) (muted : bool) (key : list ascii)
    (value : option (list ascii)) :
  name_safe key →
  Var.append_all (Var.new (Some start)) (variable_body muted key value) =
  Ok (Var.mk (Some start) None
        match value with
        | Some _ => Var.RequiredValueCharacters
        | None => Var.KeyCharacters
        end
        muted None None key (default [] value)).
Proof.
  intros Hkey. unfold variable_body.
  assert (Hmute :
    Var.append_all (Var.new (Some start))
      (if muted then [sc.VARIABLE_OPTIONS.MUTE] else []) =
    Ok (Var.mk (Some start) None Var.KeyCharacters muted None None [] [])).
  { destruct muted; reflexivity. }
  rewrite append_all_app, Hmute. simpl.
  rewrite append_all_app, (append_all_key start muted key [] Hkey). simpl.
  destruct value as [vs|]; [|reflexivity].
  change (sc.VARIABLE_OPTIONS.EQ :: vs) with ([sc.VARIABLE_OPTIONS.EQ] ++ vs).
  rewrite append_all_app.
  change (Var.append_all
            (Var.mk (Some start) None Var.KeyCharacters muted None None key [])
            [sc.VARIABLE_OPTIONS.EQ])
    with (Ok (Var.mk (Some start) None Var.RequiredValueCharacters muted None
                None key [])).
  simpl. apply (append_all_value start muted key vs []).
Qed.

(** X1.  A Variable fed the characters between its braces, an optional mute
    marker, a non-empty key of name-safe characters and optionally [=] with a
    non-empty required value of any characters, closes into the Variable with
    that mute flag, key and required value. *)
Theorem X1_variable_round_trip (start e : nat) (muted : bool)
    (key : list ascii) (value : option (list ascii)) :
  key ≠ [] →
  name_safe key →
  value ≠ Some [] →
  Var.build start (variable_body muted key value) e =
    Ok (Var.mk (Some start) (Some e) (Var.Detached []) muted
          (Some (join key)) (join <$> value) [] []).
Proof.
  intros Hne Hsafe Hvalue. unfold Var.build.
  rewrite (append_all_body start muted key value Hsafe). simpl.
  unfold Var.close, Var._before_close, Var._set_required_value, Var._set_key.
  destruct value as [[|v vs]|]; [congruence| |]; simpl;
    (destruct key as [|k key]; [congruence|]); reflexivity.
Qed.

Lemma X1_variable_round_trip_witness :
  chars "sleep" ≠ [] ∧ name_safe (chars "sleep") ∧
  Some (chars "well") ≠ Some [] ∧
  Var.build 1 (variable_body true (chars "sleep") (Some (chars "well"))) 13 =
    Ok (Var.mk (Some 1) (Some 13) (Var.Detached []) true
          (Some (join (chars "sleep"))) (join <$> Some (chars "well")) [] []).
Proof.
  assert (H1 : chars "sleep" ≠ []) by discriminate.
  assert (H2 : name_safe (chars "sleep")) by (repeat constructor).
  assert (H3 : Some (chars "well") ≠ Some []) by discriminate.
  split; [exact H1|]. split; [exact H2|]. split; [exact H3|].
  exact (X1_variable_round_trip 1 13 true (chars "sleep") (Some (chars "well"))
           H1 H2 H3).
Defined.

(** An accepted character leaves the key characters name-safe. *)
Lemma append_key_safe (v v' : Var.t) (c : ascii) :
  Var.append v c = Ok v' →
  name_safe (Var._key_characters v) →
  name_safe (Var._key_characters v').
Proof.
  intros Happ Hsafe. unfold Var.append in Happ.
  assert (Hsuper : ∀ safe : bool,
    (safe = true → char_in c sc.VARIABLE_NAME_SAFE = true) →
    (Var._input_characters v = Var.KeyCharacters → safe = true) →
    Var.super_append v c = Ok v' → name_safe (Var._key_characters v')).
  { intros safe Hc Hkey Hs.
    unfold Var.super_append, PromptComponent.append, Var.input_characters in Hs.
    destruct (Var.start_index v); [|discriminate].
    destruct (Var._end_index v); [discriminate|].
    destruct (Var._input_characters v); simpl in Hs; injection Hs as <-;
      simpl; auto.
    apply Forall_app. split; [exact Hsafe|]. constructor; [|constructor].
    apply Hc, Hkey. reflexivity. }
  destruct (Var.targets_required_value v) eqn:Ht.
  - apply (Hsuper false); [discriminate| |exact Happ].
    unfold Var.targets_required_value in Ht.
    destruct (Var._input_characters v); discriminate.
  - destruct (char_in_tuple c sc.VARIABLE_OPTIONS_chars).
    + unfold Var._process_option, Var._mute in Happ.
      destruct (Ascii.eqb c sc.VARIABLE_OPTIONS.MUTE).
      * destruct (_ && _); [|discriminate]. injection Happ as <-. exact Hsafe.
      * destruct (Ascii.eqb c sc.VARIABLE_OPTIONS.EQ);
          injection Happ as <-; exact Hsafe.
    + destruct (char_in c sc.VARIABLE_NAME_SAFE) eqn:Hc; [|discriminate].
      apply (Hsuper true); auto.
Qed.

Lemma append_all_key_safe (start : nat) (cs : list ascii) (v : Var.t) :
  Var.append_all (Var.new (Some start)) cs = Ok v →
  name_safe (Var._key_characters v).
Proof.
  revert v. induction cs as [|c cs IH] using rev_ind; intros v H.
  - injection H as <-. constructor.
  - rewrite append_all_snoc in H. inv_bind H.
    eapply append_key_safe; eauto.
Qed.

(** Closing turns the key characters into the key. *)
Lemma close_key (v0 v : Var.t) (e : nat) :
  Var.close v0 e = Ok v →
  Var._key v = Some (join (Var._key_characters v0)) ∧
  Var._key_characters v0 ≠ [] ∧
  Var._input_characters v = Var.Detached [].
Proof.
  intros Hclose. unfold Var.close in Hclose. inv_bind Hclose.
  injection Hclose as <-. simpl.
  unfold Var._before_close in Ha. inv_bind Ha.
  assert (Hkc : Var._key_characters a0 = Var._key_characters v0).
  { unfold Var._set_required_value in Ha0.
    destruct (Var._required_value_characters v0).
    - destruct (Var.targets_required_value v0); [discriminate|].
      injection Ha0 as <-. reflexivity.
    - injection Ha0 as <-. reflexivity. }
  unfold Var._set_key in Ha. rewrite Hkc in Ha.
  destruct (Var._key_characters v0) as [|k kc]; [discriminate|].
  injection Ha as <-. simpl. repeat split; discriminate || reflexivity.
Qed.

(** X2.  The key of every closed Variable is a non-empty string of
    characters of [VARIABLE_NAME_SAFE]: ASCII letters, digits and the
    underscore. *)
Theorem X2_closed_key_is_name_safe (v : Var.t) :
  Var.closed v →
  ∃ k, Var.key v = Some k ∧ k ≠ "" ∧ name_safe (chars k).
Proof.
  intros (start & cs & e & Hb). unfold Var.build in Hb. inv_bind Hb.
  apply append_all_key_safe in Ha.
  apply close_key in Hb as (Hk & Hne & _).
  exists (join (Var._key_characters a)). split; [exact Hk|]. split.
  - destruct (Var._key_characters a); [congruence | discriminate].
  - rewrite chars_join. exact Ha.
Qed.

Lemma X2_closed_key_is_name_safe_witness :
  Var.closed weather_hot ∧
  ∃ k, Var.key weather_hot = Some k ∧ k ≠ "" ∧ name_safe (chars k).
Proof.
  assert (H : Var.closed weather_hot)
    by (exists 3, (chars "weather=hot"), 16; reflexivity).
  split; [exact H|]. exact (X2_closed_key_is_name_safe weather_hot H).
Defined.

(** ** Error details of a Variable *)

Lemma append_empty_r (s : string) : s +:+ "" = s.
Proof.
  rewrite <- (join_chars (s +:+ "")), chars_app. simpl.
  rewrite app_nil_r. apply join_chars.
Qed.

Lemma concat_empty_separator (l : list string) :
  String.concat "" l = foldr String.append "" l.
Proof.
  induction l as [|x [|y l] IH]; [reflexivity| |].
  - simpl. rewrite append_empty_r. reflexivity.
  - change (String.concat "" (x :: y :: l))
      with (x +:+ "" +:+ String.concat "" (y :: l)).
    rewrite IH. reflexivity.
Qed.

Lemma foldr_append_characters (cs : list ascii) (rest : list string) :
  foldr String.append "" (map (λ c, String c "") cs ++ rest) =
    join cs +:+ foldr String.append "" rest.
Proof.
  induction cs as [|c cs IH]; [reflexivity|].
  simpl. rewrite IH. reflexivity.
Qed.

(** The details that [_raise_detailed_syntax_error] builds: the text is the
    opening brace, the mute marker if set, the key characters and the
    character given, and the offset is the number of key characters plus
    three. *)
Lemma raise_detailed_syntax_error_spec {A} (v : Var.t) (message : string)
    (character : option ascii) :
  Var._raise_detailed_syntax_error (A := A) v message character =
    Raise (PromptSyntaxError message
             (Some (details
                      (join (sc.VARIABLE.OPENING ::
                             (if Var._muted v
                              then [sc.VARIABLE_OPTIONS.MUTE] else []) ++
                             Var._key_characters v ++
                             match character with Some c => [c] | None => [] end))
                      (length (Var._key_characters v) + 3)))).
Proof.
  unfold Var._raise_detailed_syntax_error. do 3 f_equal. f_equal.
  - rewrite concat_empty_separator. simpl.
    change (String sc.VARIABLE.OPENING ?s) with (String sc.VARIABLE.OPENING s).
    f_equal.
    rewrite (foldr_append_characters (Var._key_characters v)).
    destruct (Var._muted v), character as [c|]; simpl;
      rewrite ?join_app, ?append_empty_r; reflexivity.
  - rewrite !length_app, length_map. simpl. lia.
Qed.

(** X3.  A Variable whose text has an empty key or an empty required value
    does not close.  With [=] and nothing behind it the error is "Required
    value can not be empty", with details made of the opening brace, the mute
    marker if any and the key; this check comes first, so it is also the
    error when the key is empty as well.  Otherwise an empty key gives
    "Variable key can not be empty", without details. *)
Theorem X3_empty_key_or_value (start e : nat) (muted : bool)
    (key : list ascii) (value : option (list ascii)) :
  name_safe key →
  key = [] ∨ value = Some [] →
  Var.build start (variable_body muted key value) e =
    match value with
    | Some [] =>
        Raise (PromptSyntaxError "Required value can not be empty"
                 (Some (details
                          (join (sc.VARIABLE.OPENING ::
                                 (if muted then [sc.VARIABLE_OPTIONS.MUTE]
                                  else []) ++ key))
                          (length key + 3))))
    | _ => Raise (PromptSyntaxError "Variable key can not be empty" None)
    end.
Proof.
  intros Hsafe Hempty. unfold Var.build.
  rewrite (append_all_body start muted key value Hsafe).
  cbn [mbind result_bind].
  unfold Var.close, Var._before_close, Var._set_required_value,
    Var.targets_required_value.
  destruct value as [[|c vs]|];
    cbn [default Var._input_characters Var._required_value_characters].
  - rewrite raise_detailed_syntax_error_spec.
    cbn [mbind result_bind Var._muted Var._key_characters].
    rewrite app_nil_r. reflexivity.
  - destruct Hempty as [-> | [=]]. reflexivity.
  - destruct Hempty as [-> | [=]]. reflexivity.
Qed.

Lemma X3_empty_key_or_value_witness :
  name_safe (chars "var") ∧
  (chars "var" = [] ∨ Some [] = Some ([] : list ascii)) ∧
  Var.build 0 (variable_body false (chars "var") (Some [])) 6 =
    match Some ([] : list ascii) with
    | Some [] =>
        Raise (PromptSyntaxError "Required value can not be empty"
                 (Some (details
                          (join (sc.VARIABLE.OPENING ::
                                 (if false then [sc.VARIABLE_OPTIONS.MUTE]
                                  else []) ++ chars "var"))
                          (length (chars "var") + 3))))
    | _ => Raise (PromptSyntaxError "Variable key can not be empty" None)
    end.
Proof.
  assert (H1 : name_safe (chars "var")) by (repeat constructor).
  assert (H2 : chars "var" = [] ∨ Some [] = Some ([] : list ascii))
    by (right; reflexivity).
  split; [exact H1|]. split; [exact H2|].
  exact (X3_empty_key_or_value 0 6 false (chars "var") (Some []) H1 H2).
Defined.

(** X4.  A character that the key does not accept, fed behind the mute
    marker and the key characters read so far, raises a syntax error whose
    text is the variable's text up to and including that character.  The
    offset is the number of key characters plus three: the position of the
    offending character in that text when the variable is muted, and one more
    than the length of the text when it is not. *)
Theorem X4_rejected_key_character (start : nat) (muted : bool)
    (key : list ascii) (c : ascii) :
  name_safe key →
  char_in c sc.VARIABLE_NAME_SAFE = false →
  c ≠ sc.VARIABLE_OPTIONS.EQ →
  (c = sc.VARIABLE_OPTIONS.MUTE → muted = true ∨ key ≠ []) →
  ∃ message d,
    Var.append_all (Var.new (Some start))
      (variable_body muted key None ++ [c]) =
      Raise (PromptSyntaxError message (Some d)) ∧
    text d = join (sc.VARIABLE.OPENING :: variable_body muted key None ++ [c]) ∧
    offset d = length key + 3 ∧
    offset d = String.length (text d) + (if muted then 0 else 1).
Proof.
  intros Hsafe Hc Heq Hmute.
  rewrite append_all_snoc, (append_all_body start muted key None Hsafe).
  simpl. unfold Var.append. simpl Var.targets_required_value. cbn iota.
  assert (Hdetails : ∀ message,
    ∃ message' d,
      Var._raise_detailed_syntax_error (A := Var.t)
        (Var.mk (Some start) None Var.KeyCharacters muted None None key [])
        message (Some c) =
        Raise (PromptSyntaxError message' (Some d)) ∧
      text d =
        join (sc.VARIABLE.OPENING :: variable_body muted key None ++ [c]) ∧
      offset d = length key + 3 ∧
      offset d = String.length (text d) + (if muted then 0 else 1)).
  { intros message. rewrite raise_detailed_syntax_error_spec. simpl.
    eexists _, _. split; [reflexivity|]. simpl.
    unfold variable_body. rewrite app_nil_r, <- app_assoc.
    split; [reflexivity|]. split; [reflexivity|].
    rewrite join_length. simpl. rewrite !length_app. simpl.
    destruct muted; simpl; lia. }
  destruct (char_in_tuple c sc.VARIABLE_OPTIONS_chars) eqn:Hopt.
  - apply char_in_options in Hopt as [-> | ->]; [|congruence].
    unfold Var._process_option. rewrite Ascii.eqb_refl.
    unfold Var._mute, Var.input_characters. simpl.
    destruct (Hmute eq_refl) as [-> | Hkey].
    + rewrite andb_false_r. apply Hdetails.
    + destruct key; [congruence|]. simpl. apply Hdetails.
  - rewrite Hc. simpl. apply Hdetails.
Qed.

Lemma X4_rejected_key_character_witness :
  name_safe (chars "a") ∧
  char_in "."%char sc.VARIABLE_NAME_SAFE = false ∧
  "."%char ≠ sc.VARIABLE_OPTIONS.EQ ∧
  ("."%char = sc.VARIABLE_OPTIONS.MUTE → false = true ∨ chars "a" ≠ []) ∧
  ∃ message d,
    Var.append_all (Var.new (Some 0))
      (variable_body false (chars "a") None ++ ["."%char]) =
      Raise (PromptSyntaxError message (Some d)) ∧
    text d =
      join (sc.VARIABLE.OPENING ::
            variable_body false (chars "a") None ++ ["."%char]) ∧
    offset d = length (chars "a") + 3 ∧
    offset d = String.length (text d) + (if false then 0 else 1).
Proof.
  assert (H1 : name_safe (chars "a")) by (repeat constructor).
  assert (H2 : char_in "."%char sc.VARIABLE_NAME_SAFE = false) by reflexivity.
  assert (H3 : "."%char ≠ sc.VARIABLE_OPTIONS.EQ) by discriminate.
  assert (H4 : "."%char = sc.VARIABLE_OPTIONS.MUTE →
               false = true ∨ chars "a" ≠ []) by discriminate.
  split; [exact H1|]. split; [exact H2|]. split; [exact H3|].
  split; [exact H4|].
  exact (X4_rejected_key_character 0 false (chars "a") "."%char H1 H2 H3 H4).
Defined.

(** X5.  The state guards of a component.  A closed Variable takes no
    further key character: appending one raises [InternalError].  A Variable
    that the scanner has not closed yet cannot be substituted: that raises
    [InternalError] as well, whatever the mapping. *)
Theorem X5_variable_state_guards :
  (∀ v c, Var.closed v → char_in c sc.VARIABLE_NAME_SAFE = true →
          Var.append v c =
            Raise (InternalError "No appending after the end index is set"))
  ∧
  (∀ start cs v params,
     Var.append_all (Var.new (Some start)) cs = Ok v →
     Var.substitute v params =
       Raise (InternalError "End index must be set before substitution")).
Proof.
  split.
  - intros v c (start & cs & e & Hb) Hc. unfold Var.build in Hb. inv_bind Hb.
    apply append_all_under_construction in Ha as Huc.
    destruct (close_inv _ _ _ _ _ Huc Hb) as (Hs & He & _).
    apply close_key in Hb as (_ & _ & Hbuf).
    unfold Var.append, Var.targets_required_value. rewrite Hbuf.
    rewrite (name_safe_not_option c Hc), Hc. simpl.
    unfold Var.super_append, PromptComponent.append. rewrite Hs, He.
    reflexivity.
  - intros start cs v params Hv.
    apply append_all_under_construction in Hv as [_ He _ _ _ _ _].
    unfold Var.substitute, Var.end_index. rewrite He. reflexivity.
Qed.

Lemma X5_variable_state_guards_witness :
  (Var.closed weather_hot ∧ char_in "x"%char sc.VARIABLE_NAME_SAFE = true ∧
   Var.append weather_hot "x"%char =
     Raise (InternalError "No appending after the end index is set"))
  ∧
  (Var.append_all (Var.new (Some 0)) (chars "a=") = Ok capturing_value ∧
   Var.substitute capturing_value ∅ =
     Raise (InternalError "End index must be set before substitution")).
Proof.
  assert (H1 : Var.closed weather_hot)
    by (exists 3, (chars "weather=hot"), 16; reflexivity).
  assert (H2 : char_in "x"%char sc.VARIABLE_NAME_SAFE = true) by reflexivity.
  assert (H3 : Var.append_all (Var.new (Some 0)) (chars "a=") =
               Ok capturing_value) by reflexivity.
  split.
  - split; [exact H1|]. split; [exact H2|].
    exact (proj1 X5_variable_state_guards weather_hot "x"%char H1 H2).
  - split; [exact H3|].
    exact (proj2 X5_variable_state_guards 0 (chars "a=") capturing_value ∅ H3).
Defined.

(** ** The scanner on texts of a given shape *)

Lemma parse_unfold (source : string) :
  Template.parse source =
    st ← Template.scan (Template._parse_and_validate (String.length source))
           source 0 (chars source)
           (Template.mkScanner (Template.fresh None (Some source)) None 0);
    Template.finish source st.
Proof. reflexivity. Qed.

Lemma append_all_cons (v : Var.t) (c : ascii) (cs : list ascii) :
  Var.append_all v (c :: cs) = Var.append v c ≫= λ v', Var.append_all v' cs.
Proof. apply (append_all_app v [c] cs). Qed.

Section shapes.
Context (rec : Template.t → result Template.t) (src : string).

(** Literal text outside any component is skipped. *)
Lemma scan_literal (pre rest : list ascii) : ∀ i st,
  literal pre →
  Template.current_component st = None →
  Template.scan rec src i (pre ++ rest) st =
    Template.scan rec src (i + length pre) rest st.
Proof.
  induction pre as [|c pre IH]; intros i st Hlit Hcur; simpl.
  - rewrite Nat.add_0_r. reflexivity.
  - apply Forall_cons in Hlit as [Hc Hlit].
    unfold Template.step. rewrite Hc, Hcur. simpl.
    rewrite (IH (S i) st Hlit Hcur). f_equal. lia.
Qed.

(** Literal text inside a Variable is fed to the Variable. *)
Lemma scan_variable_body (body rest : list ascii) : ∀ i self depth v v',
  literal body →
  Var.append_all v body = Ok v' →
  Template.scan rec src i (body ++ rest)
    (Template.mkScanner self (Some (Template.IsVariable v)) depth) =
  Template.scan rec src (i + length body) rest
    (Template.mkScanner self (Some (Template.IsVariable v')) depth).
Proof.
  induction body as [|c body IH]; intros i self depth v v' Hlit Happ; simpl.
  - injection Happ as <-. rewrite Nat.add_0_r. reflexivity.
  - apply Forall_cons in Hlit as [Hc Hlit].
    rewrite append_all_cons in Happ. inv_bind Happ.
    unfold Template.step. rewrite Hc. simpl. rewrite Ha. simpl.
    unfold Template.with_current. simpl.
    rewrite (IH (S i) self depth a v' Hlit Happ). f_equal. lia.
Qed.

(** Text without a closing bracket inside a nested Template is captured,
    whatever else it holds. *)
Lemma scan_template_body (s : nat) (body rest : list ascii) :
  ∀ i self depth c,
  Forall (λ char, char ≠ sc.TEMPLATE.CLOSING) body →
  Template.start_index c = Some s →
  Template._end_index c = None →
  ∃ c' depth',
    Template.start_index c' = Some s ∧
    Template.scan rec src i (body ++ rest)
      (Template.mkScanner self (Some (Template.IsTemplate c)) depth) =
    Template.scan rec src (i + length body) rest
      (Template.mkScanner self (Some (Template.IsTemplate c')) depth').
Proof.
  induction body as [|char body IH]; intros i self depth c Hbody Hs He.
  - exists c, depth. simpl. rewrite Nat.add_0_r. auto.
  - apply Forall_cons in Hbody as [Hchar Hbody].
    assert (Happ : Template.append c char =
                   Ok (Template.mk (Some s) None
                         (Template._input_characters c ++ [char])
                         (Template.input_text c) (Template._components c)
                         (Template._templates c) (Template._variables c)
                         (Template._alternative c))).
    { unfold Template.append, PromptComponent.append. rewrite Hs, He.
      reflexivity. }
    assert (Hstep : ∃ depth1,
      Template.step rec src i char
        (Template.mkScanner self (Some (Template.IsTemplate c)) depth) =
      Ok (Template.Continue
            (Template.mkScanner self
               (Some (Template.IsTemplate
                        (Template.mk (Some s) None
                           (Template._input_characters c ++ [char])
                           (Template.input_text c) (Template._components c)
                           (Template._templates c) (Template._variables c)
                           (Template._alternative c))))
               depth1))).
    { unfold Template.step.
      destruct (negb (char_in_tuple char Template.characters_to_check)).
      - simpl. rewrite Happ. eexists. reflexivity.
      - unfold Template.classify.
        destruct (Ascii.eqb char sc.TEMPLATE.OPENING).
        { simpl. rewrite Happ. eexists. reflexivity. }
        destruct (Ascii.eqb_spec char sc.TEMPLATE.CLOSING); [contradiction|].
        destruct (Ascii.eqb char sc.TEMPLATE.SEPARATOR);
          [simpl; rewrite Happ; eexists; reflexivity|].
        destruct (Ascii.eqb char sc.VARIABLE.OPENING);
          [simpl; rewrite Happ; eexists; reflexivity|].
        destruct (Ascii.eqb char sc.VARIABLE.CLOSING);
          simpl; rewrite Happ; eexists; reflexivity. }
    destruct Hstep as (depth1 & Hstep).
    destruct (IH (S i) self depth1
                (Template.mk (Some s) None
                   (Template._input_characters c ++ [char])
                   (Template.input_text c) (Template._components c)
                   (Template._templates c) (Template._variables c)
                   (Template._alternative c))
                Hbody eq_refl eq_refl)
      as (c' & depth' & Hs' & Hscan).
    exists c', depth'. split; [exact Hs'|].
    rewrite <- app_comm_cons. cbn [Template.scan length].
    rewrite Hstep, Hscan. f_equal. lia.
Qed.

End shapes.

Lemma scan_whole_literal (rec : Template.t → result Template.t)
    (src : string) (cs : list ascii) (i : nat) (st : Template.scanner) :
  literal cs →
  Template.current_component st = None →
  Template.scan rec src i cs st = Ok st.
Proof.
  intros Hlit Hcur.
  rewrite <- (app_nil_r cs), (scan_literal rec src cs [] i st Hlit Hcur).
  reflexivity.
Qed.

(** X6.  A non-empty text without special characters parses into a Template
    with that text and no components, variables or alternative, and this
    Template substitutes to the text itself under every mapping. *)
Theorem X6_literal_text (source : string) (params : gmap string string) :
  source ≠ "" →
  literal (chars source) →
  Template.parse source = Ok (Template.fresh None (Some source)) ∧
  Template.substitute params (Template.fresh None (Some source)) =
    Ok (Some source).
Proof.
  intros Hne Hlit. split; [|reflexivity].
  rewrite parse_unfold, scan_whole_literal by (assumption || reflexivity).
  destruct source; [congruence | reflexivity].
Qed.

Lemma X6_literal_text_witness :
  "I am stability" ≠ "" ∧
  literal (chars "I am stability") ∧
  Template.parse "I am stability" =
    Ok (Template.fresh None (Some "I am stability")) ∧
  Template.substitute ∅ (Template.fresh None (Some "I am stability")) =
    Ok (Some "I am stability").
Proof.
  assert (H1 : "I am stability" ≠ "") by discriminate.
  assert (H2 : literal (chars "I am stability")) by (repeat constructor).
  split; [exact H1|]. split; [exact H2|].
  exact (X6_literal_text "I am stability" ∅ H1 H2).
Defined.

Lemma finish_open_component (source : string) (self : Template.t)
    (c : Template.component) (depth start : nat) :
  Template.input_text self = Some source →
  source ≠ "" →
  Template.component_start_index c = Some start →
  Template.finish source (Template.mkScanner self (Some c) depth) =
    Raise (PromptSyntaxError (Template.type_name c +:+ " not closed")
             (Some (details source (start + 1)))).
Proof.
  intros Htext Hne Hstart. unfold Template.finish. simpl.
  rewrite Htext, Hstart. destruct source; [congruence | reflexivity].
Qed.

(** X7.  A closing bracket or brace that follows literal text, with no
    component open, is a syntax error that carries the whole text and the
    1-based offset of that character. *)
Theorem X7_closing_without_opening (pre rest : list ascii) (c : ascii) :
  literal pre →
  c = sc.TEMPLATE.CLOSING ∨ c = sc.VARIABLE.CLOSING →
  Template.parse (join (pre ++ c :: rest)) =
    Raise (PromptSyntaxError
             ("Wrong special character '" +:+ String c "" +:+ "' position")
             (Some (details (join (pre ++ c :: rest)) (length pre + 1)))).
Proof.
  intros Hlit Hc. rewrite parse_unfold, chars_join.
  rewrite scan_literal by (assumption || reflexivity).
  cbn [Template.scan]. destruct Hc as [-> | ->]; reflexivity.
Qed.

Lemma X7_closing_without_opening_witness :
  literal (chars "ab") ∧
  ("]"%char = sc.TEMPLATE.CLOSING ∨ "]"%char = sc.VARIABLE.CLOSING) ∧
  Template.parse (join (chars "ab" ++ "]"%char :: chars "c")) =
    Raise (PromptSyntaxError
             ("Wrong special character '" +:+ String "]"%char "" +:+ "' position")
             (Some (details (join (chars "ab" ++ "]"%char :: chars "c"))
                      (length (chars "ab") + 1)))).
Proof.
  assert (H1 : literal (chars "ab")) by (repeat constructor).
  assert (H2 : "]"%char = sc.TEMPLATE.CLOSING ∨ "]"%char = sc.VARIABLE.CLOSING)
    by (left; reflexivity).
  split; [exact H1|]. split; [exact H2|].
  exact (X7_closing_without_opening (chars "ab") (chars "c") "]"%char H1 H2).
Defined.

Lemma step_special_in_variable (rec : Template.t → result Template.t)
    (src : string) (i : nat) (c : ascii) (st : Template.scanner) (v : Var.t) :
  Template.current_component st = Some (Template.IsVariable v) →
  c = sc.TEMPLATE.OPENING ∨ c = sc.TEMPLATE.CLOSING ∨
  c = sc.TEMPLATE.SEPARATOR ∨ c = sc.VARIABLE.OPENING →
  Template.step rec src i c st =
    Raise (PromptSyntaxError
             ("Wrong special character '" +:+ String c "" +:+ "' position")
             (Some (details src (i + 1)))).
Proof.
  intros Hcur Hc. unfold Template.step.
  destruct Hc as [-> | [-> | [-> | ->]]]; rewrite Hcur; reflexivity.
Qed.

(** X8.  Inside a Variable the characters [[], []], [|] and [{] are not
    allowed: after literal text, an opening brace and characters that the
    Variable accepts, any of them is a syntax error that carries the whole
    text and the 1-based offset of that character. *)
Theorem X8_special_character_in_variable (pre body rest : list ascii)
    (c : ascii) (v : Var.t) :
  literal pre →
  literal body →
  Var.append_all (Var.new (Some (length pre))) body = Ok v →
  c = sc.TEMPLATE.OPENING ∨ c = sc.TEMPLATE.CLOSING ∨
  c = sc.TEMPLATE.SEPARATOR ∨ c = sc.VARIABLE.OPENING →
  Template.parse (join (pre ++ sc.VARIABLE.OPENING :: body ++ c :: rest)) =
    Raise (PromptSyntaxError
             ("Wrong special character '" +:+ String c "" +:+ "' position")
             (Some (details
                      (join (pre ++ sc.VARIABLE.OPENING :: body ++ c :: rest))
                      (length pre + length body + 2)))).
Proof.
  intros Hpre Hbody Hv Hc. rewrite parse_unfold, chars_join.
  rewrite scan_literal by (assumption || reflexivity).
  cbn [Template.scan].
  change (Template.step _ _ (0 + length pre) sc.VARIABLE.OPENING _)
    with (Ok (Template.Continue
                (Template.mkScanner
                   (Template.fresh None
                      (Some (join (pre ++ sc.VARIABLE.OPENING :: body ++ c :: rest))))
                   (Some (Template.IsVariable (Var.new (Some (0 + length pre)))))
                   0))).
  cbn iota.
  rewrite (scan_variable_body _ _ body (c :: rest) _ _ _ _ v Hbody Hv).
  cbn [Template.scan].
  rewrite (step_special_in_variable _ _ _ c _ v) by (reflexivity || exact Hc).
  cbn [mbind result_bind]. do 4 f_equal. lia.
Qed.

Lemma X8_special_character_in_variable_witness :
  literal (chars "ab") ∧
  literal (chars "k") ∧
  Var.append_all (Var.new (Some (length (chars "ab")))) (chars "k") =
    Ok (Var.mk (Some 2) None Var.KeyCharacters false None None ["k"%char] [])
  ∧
  ("|"%char = sc.TEMPLATE.OPENING ∨ "|"%char = sc.TEMPLATE.CLOSING ∨
   "|"%char = sc.TEMPLATE.SEPARATOR ∨ "|"%char = sc.VARIABLE.OPENING) ∧
  Template.parse
    (join (chars "ab" ++ sc.VARIABLE.OPENING :: chars "k" ++ "|"%char :: [])) =
    Raise (PromptSyntaxError
             ("Wrong special character '" +:+ String "|"%char "" +:+ "' position")
             (Some (details
                      (join (chars "ab" ++
                             sc.VARIABLE.OPENING :: chars "k" ++ "|"%char :: []))
                      (length (chars "ab") + length (chars "k") + 2)))).
Proof.
  assert (H1 : literal (chars "ab")) by (repeat constructor).
  assert (H2 : literal (chars "k")) by (repeat constructor).
  assert (H3 : Var.append_all (Var.new (Some (length (chars "ab"))))
                 (chars "k") =
               Ok (Var.mk (Some 2) None Var.KeyCharacters false None None
                     ["k"%char] [])) by reflexivity.
  assert (H4 : "|"%char = sc.TEMPLATE.OPENING ∨ "|"%char = sc.TEMPLATE.CLOSING ∨
               "|"%char = sc.TEMPLATE.SEPARATOR ∨ "|"%char = sc.VARIABLE.OPENING)
    by (right; right; left; reflexivity).
  split; [exact H1|]. split; [exact H2|]. split; [exact H3|].
  split; [exact H4|].
  exact (X8_special_character_in_variable (chars "ab") (chars "k") []
           "|"%char _ H1 H2 H3 H4).
Defined.

Lemma join_middle_nonempty (pre rest : list ascii) (c : ascii) :
  join (pre ++ c :: rest) ≠ "".
Proof. destruct pre; discriminate. Qed.

(** X9.  A component that the text never closes is a syntax error that
    carries the whole text and the 1-based offset of the component's opening
    character: "Variable not closed" when the text ends inside a Variable,
    "Template not closed" when an opening bracket is followed by text that
    holds no closing bracket. *)
Theorem X9_component_not_closed :
  (∀ pre body v,
     literal pre → literal body →
     Var.append_all (Var.new (Some (length pre))) body = Ok v →
     Template.parse (join (pre ++ sc.VARIABLE.OPENING :: body)) =
       Raise (PromptSyntaxError "Variable not closed"
                (Some (details (join (pre ++ sc.VARIABLE.OPENING :: body))
                         (length pre + 1)))))
  ∧
  (∀ pre body,
     literal pre →
     Forall (λ char, char ≠ sc.TEMPLATE.CLOSING) body →
     Template.parse (join (pre ++ sc.TEMPLATE.OPENING :: body)) =
       Raise (PromptSyntaxError "Template not closed"
                (Some (details (join (pre ++ sc.TEMPLATE.OPENING :: body))
                         (length pre + 1))))).
Proof.
  split.
  - intros pre body v Hpre Hbody Hv. rewrite parse_unfold, chars_join.
    rewrite scan_literal by (assumption || reflexivity).
    cbn [Template.scan].
    change (Template.step _ _ (0 + length pre) sc.VARIABLE.OPENING _)
      with (Ok (Template.Continue
                  (Template.mkScanner
                     (Template.fresh None
                        (Some (join (pre ++ sc.VARIABLE.OPENING :: body))))
                     (Some (Template.IsVariable
                              (Var.new (Some (0 + length pre)))))
                     0))).
    cbn iota. rewrite <- (app_nil_r body) at 3.
    rewrite (scan_variable_body _ _ body [] _ _ _ _ v Hbody Hv).
    cbn [Template.scan mbind result_bind].
    apply finish_open_component; [reflexivity | apply join_middle_nonempty |].
    apply append_all_under_construction in Hv as [Hs _ _ _ _ _ _]. exact Hs.
  - intros pre body Hpre Hbody. rewrite parse_unfold, chars_join.
    rewrite scan_literal by (assumption || reflexivity).
    cbn [Template.scan].
    change (Template.step _ _ (0 + length pre) sc.TEMPLATE.OPENING _)
      with (Ok (Template.Continue
                  (Template.mkScanner
                     (Template.fresh None
                        (Some (join (pre ++ sc.TEMPLATE.OPENING :: body))))
                     (Some (Template.IsTemplate
                              (Template.fresh (Some (0 + length pre)) None)))
                     0))).
    cbn iota.
    destruct (scan_template_body
                (Template._parse_and_validate
                   (String.length (join (pre ++ sc.TEMPLATE.OPENING :: body))))
                (join (pre ++ sc.TEMPLATE.OPENING :: body))
                (length pre) body [] (S (0 + length pre))
                (Template.fresh None
                   (Some (join (pre ++ sc.TEMPLATE.OPENING :: body))))
                0 (Template.fresh (Some (0 + length pre)) None)
                Hbody eq_refl eq_refl)
      as (c' & depth' & Hs' & Hscan).
    rewrite app_nil_r in Hscan. rewrite Hscan.
    cbn [Template.scan mbind result_bind].
    apply (finish_open_component _ _ (Template.IsTemplate c'));
      [reflexivity | apply join_middle_nonempty | exact Hs'].
Qed.

Lemma X9_component_not_closed_witness :
  (literal (chars "a") ∧ literal (chars "k") ∧
   Var.append_all (Var.new (Some (length (chars "a")))) (chars "k") =
     Ok (Var.mk (Some 1) None Var.KeyCharacters false None None ["k"%char] [])
   ∧
   Template.parse (join (chars "a" ++ sc.VARIABLE.OPENING :: chars "k")) =
     Raise (PromptSyntaxError "Variable not closed"
              (Some (details
                       (join (chars "a" ++ sc.VARIABLE.OPENING :: chars "k"))
                       (length (chars "a") + 1)))))
  ∧
  (literal (chars "a") ∧
   Forall (λ char, char ≠ sc.TEMPLATE.CLOSING) (chars "b[{") ∧
   Template.parse (join (chars "a" ++ sc.TEMPLATE.OPENING :: chars "b[{")) =
     Raise (PromptSyntaxError "Template not closed"
              (Some (details
                       (join (chars "a" ++ sc.TEMPLATE.OPENING :: chars "b[{"))
                       (length (chars "a") + 1))))).
Proof.
  assert (H1 : literal (chars "a")) by (repeat constructor).
  assert (H2 : literal (chars "k")) by (repeat constructor).
  assert (H3 : Var.append_all (Var.new (Some (length (chars "a")))) (chars "k") =
               Ok (Var.mk (Some 1) None Var.KeyCharacters false None None
                     ["k"%char] [])) by reflexivity.
  assert (H4 : Forall (λ char, char ≠ sc.TEMPLATE.CLOSING) (chars "b[{"))
    by (repeat constructor; discriminate).
  split.
  - split; [exact H1|]. split; [exact H2|]. split; [exact H3|].
    exact (proj1 X9_component_not_closed (chars "a") (chars "k") _ H1 H2 H3).
  - split; [exact H1|]. split; [exact H4|].
    exact (proj2 X9_component_not_closed (chars "a") (chars "b[{") H1 H4).
Defined.

(** X10.  A separator behind non-empty literal text splits the text: what
    follows is parsed on its own and becomes the alternative of a Template
    whose text is the part before the separator.  A syntax error of the
    part behind the separator is the error of the whole. *)
Theorem X10_separator_splits (a b : string) :
  a ≠ "" →
  literal (chars a) →
  Template.parse (a +:+ String sc.TEMPLATE.SEPARATOR b) =
    alternative ← Template.parse b;
    Ok (Template.mk None None [] (Some a) [] [] [] (Some alternative)).
Proof.
  intros Hne Hlit. rewrite parse_unfold.
  assert (Hchars : chars (a +:+ String sc.TEMPLATE.SEPARATOR b) =
                   chars a ++ sc.TEMPLATE.SEPARATOR :: chars b).
  { rewrite chars_app. reflexivity. }
  assert (Hlen : String.length b <
                 String.length (a +:+ String sc.TEMPLATE.SEPARATOR b)).
  { rewrite <- !chars_length, Hchars, length_app. simpl. lia. }
  assert (Hfrom : slice_from (0 + length (chars a) + 1)
                    (a +:+ String sc.TEMPLATE.SEPARATOR b) = b).
  { unfold slice_from. rewrite Hchars.
    replace (0 + length (chars a) + 1) with (length (chars a ++ [sc.TEMPLATE.SEPARATOR]))
      by (rewrite length_app; simpl; lia).
    change (chars a ++ sc.TEMPLATE.SEPARATOR :: chars b)
      with (chars a ++ [sc.TEMPLATE.SEPARATOR] ++ chars b).
    rewrite app_assoc, drop_app_length. apply join_chars. }
  assert (Hto : slice_to (0 + length (chars a))
                  (a +:+ String sc.TEMPLATE.SEPARATOR b) = a).
  { unfold slice_to. rewrite Hchars. simpl. rewrite take_app_length.
    apply join_chars. }
  rewrite Hchars. rewrite scan_literal by (assumption || reflexivity).
  cbn [Template.scan].
  unfold Template.step.
  change (negb (char_in_tuple sc.TEMPLATE.SEPARATOR Template.characters_to_check))
    with false.
  cbn iota.
  change (Template.classify sc.TEMPLATE.SEPARATOR)
    with Template.TEMPLATE_SEPARATOR.
  cbn [Template.current_component].
  cbn iota. cbv zeta. rewrite Hfrom, Hto.
  destruct (parse_fuel_irrelevant b _ Hlen) as [-> _].
  destruct (Template.parse b) as [alternative|e]; [|reflexivity].
  cbn [mbind result_bind Template.self Template.fresh Template.start_index
       Template._end_index Template._input_characters Template._components
       Template._templates Template._variables Template.nested_template_stack].
  unfold Template.finish. cbn [Template.self Template.input_text
                               Template.current_component].
  destruct a; [congruence | reflexivity].
Qed.

Lemma X10_separator_splits_witness :
  "Constant " ≠ "" ∧
  literal (chars "Constant ") ∧
  Template.parse ("Constant " +:+ String sc.TEMPLATE.SEPARATOR " {var}") =
    alternative ← Template.parse " {var}";
    Ok (Template.mk None None [] (Some "Constant ") [] [] []
          (Some alternative)).
Proof.
  assert (H1 : "Constant " ≠ "") by discriminate.
  assert (H2 : literal (chars "Constant ")) by (repeat constructor).
  split; [exact H1|]. split; [exact H2|].
  exact (X10_separator_splits "Constant " " {var}" H1 H2).
Defined.

(** ** Parsed Templates and their substitution *)

(** X11.  What parsing establishes for every block of the Template it
    constructs: the block has a non-empty text; its components have start and
    end offsets, are not empty, follow one another without overlap and end
    within the text; [_variables] and [_templates] list exactly the Variables
    and the Templates among the components, in order; and every direct
    variable is closed. *)
Theorem X11_parsed_block_invariants (source : string) (root T : Template.t) :
  Template.parse source = Ok root →
  block_of root T →
  ∃ text,
    Template.input_text T = Some text ∧ text ≠ "" ∧
    spans_ok 0 (Template._components T) (String.length text) ∧
    variables_of (Template._components T) = Template._variables T ∧
    templates_of (Template._components T) = Template._templates T ∧
    Forall Var.closed (Template._variables T).
Proof.
  intros Hparse HT. apply parse_well_formed in Hparse.
  apply (well_formed_block_of root T Hparse) in HT.
  apply well_formed_unfold in HT
    as (((text & Htext & Hne & Hsp) & Hv & Ht & Hc) & _ & _).
  exists text. repeat split; assumption.
Qed.

Lemma X11_parsed_block_invariants_witness :
  Template.parse "A{x}B{y}C" = Ok two_variables ∧
  block_of two_variables two_variables ∧
  ∃ text,
    Template.input_text two_variables = Some text ∧ text ≠ "" ∧
    spans_ok 0 (Template._components two_variables) (String.length text) ∧
    variables_of (Template._components two_variables) =
      Template._variables two_variables ∧
    templates_of (Template._components two_variables) =
      Template._templates two_variables ∧
    Forall Var.closed (Template._variables two_variables).
Proof.
  assert (H1 : Template.parse "A{x}B{y}C" = Ok two_variables)
    by (vm_compute; reflexivity).
  split; [exact H1|]. split; [apply block_root|].
  exact (X11_parsed_block_invariants "A{x}B{y}C" two_variables two_variables
           H1 (block_root two_variables)).
Defined.

Lemma alternative_chain_unfold (T : Template.t) :
  alternative_chain T =
    T :: match Template._alternative T with
         | Some a => alternative_chain a
         | None => []
         end.
Proof. destruct T. reflexivity. Qed.

(** The comprehension over the direct variables of a well-formed block
    either succeeds or raises [VariableError]. *)
Lemma variable_substitutions_cases (params : gmap string string)
    (T : Template.t) :
  well_formed T →
  (∃ subs, Template.variable_substitutions params T = Ok subs) ∨
  Template.variable_substitutions params T = Raise VariableError.
Proof.
  intros Hwf. apply well_formed_unfold in Hwf as ((_ & _ & _ & Hc) & _ & _).
  unfold Template.variable_substitutions.
  destruct (comprehension_cases params _ Hc)
    as [[_ Hr] | (_ & subs & Hr & _)]; eauto.
Qed.

Lemma substitute_first_satisfied (params : gmap string string)
    (T : Template.t) :
  well_formed T →
  Template.substitute params T =
    match first_satisfied params (alternative_chain T) with
    | Some (b, subs) => Template._substitute_all_components params b subs
    | None => Ok (Some "")
    end.
Proof.
  induction T as [T _ _ IH] using template_ind. intros Hwf.
  rewrite substitute_unfold, alternative_chain_unfold.
  cbn [first_satisfied].
  destruct (variable_substitutions_cases params T Hwf) as [(subs & ->) | ->];
    [reflexivity|].
  apply well_formed_unfold in Hwf as (_ & _ & Ha).
  destruct (Template._alternative T) as [a|]; [|reflexivity].
  apply (IH a eq_refl). apply Ha. reflexivity.
Qed.

(** X12.  The fallback chain.  The substitution of a block of a parsed
    Template is the reconstruction of the first block, in the chain of
    alternatives that starts at it, whose direct variables are all
    satisfied, and the empty string when the chain has no such block.  The
    blocks before that one contribute nothing, and the blocks behind it are
    not looked at. *)
Theorem X12_fallback_chain (source : string) (root T : Template.t)
    (params : gmap string string) :
  Template.parse source = Ok root →
  block_of root T →
  Template.substitute params T =
    match first_satisfied params (alternative_chain T) with
    | Some (b, subs) => Template._substitute_all_components params b subs
    | None => Ok (Some "")
    end.
Proof.
  intros Hparse HT. apply substitute_first_satisfied.
  apply (well_formed_block_of root T); [|exact HT].
  exact (parse_well_formed source root Hparse).
Qed.

Lemma X12_fallback_chain_witness :
  Template.parse "{a}|b" = Ok with_fallback ∧
  block_of with_fallback with_fallback ∧
  Template.substitute ∅ with_fallback =
    match first_satisfied ∅ (alternative_chain with_fallback) with
    | Some (b, subs) => Template._substitute_all_components ∅ b subs
    | None => Ok (Some "")
    end.
Proof.
  assert (H1 : Template.parse "{a}|b" = Ok with_fallback)
    by (vm_compute; reflexivity).
  split; [exact H1|]. split; [apply block_root|].
  exact (X12_fallback_chain "{a}|b" with_fallback with_fallback ∅ H1
           (block_root with_fallback)).
Defined.

(** A closed variable whose key the mapping lacks, or maps to the empty
    string, raises [VariableError]. *)
Lemma missing_key_unsatisfied (params : gmap string string) (v : Var.t)
    (k : string) :
  Var.key v = Some k →
  params !! k = None ∨ params !! k = Some "" →
  unsatisfied v params.
Proof. intros Hk Hget. exists k. split; [exact Hk|]. tauto. Qed.

Lemma substitute_required_missing (params : gmap string string)
    (T : Template.t) :
  well_formed T →
  (∀ b, b ∈ alternative_chain T →
        ∃ k, Some k ∈ types.required (own_entry b) ∧
             (params !! k = None ∨ params !! k = Some "")) →
  Template.substitute params T = Ok (Some "").
Proof.
  induction T as [T _ _ IH] using template_ind. intros Hwf Hchain.
  rewrite alternative_chain_unfold in Hchain.
  destruct (Hchain T (list_elem_of_here _ _)) as (k & Hk & Hget).
  apply own_entry_required_spec in Hk as (v & Hv & Hkey).
  apply well_formed_unfold in Hwf as ((_ & _ & _ & Hc) & _ & Ha).
  rewrite substitute_unfold. unfold Template.variable_substitutions.
  destruct (comprehension_cases params _ Hc)
    as [[_ Hr] | (Hall & _)]; rewrite ?Hr.
  - destruct (Template._alternative T) as [a|]; [|reflexivity].
    apply (IH a eq_refl); [apply Ha; reflexivity|].
    intros b Hb. apply Hchain. apply list_elem_of_further. exact Hb.
  - exfalso. rewrite Forall_forall in Hall. apply (Hall v Hv).
    exact (missing_key_unsatisfied params v k Hkey Hget).
Qed.

(** X13.  A parsed Template substitutes to the empty string under every
    mapping that, for each alternative, lacks one of the keys reported as
    required for it or maps that key to the empty string. *)
Theorem X13_required_key_missing (source : string) (root : Template.t)
    (params : gmap string string) :
  Template.parse source = Ok root →
  (∀ e, e ∈ Template.variable_keys root →
        ∃ k, Some k ∈ types.required e ∧
             (params !! k = None ∨ params !! k = Some "")) →
  Template.substitute params root = Ok (Some "").
Proof.
  intros Hparse Hmissing. apply substitute_required_missing.
  - exact (parse_well_formed source root Hparse).
  - intros b Hb. apply Hmissing. rewrite variable_keys_chain.
    apply list_elem_of_fmap. exists b. auto.
Qed.

Lemma X13_required_key_missing_witness :
  Template.parse "Blue if {var_1} | Red if {var_2}" = Ok blue_or_red ∧
  (∀ e, e ∈ Template.variable_keys blue_or_red →
        ∃ k, Some k ∈ types.required e ∧
             (({["other" := "x"]} : gmap string string) !! k = None ∨
              ({["other" := "x"]} : gmap string string) !! k = Some "")) ∧
  Template.substitute {["other" := "x"]} blue_or_red = Ok (Some "").
Proof.
  assert (H1 : Template.parse "Blue if {var_1} | Red if {var_2}" =
               Ok blue_or_red) by (vm_compute; reflexivity).
  assert (H2 : ∀ e, e ∈ Template.variable_keys blue_or_red →
        ∃ k, Some k ∈ types.required e ∧
             (({["other" := "x"]} : gmap string string) !! k = None ∨
              ({["other" := "x"]} : gmap string string) !! k = Some "")).
  { intros e He. rewrite variable_keys_chain in He.
    apply elem_of_cons in He as [-> | He].
    - exists "var_1". split; [|left; reflexivity].
      apply own_entry_required_spec. eexists.
      split; [apply list_elem_of_here | reflexivity].
    - apply elem_of_cons in He as [-> | He].
      + exists "var_2". split; [|left; reflexivity].
        apply own_entry_required_spec. eexists.
        split; [apply list_elem_of_here | reflexivity].
      + apply elem_of_nil in He. contradiction. }
  split; [exact H1|]. split; [exact H2|].
  exact (X13_required_key_missing _ _ _ H1 H2).
Defined.

(** ** Substitution reads only the keys of the Template *)

Lemma list_comprehension_ext {A B} (f g : A → result B) (l : list A) :
  (∀ x, x ∈ l → f x = g x) →
  list_comprehension f l = list_comprehension g l.
Proof.
  induction l as [|x l IH]; intros Hext; [reflexivity|]. simpl.
  rewrite (Hext x (list_elem_of_here _ _)), IH; [reflexivity|].
  intros y Hy. apply Hext. apply list_elem_of_further. exact Hy.
Qed.

Lemma for_reversed_ext {A S} (f g : A → S → result S) (l : list A) (s : S) :
  (∀ x s', x ∈ l → f x s' = g x s') →
  for_reversed f l s = for_reversed g l s.
Proof.
  induction l as [|x l IH]; intros Hext; [reflexivity|]. simpl.
  rewrite IH.
  - destruct (for_reversed g l s) as [s'|]; [|reflexivity]. simpl.
    apply Hext. apply list_elem_of_here.
  - intros y s' Hy. apply Hext. apply list_elem_of_further. exact Hy.
Qed.

Lemma variable_substitute_ext (params params' : gmap string string)
    (v : Var.t) :
  (∀ k, Var.key v = Some k → params !! k = params' !! k) →
  Var.substitute v params = Var.substitute v params'.
Proof.
  intros Hk. unfold Var.substitute, Var.params_get.
  unfold Var.key in Hk.
  destruct (Var._key v) as [k|]; [|reflexivity].
  rewrite (Hk k eq_refl). reflexivity.
Qed.

Lemma elem_of_templates_of (c : Template.t) (cs : list Template.component) :
  Template.IsTemplate c ∈ cs → c ∈ templates_of cs.
Proof.
  intros Hc. unfold templates_of. apply list_elem_of_omap.
  exists (Template.IsTemplate c). auto.
Qed.

Lemma substitute_ext (params params' : gmap string string) (T : Template.t) :
  well_formed T →
  (∀ k, occurs_in (Some k) T → params !! k = params' !! k) →
  Template.substitute params T = Template.substitute params' T.
Proof.
  induction T as [T _ IHc IHa] using template_ind. intros Hwf Hagree.
  apply well_formed_unfold in Hwf as ((_ & _ & Ht & _) & Hts & Ha).
  rewrite !substitute_unfold.
  assert (Hsubs : Template.variable_substitutions params T =
                  Template.variable_substitutions params' T).
  { unfold Template.variable_substitutions. apply list_comprehension_ext.
    intros v Hv. apply variable_substitute_ext. intros k Hk.
    apply Hagree. eapply occurs_direct; eauto. }
  rewrite <- Hsubs.
  destruct (Template.variable_substitutions params T) as [subs|e].
  - unfold Template._substitute_all_components,
      Template.substitute_all_components_with.
    rewrite (for_reversed_ext
               (Template.splice (Template.substitute params))
               (Template.splice (Template.substitute params'))).
    + reflexivity.
    + intros [c|v] [text rest] Hin; [|reflexivity].
      unfold Template.splice.
      rewrite Forall_forall in IHc. specialize (IHc _ Hin). simpl in IHc.
      assert (Hc : c ∈ Template._templates T).
      { rewrite <- Ht. apply elem_of_templates_of. exact Hin. }
      rewrite IHc; [reflexivity| |].
      * rewrite Forall_forall in Hts. apply Hts. exact Hc.
      * intros k Hk. apply Hagree. eapply occurs_nested; eauto.
  - destruct e; try reflexivity.
    destruct (Template._alternative T) as [a|] eqn:Halt; [|reflexivity].
    apply (IHa a eq_refl); [apply Ha; reflexivity|].
    intros k Hk. apply Hagree. eapply occurs_alternative; eauto.
Qed.

(** X14.  The substitution of a parsed Template reads the mapping only at
    the keys that occur in the Template: two mappings that agree on these keys
    give the same result, whatever else they hold. *)
Theorem X14_only_occurring_keys_matter (source : string) (root : Template.t)
    (params params' : gmap string string) :
  Template.parse source = Ok root →
  (∀ k, occurs_in (Some k) root → params !! k = params' !! k) →
  Template.substitute params root = Template.substitute params' root.
Proof.
  intros Hparse Hagree. apply substitute_ext; [|exact Hagree].
  exact (parse_well_formed source root Hparse).
Qed.

Lemma occurs_in_with_fallback (k : string) :
  occurs_in (Some k) with_fallback → k = "a".
Proof.
  intros H. inversion H as [T v Hv Hk | T c Hc _ | T a Ha Hocc]; subst.
  - apply elem_of_cons in Hv as [-> | Hv]; [|apply elem_of_nil in Hv; tauto].
    injection Hk as <-. reflexivity.
  - apply elem_of_nil in Hc. contradiction.
  - injection Ha as <-.
    inversion Hocc as [T v Hv Hk | T c Hc _ | T a' Ha' _]; subst.
    + apply elem_of_nil in Hv. contradiction.
    + apply elem_of_nil in Hc. contradiction.
    + discriminate.
Qed.

Lemma X14_only_occurring_keys_matter_witness :
  Template.parse "{a}|b" = Ok with_fallback ∧
  (∀ k, occurs_in (Some k) with_fallback →
        ({["a" := "1"]} : gmap string string) !! k =
        ({["a" := "1"; "z" := "2"]} : gmap string string) !! k) ∧
  Template.substitute {["a" := "1"]} with_fallback =
    Template.substitute {["a" := "1"; "z" := "2"]} with_fallback.
Proof.
  assert (H1 : Template.parse "{a}|b" = Ok with_fallback)
    by (vm_compute; reflexivity).
  assert (H2 : ∀ k, occurs_in (Some k) with_fallback →
        ({["a" := "1"]} : gmap string string) !! k =
        ({["a" := "1"; "z" := "2"]} : gmap string string) !! k).
  { intros k Hk. apply occurs_in_with_fallback in Hk as ->.
    vm_compute. reflexivity. }
  split; [exact H1|]. split; [exact H2|].
  exact (X14_only_occurring_keys_matter "{a}|b" with_fallback _ _ H1 H2).
Defined.

(** ** The traversal and the keys of a Template *)

Lemma variable_keys_occurs (T : Template.t) : ∀ k e,
  e ∈ Template.variable_keys T →
  k ∈ types.required e ∨ k ∈ types.optional e →
  occurs_in k T.
Proof.
  induction T as [T IHt _ IHa] using template_ind. intros k e He Hk.
  rewrite variable_keys_unfold in He.
  apply elem_of_cons in He as [-> | He].
  - destruct Hk as [Hk | Hk].
    + apply own_entry_required_spec in Hk as (v & Hv & Hkey).
      eapply occurs_direct; eauto.
    + apply own_entry_optional_spec in Hk as (c & e' & Hc & He' & Hk).
      rewrite Forall_forall in IHt.
      eapply occurs_nested; [exact Hc|]. eapply IHt; eauto.
  - destruct (Template._alternative T) as [a|] eqn:Halt.
    + eapply occurs_alternative; [exact Halt|]. eapply (IHa a eq_refl); eauto.
    + apply elem_of_nil in He. contradiction.
Qed.

(** X15.  The traversal reports exactly the keys of the Template: a key is
    in the required or the optional set of some entry of [variable_keys] if
    and only if it is the key of a direct variable of the Template, of one of
    its nested Templates at any depth, or of one of their alternatives. *)
Theorem X15_variable_keys_are_the_occurring_keys (T : Template.t)
    (k : option string) :
  (∃ e, e ∈ Template.variable_keys T ∧
        (k ∈ types.required e ∨ k ∈ types.optional e)) ↔
  occurs_in k T.
Proof.
  split.
  - intros (e & He & Hk). exact (variable_keys_occurs T k e He Hk).
  - apply occurs_in_variable_keys.
Qed.

Lemma occurs_in_closed (k : option string) (T : Template.t) :
  occurs_in k T → well_formed T →
  ∃ v, Var.closed v ∧ Var.key v = k.
Proof.
  induction 1 as [T v Hv Hk | T c Hc _ IH | T a Ha _ IH]; intros Hwf;
    apply well_formed_unfold in Hwf as ((_ & _ & _ & Hclosed) & Hts & Halt).
  - rewrite Forall_forall in Hclosed. exists v. auto.
  - rewrite Forall_forall in Hts. apply IH. apply Hts. exact Hc.
  - apply IH. apply Halt. exact Ha.
Qed.

(** X16.  Every key that the traversal of a parsed Template reports is a
    string, never [None], that is not empty and consists of characters of
    [VARIABLE_NAME_SAFE]. *)
Theorem X16_reported_keys_are_names (source : string) (root : Template.t)
    (e : RequiredAndOptionalVariables) (k : option string) :
  Template.parse source = Ok root →
  e ∈ Template.variable_keys root →
  k ∈ types.required e ∨ k ∈ types.optional e →
  ∃ name, k = Some name ∧ name ≠ "" ∧ name_safe (chars name).
Proof.
  intros Hparse He Hk. apply parse_well_formed in Hparse.
  pose proof (variable_keys_occurs root k e He Hk) as Hocc.
  destruct (occurs_in_closed k root Hocc Hparse)
    as (v & (start & cs & e' & Hb) & Hkey).
  unfold Var.build in Hb. inv_bind Hb.
  apply append_all_key_safe in Ha.
  apply close_key in Hb as (Hkv & Hne & _).
  exists (join (Var._key_characters a)). split; [|split].
  - rewrite <- Hkey. exact Hkv.
  - destruct (Var._key_characters a); [congruence | discriminate].
  - rewrite chars_join. exact Ha.
Qed.

Lemma X16_reported_keys_are_names_witness :
  Template.parse "{a}|b" = Ok with_fallback ∧
  own_entry with_fallback ∈ Template.variable_keys with_fallback ∧
  (Some "a" ∈ types.required (own_entry with_fallback) ∨
   Some "a" ∈ types.optional (own_entry with_fallback)) ∧
  ∃ name, Some "a" = Some name ∧ name ≠ "" ∧ name_safe (chars name).
Proof.
  assert (H1 : Template.parse "{a}|b" = Ok with_fallback)
    by (vm_compute; reflexivity).
  assert (H2 : own_entry with_fallback ∈ Template.variable_keys with_fallback).
  { rewrite variable_keys_unfold. apply list_elem_of_here. }
  assert (H3 : Some "a" ∈ types.required (own_entry with_fallback) ∨
               Some "a" ∈ types.optional (own_entry with_fallback)).
  { left. apply own_entry_required_spec. eexists.
    split; [apply list_elem_of_here | reflexivity]. }
  split; [exact H1|]. split; [exact H2|]. split; [exact H3|].
  exact (X16_reported_keys_are_names "{a}|b" with_fallback _ _ H1 H2 H3).
Defined.

(** ** The facade: rejected and repeated validation *)

Section facade_more.
Context {float : Type} (float_str : float → string).
Implicit Types (d pre post : list (Prompt.pykey * Prompt.value (float := float))).
Implicit Types (h : gmap nat (list (Prompt.pykey * Prompt.value (float := float)))).

Ltac unfold_aliases := unfold Prompt.heap, Prompt.address, Prompt.dict in *.

Lemma validated_idempotent d :
  map (validated float_str) (map (validated float_str) d) =
    map (validated float_str) d.
Proof.
  induction d as [|[k v] d IH]; [reflexivity|].
  simpl. rewrite IH. reflexivity.
Qed.

Lemma validated_convertible d :
  Forall convertible d → Forall convertible (map (validated float_str) d).
Proof.
  induction 1 as [|[k v] d [[Hk _] _] _ IH]; simpl; constructor; auto.
  split; [|exact I]. split; [exact Hk | discriminate].
Qed.

Lemma convertible_decide
    (item : Prompt.pykey * Prompt.value (float := float)) :
  convertible item ∨ ¬ convertible item.
Proof.
  destruct item as [[k|z|shown] v];
    try (right; intros [[[k' Hk] _] _]; discriminate).
  destruct v as [s|z|b|f|];
    try (left; split; [split; [eexists; reflexivity | discriminate]
                      | exact I]).
  - destruct (decide (String.length (Prompt.decimal (Z.abs z)) ≤
                      Prompt.int_max_str_digits)) as [Hz|Hz].
    + left. split; [split; [eexists; reflexivity | discriminate] | exact Hz].
    + right. intros [_ Hlimit]. exact (Hz Hlimit).
  - right. intros [[_ Hv] _]. apply Hv. reflexivity.
Qed.

(** A list is convertible throughout, or it has a first item that is not. *)
Lemma first_not_convertible d :
  Forall convertible d ∨
  ∃ pre bad post, d = pre ++ bad :: post ∧ Forall convertible pre ∧
                  ¬ convertible bad.
Proof.
  induction d as [|item d IH]; [left; constructor|].
  destruct (convertible_decide item) as [Hitem|Hitem].
  - destruct IH as [IH | (pre & bad & post & -> & Hpre & Hbad)].
    + left. constructor; assumption.
    + right. exists (item :: pre), bad, post.
      split; [reflexivity|]. split; [constructor; assumption | exact Hbad].
  - right. exists [], item, d. split; [reflexivity|].
    split; [constructor | exact Hitem].
Qed.

(** The body of the loop on an item that it does not convert. *)
Lemma validate_item_rejects (params : nat) h
    (item : Prompt.pykey * Prompt.value (float := float)) :
  ¬ convertible item →
  Prompt.validate_item float_str params item h = (h, Raise (rejection item)).
Proof.
  intros Hbad. destruct item as [[ks|z|shown] v].
  - destruct v as [s|z|b|f|];
      try (exfalso; apply Hbad;
           split; [split; [eexists; reflexivity | discriminate] | exact I]).
    + unfold Prompt.validate_item, rejection. cbn [fst snd].
      rewrite int_str_beyond_limit; [reflexivity|].
      intros Hz. apply Hbad.
      split; [split; [eexists; reflexivity | discriminate] | exact Hz].
    + reflexivity.
  - unfold Prompt.validate_item, rejection, Prompt.key_str. cbn [fst snd].
    destruct (Prompt.int_str z); reflexivity.
  - reflexivity.
Qed.

(** The loop up to the first item that is not converted. *)
Lemma validate_loop_rejects (params : nat) post
    (bad : Prompt.pykey * Prompt.value (float := float)) pre1 : ∀ pre0 h,
  h !! params = Some (map (validated float_str) pre0 ++ pre1 ++ bad :: post) →
  NoDup (pre0 ++ pre1 ++ bad :: post).*1 →
  Forall convertible pre1 →
  ¬ convertible bad →
  Prompt.validate_loop float_str params (length pre0)
    (length (pre1 ++ bad :: post)) h =
    (<[params := map (validated float_str) (pre0 ++ pre1) ++ bad :: post]> h,
     Raise (rejection bad)).
Proof.
  induction pre1 as [|item pre1 IH]; intros pre0 h Hh Hnd Hacc Hbad.
  - simpl. unfold_aliases. rewrite Hh. simpl.
    assert (Hi : (map (validated float_str) pre0 ++ bad :: post)
                   !! length pre0 = Some bad).
    { rewrite <- (length_map (validated float_str)). apply list_lookup_middle.
      reflexivity. }
    rewrite Hi, (validate_item_rejects params h bad Hbad).
    rewrite app_nil_r. rewrite insert_id by exact Hh. reflexivity.
  - apply Forall_cons in Hacc as [Hitem Hacc].
    change ((item :: pre1) ++ bad :: post)
      with (item :: (pre1 ++ bad :: post)) in *.
    cbn [length Prompt.validate_loop]. unfold_aliases. rewrite Hh.
    cbn [mbind option_bind].
    assert (Hi : (map (validated float_str) pre0 ++ item :: pre1 ++ bad :: post)
                   !! length pre0 = Some item).
    { rewrite <- (length_map (validated float_str)). apply list_lookup_middle.
      reflexivity. }
    rewrite Hi.
    pose proof (validate_item_accepts float_str params h pre0
                  (pre1 ++ bad :: post) item Hh Hnd Hitem) as Hstep.
    unfold_aliases. rewrite Hstep.
    replace (S (length pre0)) with (length (pre0 ++ [item]))
      by (rewrite length_app; simpl; lia).
    rewrite (IH (pre0 ++ [item])).
    + rewrite <- !app_assoc. simpl. f_equal. apply insert_insert_eq.
    + apply lookup_insert_eq.
    + rewrite <- app_assoc. exact Hnd.
    + exact Hacc.
    + exact Hbad.
Qed.

Lemma validate_params_rejects (params : nat) h pre post
    (bad : Prompt.pykey * Prompt.value (float := float)) :
  h !! params = Some (pre ++ bad :: post) →
  NoDup (pre ++ bad :: post).*1 →
  Forall convertible pre →
  ¬ convertible bad →
  Prompt._validate_params float_str params h =
    (<[params := map (validated float_str) pre ++ bad :: post]> h,
     Raise (rejection bad)).
Proof.
  intros Hh Hnd Hacc Hbad.
  unfold Prompt._validate_params. unfold_aliases. rewrite Hh.
  pose proof (validate_loop_rejects params post bad pre [] h Hh Hnd Hacc Hbad)
    as Hloop.
  change (length (@nil (Prompt.pykey * Prompt.value (float := float))))
    with 0 in Hloop.
  unfold_aliases. rewrite Hloop. reflexivity.
Qed.

(** Validation succeeds on the convertible dicts only. *)
Lemma validate_params_Ok_inv (params : nat) h d h1 (p : nat) :
  h !! params = Some d →
  NoDup d.*1 →
  Prompt._validate_params float_str params h = (h1, Ok p) →
  Forall convertible d.
Proof.
  intros Hh Hnd Hok.
  destruct (first_not_convertible d)
    as [Hall | (pre & bad & post & -> & Hpre & Hbad)]; [exact Hall|].
  rewrite (validate_params_rejects params h pre post bad Hh Hnd Hpre Hbad)
    in Hok.
  discriminate.
Qed.

(** X17.  When an item of the dict is not converted, [_validate_params]
    raises the error of the first such item: a [ParametersTypeError] for a
    key that is not a string and for a value that is neither a string nor a
    number, and the [ValueError] of [str()] for an integer with more digits
    than the interpreter converts.  It leaves the dict half converted: the
    values of the items before that one are replaced by their string
    representations, the item itself and the items behind it are as they
    were.  [Prompt.substitute] raises the same error and leaves the same
    dict. *)
Theorem X17_rejected_item_leaves_dict_half_converted (params : nat) h pre post
    (bad : Prompt.pykey * Prompt.value (float := float)) :
  h !! params = Some (pre ++ bad :: post) →
  NoDup (pre ++ bad :: post).*1 →
  Forall convertible pre →
  ¬ convertible bad →
  let h' := <[params := map (validated float_str) pre ++ bad :: post]> h in
  Prompt._validate_params float_str params h = (h', Raise (rejection bad)) ∧
  ∀ self reduce,
    Prompt.substitute float_str self params reduce h =
      (h', Raise (rejection bad)).
Proof.
  intros Hh Hnd Hacc Hbad h'.
  pose proof (validate_params_rejects params h pre post bad Hh Hnd Hacc Hbad)
    as Hvalidate.
  split; [exact Hvalidate|].
  intros self reduce. unfold Prompt.substitute. rewrite Hvalidate.
  reflexivity.
Qed.

(** X18.  Validation is idempotent, and it leaves a dict of strings alone.
    After [_validate_params] has succeeded on a dict, the dict holds the
    string representations of its values, a second call on the same dict
    succeeds and changes nothing; and when all values of the dict were
    strings already, the first call has changed nothing either. *)
Theorem X18_validation_idempotent (params : nat) h d h1 (p : nat) :
  h !! params = Some d →
  NoDup d.*1 →
  Prompt._validate_params float_str params h = (h1, Ok p) →
  p = params ∧
  h1 = <[params := map (validated float_str) d]> h ∧
  Prompt._validate_params float_str params h1 = (h1, Ok params) ∧
  (Forall (λ item, ∃ s, item.2 = Prompt.VStr s) d → h1 = h).
Proof.
  intros Hh Hnd Hok.
  pose proof (validate_params_Ok_inv params h d h1 p Hh Hnd Hok) as Hacc.
  rewrite (validate_params_spec float_str params h d Hh Hnd Hacc) in Hok.
  injection Hok as <- <-. split; [reflexivity|]. split; [reflexivity|].
  split.
  - rewrite (validate_params_spec float_str params
               (<[params := map (validated float_str) d]> h)
               (map (validated float_str) d)).
    + rewrite validated_idempotent. unfold_aliases.
      rewrite insert_insert_eq. reflexivity.
    + unfold_aliases. rewrite lookup_insert_eq. reflexivity.
    + rewrite validated_keys. exact Hnd.
    + apply validated_convertible. exact Hacc.
  - intros Hstr.
    assert (Hsame : map (validated float_str) d = d).
    { clear Hh Hnd Hacc.
      induction Hstr as [|[k v] d (s & Hs) _ IH]; [reflexivity|].
      simpl in Hs. subst v. simpl. rewrite IH. reflexivity. }
    rewrite Hsame. unfold_aliases. apply insert_id. exact Hh.
Qed.

(** X19.  The facade raises only for the parameters.  On a Prompt built
    from a template text and a dict that validation converts (string keys;
    string, boolean and float values, and integers within the digit limit of
    [str()]), [Prompt.substitute] returns a string, with or without
    whitespace reduction. *)
Theorem X19_facade_returns_a_string (template_text : string)
    (prompt : Prompt.t) (params : nat) h d (reduce : bool) :
  Prompt.new template_text = Ok prompt →
  h !! params = Some d →
  NoDup d.*1 →
  Forall convertible d →
  ∃ s, (Prompt.substitute float_str prompt params reduce h).2 = Ok (Some s).
Proof.
  intros Hnew Hh Hnd Hacc. unfold Prompt.substitute.
  rewrite (validate_params_spec float_str params h d Hh Hnd Hacc).
  unfold Prompt.new in Hnew. inv_bind Hnew. injection Hnew as <-.
  apply parse_well_formed in Ha.
  destruct (substitute_well_formed
              (Prompt.validated_view
                 (<[params := map (validated float_str) d]> h) params)
              a Ha) as (s & Hs).
  cbn [snd Prompt._template]. unfold_aliases. rewrite Hs.
  destruct reduce; simpl; eauto.
Qed.

End facade_more.

Lemma X17_rejected_item_leaves_dict_half_converted_witness :
  ({[0 := [(Prompt.KStr "n", Prompt.VInt 3);
           (Prompt.KStr "bad", Prompt.VOther);
           (Prompt.KStr "m", Prompt.VInt 4)]]}
     : gmap nat (list (Prompt.pykey * Prompt.value (float := Empty_set))))
    !! 0 =
    Some ([(Prompt.KStr "n", Prompt.VInt 3)] ++
          (Prompt.KStr "bad", Prompt.VOther) ::
          [(Prompt.KStr "m", Prompt.VInt 4)]) ∧
  NoDup ([(Prompt.KStr "n", Prompt.VInt (float := Empty_set) 3)] ++
         (Prompt.KStr "bad", Prompt.VOther) ::
         [(Prompt.KStr "m", Prompt.VInt 4)]).*1 ∧
  Forall convertible [(Prompt.KStr "n", Prompt.VInt (float := Empty_set) 3)] ∧
  ¬ convertible (Prompt.KStr "bad", Prompt.VOther (float := Empty_set)) ∧
  Prompt._validate_params no_float_str 0
    {[0 := [(Prompt.KStr "n", Prompt.VInt 3);
            (Prompt.KStr "bad", Prompt.VOther);
            (Prompt.KStr "m", Prompt.VInt 4)]]} =
    (<[0 := [(Prompt.KStr "n", Prompt.VStr "3");
             (Prompt.KStr "bad", Prompt.VOther);
             (Prompt.KStr "m", Prompt.VInt 4)]]>
       {[0 := [(Prompt.KStr "n", Prompt.VInt 3);
               (Prompt.KStr "bad", Prompt.VOther);
               (Prompt.KStr "m", Prompt.VInt 4)]]},
     Raise (ParametersTypeError "Key bad has a non-string value")).
Proof.
  assert (H1 : ({[0 := [(Prompt.KStr "n", Prompt.VInt 3);
           (Prompt.KStr "bad", Prompt.VOther);
           (Prompt.KStr "m", Prompt.VInt 4)]]}
     : gmap nat (list (Prompt.pykey * Prompt.value (float := Empty_set))))
    !! 0 =
    Some ([(Prompt.KStr "n", Prompt.VInt 3)] ++
          (Prompt.KStr "bad", Prompt.VOther) ::
          [(Prompt.KStr "m", Prompt.VInt 4)])) by reflexivity.
  assert (H2 : NoDup ([(Prompt.KStr "n", Prompt.VInt (float := Empty_set) 3)] ++
         (Prompt.KStr "bad", Prompt.VOther) ::
         [(Prompt.KStr "m", Prompt.VInt 4)]).*1).
  { repeat constructor; simpl; rewrite ?elem_of_cons, ?elem_of_nil;
      intros H; decompose [or] H; discriminate || contradiction. }
  assert (H3 : Forall convertible
                 [(Prompt.KStr "n", Prompt.VInt (float := Empty_set) 3)]).
  { apply Forall_cons; split; [check_convertible | constructor]. }
  assert (H4 : ¬ convertible
                 (Prompt.KStr "bad", Prompt.VOther (float := Empty_set))).
  { intros [[_ H] _]. apply H. reflexivity. }
  split; [exact H1|]. split; [exact H2|]. split; [exact H3|].
  split; [exact H4|].
  exact (proj1 (X17_rejected_item_leaves_dict_half_converted no_float_str 0 _
                  _ _ _ H1 H2 H3 H4)).
Defined.

Lemma X18_validation_idempotent_witness :
  callers_heap !! 0 = Some callers_dict ∧
  NoDup callers_dict.*1 ∧
  Prompt._validate_params no_float_str 0 callers_heap =
    (<[0 := [(Prompt.KStr "n", Prompt.VStr "3");
             (Prompt.KStr "s", Prompt.VStr "x")]]> callers_heap, Ok 0) ∧
  0 = 0 ∧
  <[0 := [(Prompt.KStr "n", Prompt.VStr "3");
          (Prompt.KStr "s", Prompt.VStr "x")]]> callers_heap =
    <[0 := map (validated no_float_str) callers_dict]> callers_heap ∧
  Prompt._validate_params no_float_str 0
    (<[0 := [(Prompt.KStr "n", Prompt.VStr "3");
             (Prompt.KStr "s", Prompt.VStr "x")]]> callers_heap) =
    (<[0 := [(Prompt.KStr "n", Prompt.VStr "3");
             (Prompt.KStr "s", Prompt.VStr "x")]]> callers_heap, Ok 0) ∧
  (Forall (λ item, ∃ s, item.2 = Prompt.VStr s) callers_dict →
   <[0 := [(Prompt.KStr "n", Prompt.VStr "3");
           (Prompt.KStr "s", Prompt.VStr "x")]]> callers_heap = callers_heap).
Proof.
  assert (H1 : callers_heap !! 0 = Some callers_dict) by reflexivity.
  assert (H3 : Prompt._validate_params no_float_str 0 callers_heap =
    (<[0 := [(Prompt.KStr "n", Prompt.VStr "3");
             (Prompt.KStr "s", Prompt.VStr "x")]]> callers_heap, Ok 0))
    by (vm_compute; reflexivity).
  split; [exact H1|]. split; [exact callers_dict_NoDup|].
  split; [exact H3|].
  exact (X18_validation_idempotent no_float_str 0 callers_heap callers_dict
           _ 0 H1 callers_dict_NoDup H3).
Defined.

Lemma X19_facade_returns_a_string_witness :
  Prompt.new "{a}|b" = Ok (Prompt.mk "{a}|b" with_fallback None) ∧
  callers_heap !! 0 = Some callers_dict ∧
  NoDup callers_dict.*1 ∧
  Forall convertible callers_dict ∧
  ∃ s, (Prompt.substitute no_float_str (Prompt.mk "{a}|b" with_fallback None)
          0 true callers_heap).2 = Ok (Some s).
Proof.
  assert (H0 : Prompt.new "{a}|b" = Ok (Prompt.mk "{a}|b" with_fallback None))
    by (vm_compute; reflexivity).
  assert (H1 : callers_heap !! 0 = Some callers_dict) by reflexivity.
  split; [exact H0|]. split; [exact H1|]. split; [exact callers_dict_NoDup|].
  split; [exact callers_dict_convertible|].
  exact (X19_facade_returns_a_string no_float_str "{a}|b" _ 0 callers_heap
           callers_dict true H0 H1 callers_dict_NoDup
           callers_dict_convertible).
Defined.

(** ** The exceptions of the parser *)

Lemma tolerable_bind {A B} (m : result A) (f : A → result B) :
  tolerable m → (∀ a, m = Ok a → tolerable (f a)) → tolerable (m ≫= f).
Proof. destruct m as [a|e]; simpl; auto. Qed.

Lemma var_append_tolerable (s : nat) (cs : list ascii) (v : Var.t)
    (char : ascii) :
  Var.append_all (Var.new (Some s)) cs = Ok v →
  tolerable (Var.append v char).
Proof.
  intros Hv. apply append_all_under_construction in Hv.
  destruct Hv as [Hs He _ _ _ _ _].
  unfold Var.append, Var.super_append, Var._process_option, Var._mute,
    Var._raise_detailed_syntax_error, PromptComponent.append.
  rewrite Hs, He.
  repeat match goal with
         | |- context [if ?b then _ else _] => destruct b
         end; exact I.
Qed.

Lemma var_close_tolerable (v : Var.t) (e : nat) : tolerable (Var.close v e).
Proof.
  unfold Var.close, Var._before_close, Var._set_required_value, Var._set_key,
    Var._raise_detailed_syntax_error.
  destruct (Var._required_value_characters v);
    [destruct (Var.targets_required_value v)|];
    simpl; try exact I;
    destruct (Var._key_characters v); exact I.
Qed.

Lemma template_append_open (c : Template.t) (char : ascii) :
  (∃ s, Template.start_index c = Some s) → Template._end_index c = None →
  ∃ c', Template.append c char = Ok c' ∧
        open_ok (Some (Template.IsTemplate c')).
Proof.
  intros [s Hs] He. unfold Template.append, PromptComponent.append.
  rewrite Hs, He. simpl. eexists. split; [reflexivity|].
  simpl. eauto.
Qed.

Section parser_exceptions.
Context (rec : Template.t → result Template.t).
Context (Hrec : ∀ self, Template.input_text self ≠ None → tolerable (rec self)).
Context (text : string).

(** What an iteration leaves for the next one. *)
Lemma step_tolerable (i : nat) (char : ascii) (st : Template.scanner) :
  open_ok (Template.current_component st) →
  tolerable (Template.step rec text i char st) ∧
  ∀ st', Template.step rec text i char st = Ok (Template.Continue st') ∨
         Template.step rec text i char st = Ok (Template.Break st') →
         open_ok (Template.current_component st').
Proof.
  intros Hopen. unfold Template.step.
  destruct (negb (char_in_tuple char Template.characters_to_check)).
  - destruct (Template.current_component st) as [[c|v]|] eqn:Hc;
      simpl in Hopen.
    + destruct Hopen as [Hs He].
      destruct (template_append_open c char Hs He) as (c' & Hc' & Hok).
      rewrite Hc'. simpl. split; [exact I|].
      intros st' [[= <-]|[=]]. exact Hok.
    + destruct Hopen as (s & cs & Hv). split.
      * apply tolerable_bind; [|intros; exact I].
        apply (var_append_tolerable s cs v char Hv).
      * intros st' [H|H]; inv_bind H; [injection H as <-|discriminate].
        simpl. exists s, (cs ++ [char]).
        rewrite append_all_snoc, Hv. exact Ha.
    + split; [exact I|]. intros st' [[= <-]|[=]]. rewrite Hc. exact I.
  - destruct (Template.classify char);
      destruct (Template.current_component st) as [[c|v]|] eqn:Hc;
      simpl in Hopen;
      try (split; [exact I | intros st' [H|H]; discriminate]);
      try (lazymatch goal with
           | |- context [match Template.nested_template_stack st with
                         | 0 => _ | S _ => _ end] => fail
           | |- context [Template.append c char] =>
               destruct Hopen as [Hs He];
               destruct (template_append_open c char Hs He)
                 as (c' & Hc' & Hok);
               rewrite Hc'; simpl; split; [exact I|];
               intros st' [[= <-]|[=]]; exact Hok
           end).
    + split; [exact I|]. intros st' [[= <-]|[=]]. simpl. eauto.
    + destruct (Template.nested_template_stack st) as [|depth].
      * split.
        -- repeat (apply tolerable_bind; [|intros; exact I]).
           apply Hrec. simpl. discriminate.
        -- intros st' [H|H]; inv_bind H; [injection H as <-|discriminate].
           unfold Template.close_and_save_template in Ha. inv_bind Ha.
           injection Ha as <-. exact I.
      * destruct Hopen as [Hs He].
        destruct (template_append_open c char Hs He) as (c' & Hc' & Hok).
        rewrite Hc'. simpl. split; [exact I|].
        intros st' [[= <-]|[=]]. exact Hok.
    + split.
      * apply tolerable_bind; [|intros; exact I].
        apply Hrec. simpl. discriminate.
      * intros st' [H|H]; inv_bind H; [discriminate|injection H as <-].
        simpl. rewrite ?Hc. exact I.
    + split; [exact I|]. intros st' [[= <-]|[=]]. simpl.
      exists i, []. reflexivity.
    + split.
      * do 2 (apply tolerable_bind; [|intros; exact I]).
        apply var_close_tolerable.
      * intros st' [H|H]; inv_bind H; [injection H as <-|discriminate].
        unfold Template.close_and_save_variable in Ha. inv_bind Ha.
        injection Ha as <-. exact I.
Qed.

Lemma scan_tolerable (rest : list ascii) : ∀ i st,
  open_ok (Template.current_component st) →
  tolerable (Template.scan rec text i rest st) ∧
  ∀ st', Template.scan rec text i rest st = Ok st' →
         open_ok (Template.current_component st').
Proof.
  induction rest as [|char rest IH]; simpl; intros i st Hopen.
  - split; [exact I|]. intros st' [= <-]. exact Hopen.
  - destruct (step_tolerable i char st Hopen) as [Htol Hnext].
    destruct (Template.step rec text i char st) as [[st1|st1]|e].
    + apply IH. apply Hnext. left. reflexivity.
    + split; [exact I|]. intros st' [= <-]. apply Hnext. right. reflexivity.
    + split; [exact Htol | discriminate].
Qed.

Lemma finish_tolerable (st : Template.scanner) :
  open_ok (Template.current_component st) →
  tolerable (Template.finish text st).
Proof.
  intros Hopen. unfold Template.finish.
  destruct (Template.input_text (Template.self st)) as [[|a s]|];
    try exact I;
    destruct (Template.current_component st) as [[c|v]|]; try exact I;
    simpl in *.
  - destruct Hopen as [[s' ->] _]. exact I.
  - destruct Hopen as (s' & cs & Hv).
    apply append_all_under_construction in Hv. rewrite (uc_start _ _ _ Hv).
    exact I.
  - destruct Hopen as [[s' ->] _]. exact I.
  - destruct Hopen as (s' & cs & Hv).
    apply append_all_under_construction in Hv. rewrite (uc_start _ _ _ Hv).
    exact I.
Qed.

End parser_exceptions.

Lemma parse_and_validate_body_tolerable
    (rec : Template.t → result Template.t) (self : Template.t) :
  (∀ self, Template.input_text self ≠ None → tolerable (rec self)) →
  Template.input_text self ≠ None →
  tolerable (Template.parse_and_validate_body rec self).
Proof.
  intros Hrec Htext. unfold Template.parse_and_validate_body.
  destruct (Template.input_text self) as [text|]; [|congruence].
  destruct (scan_tolerable rec Hrec text (chars text) 0
              (Template.mkScanner self None 0) I) as [Htol Hnext].
  apply tolerable_bind; [exact Htol|].
  intros st Hst. apply finish_tolerable. apply Hnext. exact Hst.
Qed.

Lemma parse_and_validate_tolerable (fuel : nat) : ∀ self,
  Template.input_text self ≠ None →
  tolerable (Template._parse_and_validate fuel self).
Proof.
  induction fuel as [|fuel IH]; intros self Htext; [exact I|].
  simpl. apply parse_and_validate_body_tolerable; assumption.
Qed.

(** X20.  Building a Template from a text raises nothing but a
    [PromptSyntaxError]: [Template(input_text=text)] and [Prompt(text)]
    either return the object or raise a syntax error, and none of the
    [InternalError]s of the components' state checks, nor a [TypeError]
    for an unset text or offset, reaches the caller. *)
Theorem X20_only_syntax_errors (text : string) :
  (is_Ok (Template.parse text) ∨ raises_syntax_error (Template.parse text)) ∧
  (is_Ok (Prompt.new text) ∨ raises_syntax_error (Prompt.new text)).
Proof.
  assert (Hparse : is_Ok (Template.parse text) ∨
                   raises_syntax_error (Template.parse text)).
  { pose proof (parse_and_validate_tolerable (S (String.length text))
                  (Template.fresh None (Some text))) as Htol.
    pose proof (proj2 (parse_fuel_irrelevant text (S (String.length text))
                         ltac:(lia))) as Hfuel.
    unfold Template.parse, Template.init in *.
    destruct (Template._parse_and_validate (S (String.length text))
                (Template.fresh None (Some text))) as [T|e].
    - left. exists T. reflexivity.
    - right. specialize (Htol ltac:(discriminate)).
      destruct e; simpl in Htol; try contradiction; try congruence.
      eexists _, _. reflexivity. }
  split; [exact Hparse|]. unfold Prompt.new.
  destruct Hparse as [[T ->] | (m & d & ->)].
  - left. eexists. reflexivity.
  - right. exists m, d. reflexivity.
Qed.

(** ** Whitespace reduction *)

Lemma split_from_words (rest : list ascii) : ∀ acc,
  Forall (λ c, Prompt.is_space c = false) acc →
  Forall word (Prompt.split_from acc rest).
Proof.
  assert (Hword : ∀ a acc, Forall (λ c, Prompt.is_space c = false) (a :: acc) →
                           word (join (a :: acc))).
  { intros a acc H. split; [discriminate|]. rewrite chars_join. exact H. }
  induction rest as [|c rest IH]; intros acc Hacc; simpl.
  - destruct acc as [|a acc]; [constructor|].
    constructor; [apply Hword; exact Hacc | constructor].
  - destruct (Prompt.is_space c) eqn:Hc.
    + destruct acc as [|a acc]; [apply IH; constructor|].
      constructor; [apply Hword; exact Hacc | apply IH; constructor].
    + apply IH. apply Forall_app. split; [exact Hacc|].
      constructor; [exact Hc | constructor].
Qed.

Lemma split_from_word (w : list ascii) : ∀ acc rest,
  Forall (λ c, Prompt.is_space c = false) w →
  Prompt.split_from acc (w ++ rest) = Prompt.split_from (acc ++ w) rest.
Proof.
  induction w as [|c w IH]; intros acc rest Hw; simpl.
  - rewrite app_nil_r. reflexivity.
  - inversion Hw as [|? ? Hc Hw']; subst. rewrite Hc.
    rewrite IH by exact Hw'. rewrite <- app_assoc. reflexivity.
Qed.

Lemma split_concat (ws : list string) :
  Forall word ws → Prompt.split (String.concat " " ws) = ws.
Proof.
  unfold Prompt.split.
  induction ws as [|w ws IH]; intros Hws; [reflexivity|].
  inversion Hws as [|? ? [Hne Hw] Hws']; subst.
  assert (Hchars : chars w ≠ []).
  { intros H. apply Hne. rewrite <- (join_chars w), H. reflexivity. }
  destruct ws as [|w2 ws].
  - simpl. rewrite <- (app_nil_r (chars w)).
    rewrite split_from_word by exact Hw. simpl.
    destruct (chars w) eqn:Hcw; [congruence|].
    rewrite <- Hcw, join_chars. reflexivity.
  - change (String.concat " " (w :: w2 :: ws))
      with (w +:+ " " +:+ String.concat " " (w2 :: ws)).
    rewrite !chars_app. rewrite split_from_word by exact Hw.
    change (chars " ") with [" "%char]. simpl.
    destruct (chars w) eqn:Hcw; [congruence|].
    rewrite <- Hcw, join_chars. f_equal. apply IH. exact Hws'.
Qed.

Lemma words_of_space (c : ascii) (l : list ascii) (ws : list string) :
  Prompt.is_space c = true → words_of l ws → words_of (c :: l) ws.
Proof.
  intros Hc Hl. destruct Hl as [gap Hgap | gap w rest ws Hgap Hw Hrest Hws].
  - apply words_of_gap. constructor; assumption.
  - apply (words_of_word (c :: gap) w rest ws); try assumption.
    constructor; assumption.
Qed.

(** [split] cuts the text into its words: with no word being read, and with
    the characters [acc] of a word read so far. *)
Lemma split_from_words_of (rest : list ascii) :
  words_of rest (Prompt.split_from [] rest) ∧
  ∀ acc, acc ≠ [] → Forall (λ c, Prompt.is_space c = false) acc →
         words_of (acc ++ rest) (Prompt.split_from acc rest).
Proof.
  assert (Hword : ∀ acc, acc ≠ [] →
                         Forall (λ c, Prompt.is_space c = false) acc →
                         word (join acc)).
  { intros acc Hne Hacc. split.
    - intros H. apply Hne. rewrite <- (chars_join acc), H. reflexivity.
    - rewrite chars_join. exact Hacc. }
  induction rest as [|c rest [IHnone IHword]].
  - split; [apply words_of_gap; constructor|].
    intros acc Hne Hacc. simpl.
    destruct acc as [|a acc]; [congruence|].
    pose proof (words_of_word [] (join (a :: acc)) [] []
                  (Forall_nil_2 _) (Hword _ Hne Hacc) I
                  (words_of_gap [] (Forall_nil_2 _))) as H.
    rewrite chars_join in H. exact H.
  - assert (Hnone : Prompt.is_space c = true →
                    words_of (c :: rest) (Prompt.split_from [] rest)).
    { intros Hc. apply words_of_space; assumption. }
    split.
    + simpl. destruct (Prompt.is_space c) eqn:Hc; [apply Hnone; reflexivity|].
      apply (IHword [c]); [discriminate|].
      constructor; [exact Hc | constructor].
    + intros acc Hne Hacc. simpl.
      destruct (Prompt.is_space c) eqn:Hc.
      * destruct acc as [|a acc]; [congruence|].
        pose proof (words_of_word [] (join (a :: acc)) (c :: rest) _
                      (Forall_nil_2 _) (Hword _ Hne Hacc) Hc
                      (Hnone eq_refl)) as H.
        rewrite chars_join in H. exact H.
      * replace (acc ++ c :: rest) with ((acc ++ [c]) ++ rest)
          by (rewrite <- app_assoc; reflexivity).
        apply IHword.
        -- destruct acc; discriminate.
        -- apply Forall_app. split; [exact Hacc|].
           constructor; [exact Hc | constructor].
Qed.

Section facade_whitespace.
Context {float : Type} (float_str : float → string).
Implicit Types (d : list (Prompt.pykey * Prompt.value (float := float))).
Implicit Types (h : gmap nat (list (Prompt.pykey * Prompt.value (float := float)))).

(** X21.  Whitespace reduction keeps the words and nothing else.  With
    [postprocess_whitespace_reduction] the facade returns the words of the
    unreduced result, its maximal runs of characters that are not whitespace,
    in order and joined by single spaces; reducing the reduced text again
    changes nothing. *)
Theorem X21_whitespace_reduction (template_text : string)
    (prompt : Prompt.t) (params : nat) h d :
  Prompt.new template_text = Ok prompt →
  h !! params = Some d →
  NoDup d.*1 →
  Forall convertible d →
  ∃ s ws,
    (Prompt.substitute float_str prompt params false h).2 = Ok (Some s) ∧
    (Prompt.substitute float_str prompt params true h).2 =
      Ok (Some (String.concat " " ws)) ∧
    words_of (chars s) ws ∧
    reduce_whitespace (String.concat " " ws) = String.concat " " ws.
Proof.
  intros Hnew Hh Hnd Hacc. unfold Prompt.substitute.
  rewrite (validate_params_spec float_str params h d Hh Hnd Hacc).
  unfold Prompt.new in Hnew. inv_bind Hnew. injection Hnew as <-.
  apply parse_well_formed in Ha.
  destruct (substitute_well_formed
              (Prompt.validated_view
                 (<[params := map (validated float_str) d]> h) params)
              a Ha) as (s & Hs).
  cbn [snd Prompt._template].
  unfold Prompt.heap, Prompt.address, Prompt.dict in *. rewrite Hs.
  exists s, (Prompt.split s). simpl.
  split; [reflexivity|]. split; [reflexivity|]. split.
  - apply (proj1 (split_from_words_of (chars s))).
  - unfold reduce_whitespace. rewrite split_concat; [reflexivity|].
    apply split_from_words; constructor.
Qed.

End facade_whitespace.

Lemma X21_whitespace_reduction_witness :
  Prompt.new "{a}|b" = Ok (Prompt.mk "{a}|b" with_fallback None) ∧
  callers_heap !! 0 = Some callers_dict ∧
  NoDup callers_dict.*1 ∧
  Forall convertible callers_dict ∧
  ∃ s ws,
    (Prompt.substitute no_float_str (Prompt.mk "{a}|b" with_fallback None)
       0 false callers_heap).2 = Ok (Some s) ∧
    (Prompt.substitute no_float_str (Prompt.mk "{a}|b" with_fallback None)
       0 true callers_heap).2 = Ok (Some (String.concat " " ws)) ∧
    words_of (chars s) ws ∧
    reduce_whitespace (String.concat " " ws) = String.concat " " ws.
Proof.
  assert (H0 : Prompt.new "{a}|b" = Ok (Prompt.mk "{a}|b" with_fallback None))
    by (vm_compute; reflexivity).
  assert (H1 : callers_heap !! 0 = Some callers_dict) by reflexivity.
  split; [exact H0|]. split; [exact H1|]. split; [exact callers_dict_NoDup|].
  split; [exact callers_dict_convertible|].
  exact (X21_whitespace_reduction no_float_str "{a}|b" _ 0 callers_heap
           callers_dict H0 H1 callers_dict_NoDup callers_dict_convertible).
Defined.
